(** * Yomi: the acquisition pipeline of a web-comic downloader

    A shallow embedding of
      - [yomi/extractors/base.py]  ([BaseExtractor.download_image]),
      - [yomi/utils/archive.py]    ([create_cbz_archive], [create_pdf_document]),
      - [yomi/utils/metadata.py]   ([generate_comic_info_xml],
                                    [parse_chapter_metadata]),
      - [yomi/utils/anilist.py]    ([fetch_metadata], [_format_meta]),
      - [yomi/cli.py]              (the search and the grid of [available]),
      - [yomi/core.py]             ([_resolve_target], [_finalize_target],
                                    [_filter_chapters], [_download_single_chapter],
                                    the loop of [_download_manga_async])
    together with the properties of the specification that concern them,
    and further properties of the code.

    Conventions.  A Python [str] is a [string]; its characters are the code
    points below 256.  A Python exception is an explicit error result.  What
    the program obtains from outside (HTTP responses, the image codecs, the
    zip format, the similarity ratio of difflib, the mirror hunter, the
    user at the prompt, the directories that the file system refuses to
    make, the lines that the terminal refuses to render, the downloads
    that the event loop has run when an exception ends the others) is an
    oracle passed as a record of functions, or an effect of a small free
    monad, so that every definition computes.  The folder of a series is
    one tree of directories and files: the folders of its chapters and the
    packaged chapters are in it, and a deletion takes what lies below. *)

From Stdlib Require Import ZArith Ascii String List Bool Lia Permutation Sorted.
From Stdlib Require Import Floats.SpecFloat DecimalString DecimalNat.
From stdpp Require Import base option list gmap strings sorting.

(* ===================================================================== *)
(** * Python strings *)
(* ===================================================================== *)

Module PyStr.

Definition code (c : ascii) : N := N_of_ascii c.

Definition in_range (lo hi : N) (c : ascii) : bool :=
  (lo <=? code c)%N && (code c <=? hi)%N.

(** [\d] of [re] on a [str] pattern, and the decimal digits of [float]:
    below 256 the only characters of category Nd are ['0'..'9']. *)
Definition isdigit (c : ascii) : bool := in_range 48 57 c.

(** [str.isspace]: below 256 these are U+0009..U+000D, U+001C..U+001F,
    U+0020, U+0085 and U+00A0. *)
Definition isspace (c : ascii) : bool :=
  in_range 9 13 c || in_range 28 32 c || (code c =? 133)%N || (code c =? 160)%N.

(** [str.isalnum]: letters, decimal digits and the other numeric characters
    of Latin-1. *)
Definition isalnum (c : ascii) : bool :=
  isdigit c || in_range 65 90 c || in_range 97 122 c
  || (code c =? 170)%N || (code c =? 178)%N || (code c =? 179)%N
  || (code c =? 181)%N || (code c =? 185)%N || (code c =? 186)%N
  || in_range 188 190 c
  || in_range 192 214 c || in_range 216 246 c || in_range 248 255 c.

(** [str.lower] on one character: ['A'..'Z'] and the upper-case letters of
    Latin-1 (U+00C0..U+00DE but the multiplication sign U+00D7). *)
Definition lower_char (c : ascii) : ascii :=
  if in_range 65 90 c || (in_range 192 222 c && negb (code c =? 215)%N)
  then ascii_of_N (code c + 32) else c.

Fixpoint lower (s : string) : string :=
  match s with
  | "" => ""
  | String c s' => String (lower_char c) (lower s')
  end.

Fixpoint lstrip (s : string) : string :=
  match s with
  | String c s' => if isspace c then lstrip s' else s
  | "" => ""
  end.

(** Drops the white space at the end: a character is kept when it is not
    white space or when something is kept after it. *)
Fixpoint rstrip (s : string) : string :=
  match s with
  | "" => ""
  | String c s' =>
      match rstrip s' with
      | "" => if isspace c then "" else String c ""
      | r => String c r
      end
  end.

(** [str.strip()] *)
Definition strip (s : string) : string := rstrip (lstrip s).

(** [s.startswith(p)] *)
Fixpoint startswith (p s : string) : bool :=
  match p, s with
  | "", _ => true
  | String a p', String b s' => if Ascii.eqb a b then startswith p' s' else false
  | String _ _, "" => false
  end.

(** The rest of [s] after the prefix [p]. *)
Fixpoint drop_prefix (p s : string) : option string :=
  match p, s with
  | "", _ => Some s
  | String a p', String b s' => if Ascii.eqb a b then drop_prefix p' s' else None
  | String _ _, "" => None
  end.

Fixpoint rev_string (acc s : string) : string :=
  match s with
  | "" => acc
  | String c s' => rev_string (String c acc) s'
  end.

(** [s.endswith(p)] *)
Definition endswith (p s : string) : bool :=
  startswith (rev_string "" p) (rev_string "" s).

(** [p in s] *)
Fixpoint contains (p s : string) : bool :=
  startswith p s ||
  match s with
  | "" => false
  | String _ s' => contains p s'
  end.

(** [s.split(sep)] for a separator of one character: the pieces between
    the separators, never an empty list. *)
Fixpoint split (sep : ascii) (s : string) : list string :=
  match s with
  | "" => [""]
  | String c s' =>
      if Ascii.eqb c sep then "" :: split sep s'
      else match split sep s' with
           | p :: ps => String c p :: ps
           | [] => [String c ""]
           end
  end.

(** [s.replace(old, new)] for a non-empty [old]: the occurrences of [old]
    are replaced from left to right, without overlap.  [fuel] bounds the
    number of characters looked at; [replace] gives enough. *)
Fixpoint replace_fuel (fuel : nat) (old new s : string) : string :=
  match fuel with
  | O => s
  | S fuel' =>
      match drop_prefix old s with
      | Some rest => new +:+ replace_fuel fuel' old new rest
      | None =>
          match s with
          | "" => ""
          | String c s' => String c (replace_fuel fuel' old new s')
          end
      end
  end.

Definition replace (old new s : string) : string :=
  match old with
  | "" => s
  | _ => replace_fuel (S (String.length s)) old new s
  end.

(** The longest prefix made of digits, and the rest. *)
Fixpoint span_digits (s : string) : string * string :=
  match s with
  | String c s' =>
      if isdigit c then let '(d, r) := span_digits s' in (String c d, r)
      else ("", s)
  | "" => ("", "")
  end.

(** The pattern [(\d+(\.\d+)?)] matched at the start of [s]: the first
    group.  [\d+] is greedy and the optional group is tried before it is
    skipped, so the engine's first success is the longest run of digits
    followed, when there is one, by a dot and the longest run of digits
    after it. *)
Definition match_number (s : string) : option string :=
  let '(d1, r1) := span_digits s in
  match d1 with
  | "" => None
  | _ =>
      match r1 with
      | String "."%char r2 =>
          let '(d2, _) := span_digits r2 in
          match d2 with
          | "" => Some d1
          | _ => Some (d1 +:+ "." +:+ d2)
          end
      | _ => Some d1
      end
  end.

(** [re.search(r'(\d+(\.\d+)?)', s)]: the match at the leftmost position
    that has one; the result is [match.group(1)]. *)
Fixpoint search_number (s : string) : option string :=
  match match_number s with
  | Some m => Some m
  | None =>
      match s with
      | "" => None
      | String _ s' => search_number s'
      end
  end.

(** The code point order of [str], which [sorted] uses. *)
Definition str_le (a b : string) : bool := String.leb a b.

End PyStr.


Import PyStr.

(* ===================================================================== *)
(** * Python floats *)
(* ===================================================================== *)

(** A Python [float] is an IEEE 754 binary64 number: [spec_float] at
    precision 53 and maximal exponent 1024, with its operations rounding to
    nearest, ties to even. *)
Module PyFloat.

Definition prec : Z := 53.
Definition emax : Z := 1024.

Abbreviation float := spec_float (only parsing).

(** [x <= y] and [x < y]; a comparison with nan is false. *)
Definition fle (x y : float) : bool := SFleb x y.
Definition flt (x y : float) : bool := SFltb x y.

Definition fmul (x y : float) : float := SFmul prec emax x y.

(** The float of an integer literal. *)
Definition of_Z (n : Z) : float := binary_normalize prec emax n 0 false.

(** [max(a, b)] of two floats: the first one unless the second is greater. *)
Definition fmax (a b : float) : float := if flt a b then b else a.

(** The float nearest to [(-1)^neg * m * 10^e]. *)
Definition of_decimal (neg : bool) (m : N) (e : Z) : float :=
  match m with
  | N0 => S754_zero neg
  | Npos p =>
      if (0 <=? e)%Z
      then binary_normalize prec emax (cond_Zopp neg (Zpos p * 10 ^ e)) 0 neg
      else SFdiv prec emax (S754_finite neg p 0)
                           (S754_finite false (Z.to_pos (10 ^ (- e))) 0)
  end.

(** The value of a string of decimal digits. *)
Fixpoint digits_value (acc : N) (s : string) : N :=
  match s with
  | "" => acc
  | String c s' => digits_value (10 * acc + (code c - 48))%N s'
  end.

(** White space for [float()]: the ASCII white space of C, and the other
    white space of [str], which is first turned into a blank; U+001C to
    U+001F are ASCII and are not white space of C. *)
Definition float_space (c : ascii) : bool :=
  in_range 9 13 c || (code c =? 32)%N || (code c =? 133)%N || (code c =? 160)%N.

Fixpoint lstrip_float (s : string) : string :=
  match s with
  | String c s' => if float_space c then lstrip_float s' else s
  | "" => ""
  end.

Fixpoint rstrip_float (s : string) : string :=
  match s with
  | "" => ""
  | String c s' =>
      match rstrip_float s' with
      | "" => if float_space c then "" else String c ""
      | r => String c r
      end
  end.

(** An underscore is allowed between two digits only; the underscores are
    removed.  [prev] is the character before [s]. *)
Fixpoint drop_underscores (prev : ascii) (s : string) : option string :=
  match s with
  | "" => if Ascii.eqb prev "_" then None else Some ""
  | String c s' =>
      if Ascii.eqb c "_" then
        if isdigit prev then drop_underscores c s' else None
      else if Ascii.eqb prev "_" && negb (isdigit c) then None
      else option_map (String c) (drop_underscores c s')
  end.

(** An optional sign: whether it is a minus, and the rest. *)
Definition parse_sign (s : string) : bool * string :=
  match s with
  | String "-"%char r => (true, r)
  | String "+"%char r => (false, r)
  | _ => (false, s)
  end.

(** [digits [. digits] [(e|E) [sign] digits]] with a digit before the
    exponent, the whole of [s]: the digits as a number and the power of
    ten that goes with them. *)
Definition parse_decimal (s : string) : option (N * Z) :=
  let '(d1, r1) := span_digits s in
  let '(d2, r2) := match r1 with
                   | String "."%char r => span_digits r
                   | _ => ("", r1)
                   end in
  match d1 +:+ d2 with
  | "" => None
  | ds =>
      let frac := Z.of_nat (String.length d2) in
      match r2 with
      | "" => Some (digits_value 0 ds, (- frac)%Z)
      | String c r3 =>
          if Ascii.eqb c "e" || Ascii.eqb c "E" then
            let '(eneg, r4) := parse_sign r3 in
            let '(d3, r5) := span_digits r4 in
            match d3, r5 with
            | String _ _, "" =>
                Some (digits_value 0 ds,
                      (cond_Zopp eneg (Z.of_N (digits_value 0 d3)) - frac)%Z)
            | _, _ => None
            end
          else None
      end
  end.

(** [float(s)] for a [str]; [None] is [ValueError]. *)
Definition float_of_string (s : string) : option float :=
  match drop_underscores "000"%char s with
  | None => None
  | Some s1 =>
      let s2 := rstrip_float (lstrip_float s1) in
      let '(neg, body) := parse_sign s2 in
      match parse_decimal body with
      | Some (m, e) => Some (of_decimal neg m e)
      | None =>
          let w := lower body in
          if String.eqb w "inf" || String.eqb w "infinity" then Some (S754_infinity neg)
          else if String.eqb w "nan" then Some S754_nan
          else None
      end
  end.

End PyFloat.

(* ===================================================================== *)
(** * Exceptions *)
(* ===================================================================== *)

(** The result of a call that may raise. *)
Inductive outcome (A : Type) : Type :=
| Returned (a : A)
| Raised.

Arguments Returned {A} a.
Arguments Raised {A}.

#[global] Instance outcome_ret : MRet outcome := fun A a => Returned a.

#[global] Instance outcome_bind : MBind outcome := fun A B f m =>
  match m with
  | Returned a => f a
  | Raised => Raised
  end.

(** A library call that raises when it has no result. *)
Definition or_raise {A : Type} (o : option A) : outcome A :=
  match o with
  | Some a => Returned a
  | None => Raised
  end.

(* ===================================================================== *)
(** * extractors/base.py: the retrying fetcher *)
(* ===================================================================== *)

Module Fetcher.

(** A response of [requests]: reading [content] of a streamed response may
    raise, which is [None]. *)
Record response : Type := {
  status_code : Z;
  content : option string
}.

(** What the fetcher meets outside the program.  [n] counts the strategies
    of one call from 0. *)
Record environment : Type := {
  (** [urlparse(url)]: the scheme and the netloc, [None] for [ValueError]. *)
  urlparse : string -> option (string * string);
  (** [downloader.get(url, stream=True, timeout=20)] under the session's
      headers; [None] when the request raises. *)
  http_get : nat -> string -> gmap string string -> option response;
  (** [open(save_path, 'wb')], [f.write(body)] and [os.path.getsize]: the
      size on disk after the write; [None] when one of them raises. *)
  size_after_write : nat -> string -> string -> option N
}.

(** The [requests.Session] of the downloader: its headers, and the GET
    requests it has sent, each with the Referer it carried (the newest
    first). *)
Record session : Type := {
  headers : gmap string string;
  sent : list (string * option string)
}.

(** [self.downloader.headers.update(h)] *)
Definition headers_update (h : gmap string string) (s : session) : session :=
  {| headers := h ∪ headers s; sent := sent s |}.

Definition record_get (url : string) (s : session) : session :=
  {| headers := headers s; sent := (url, headers s !! "Referer") :: sent s |}.

(** [_sanitize_url] *)
Definition _sanitize_url (url : string) : string := strip url.

(** The three header strategies, in the order of the list of the source. *)
Definition strategies (source_chapter_url : option string) (root_domain : string)
  : list (gmap string string) :=
  [ {[ "Referer" := match source_chapter_url with
                    | Some "" | None => ""
                    | Some u => u
                    end ]};
    {[ "Referer" := "" ]};
    {[ "Referer" := root_domain ]} ].

(** The body of the loop after the headers are set: whether it reaches
    [return True].  Every other path (an exception, a status other than
    200, an empty body, an empty file) goes on with the loop. *)
Definition attempt (env : environment) (n : nat) (clean_url save_path : string)
  (hdrs : gmap string string) : bool :=
  match http_get env n clean_url hdrs with
  | None => false
  | Some r =>
      if (status_code r =? 200)%Z then
        match content r with
        | None => false
        | Some body =>
            if (String.length body =? 0)%nat then false
            else match size_after_write env n save_path body with
                 | Some size => (0 <? size)%N
                 | None => false
                 end
        end
      else false
  end.

(** [for headers in strategies: ...] and the [return False] after it. *)
Fixpoint try_strategies (env : environment) (clean_url save_path : string)
  (todo : list (gmap string string)) (n : nat) (s : session) : bool * session :=
  match todo with
  | [] => (false, s)
  | h :: rest =>
      let s1 := record_get clean_url (headers_update h s) in
      if attempt env n clean_url save_path (headers s1) then (true, s1)
      else try_strategies env clean_url save_path rest (S n) s1
  end.

(** [BaseExtractor.download_image] *)
Definition download_image (env : environment) (s : session)
  (url save_path : string) (source_chapter_url : option string)
  : outcome bool * session :=
  let clean_url := _sanitize_url url in
  match urlparse env clean_url with
  | None => (Raised, s)
  | Some (scheme, netloc) =>
      let root_domain := scheme +:+ "://" +:+ netloc +:+ "/" in
      let '(b, s') := try_strategies env clean_url save_path
                        (strategies source_chapter_url root_domain) 0 s in
      (Returned b, s')
  end.

(** The Referer headers of the requests sent since [before], the oldest
    first. *)
Definition referers_since (before after : session) : list (option string) :=
  rev (map snd (take (length (sent after) - length (sent before)) (sent after))).

End Fetcher.

(* ===================================================================== *)
(** * Sorting *)
(* ===================================================================== *)

(** A stable sort by insertion: [x] goes before the first element it is
    below.  Python's [sorted] and [list.sort] are stable, and any stable
    sort returns the same list. *)
Fixpoint insert_by {A : Type} (le : A -> A -> bool) (x : A) (l : list A) : list A :=
  match l with
  | [] => [x]
  | y :: l' => if le x y then x :: y :: l' else y :: insert_by le x l'
  end.

Fixpoint sort_by {A : Type} (le : A -> A -> bool) (l : list A) : list A :=
  match l with
  | [] => []
  | x :: l' => insert_by le x (sort_by le l')
  end.

(** [sorted(names)] for a list of [str]. *)
Definition sorted (names : list string) : list string := sort_by str_le names.

(* ===================================================================== *)
(** * utils/metadata.py: the descriptor, and utils/archive.py: the packager *)
(* ===================================================================== *)

Module Archive.

(** The bytes of a file. *)
Abbreviation data := string (only parsing).

(** The files of one directory, as [os.scandir] lists them: the order is
    the file system's, not the names'. *)
Abbreviation listing := (list (string * data)) (only parsing).

(** A directory: its files and its subdirectories, both in listing order. *)
#[warnings="-register-all"]
Inductive tree : Type :=
| Dir (files : listing) (subdirs : list (string * tree)).

Definition read_file (name : string) (files : listing) : option data :=
  snd <$> find (fun p => String.eqb (fst p) name) files.

(** Writing a file replaces the one of that name or adds a new one. *)
Fixpoint write_file (name : string) (d : data) (files : listing) : listing :=
  match files with
  | [] => [(name, d)]
  | (n, d0) :: rest =>
      if String.eqb n name then (n, d) :: rest
      else (n, d0) :: write_file name d rest
  end.

Definition remove_file (name : string) (files : listing) : listing :=
  List.filter (fun p => negb (String.eqb (fst p) name)) files.

(** [os.path.join(root, file)] relative to the source folder, which is
    also [os.path.relpath(file_path, start=source_folder)]. *)
Definition rel_join (rel name : string) : string :=
  match rel with
  | "" => name
  | _ => rel +:+ "/" +:+ name
  end.

(** [os.walk(source_folder)], top down: each directory with its files, a
    directory before its subdirectories, the subdirectories in listing
    order.  The directory is named by its path from the source folder. *)
Fixpoint walk (rel : string) (t : tree) : list (string * listing) :=
  match t with
  | Dir files subdirs =>
      (rel, files) ::
      flat_map (fun p => walk (rel_join rel (fst p)) (snd p)) subdirs
  end.

(** ** The metadata descriptor *)

(** A metadata [dict]; the values are what [str(val)] gives. *)
Abbreviation metadata := (gmap string string) (only parsing).

Definition dquote : string := String (ascii_of_nat 34) "".
Definition newline : string := String (ascii_of_nat 10) "".

(** [clean] of [generate_comic_info_xml] *)
Definition clean (val : string) : string :=
  replace ">" "&gt;" (replace "<" "&lt;" (replace "&" "&amp;" val)).

Definition xml_field (tag value : string) : string :=
  "  <" +:+ tag +:+ ">" +:+ value +:+ "</" +:+ tag +:+ ">" +:+ newline.

(** [generate_comic_info_xml] *)
Definition generate_comic_info_xml (m : metadata) : string :=
  let get k := clean (default "" (m !! k)) in
  "<?xml version=" +:+ dquote +:+ "1.0" +:+ dquote +:+ "?>" +:+ newline +:+
  "<ComicInfo xmlns:xsd=" +:+ dquote +:+ "http://www.w3.org/2001/XMLSchema" +:+ dquote +:+
  " xmlns:xsi=" +:+ dquote +:+ "http://www.w3.org/2001/XMLSchema-instance" +:+ dquote +:+
  ">" +:+ newline +:+
  xml_field "Series" (get "series") +:+
  xml_field "Number" (get "number") +:+
  xml_field "Title" (get "title") +:+
  xml_field "Web" (get "web") +:+
  xml_field "Writer" (get "writer") +:+
  xml_field "Penciller" (get "artist") +:+
  xml_field "Genre" (get "genres") +:+
  xml_field "Summary" (get "summary") +:+
  xml_field "Year" (get "year") +:+
  "</ComicInfo>".

(** ** CBZ *)

(** A zip archive: its entries, name and content, in the order they were
    written, which is the order they are read back in. *)
Abbreviation archive := (list (string * data)) (only parsing).

(** Where [output_path] lies. *)
Inductive target : Type :=
(** not under the source folder; whether [zipfile.ZipFile(output_path, 'w')]
    can open it *)
| Outside (writable : bool)
(** under the source folder: the file [name] of the directory that the
    names [dirs] lead to *)
| Inside (dirs : list string) (name : string).

(** The zip format, and the file of an archive that is being written. *)
Record zipper : Type := {
  (** the bytes of the file of a closed archive *)
  zip_bytes : archive -> data;
  (** what [cbz.write] reads from the file of the archive itself when
      these entries have been written to it, [None] when the read raises;
      the read is taken to end. *)
  self_read : archive -> option data;
  (** the bytes of the file when the [with] block was left by an
      exception *)
  zip_wreck : archive -> data
}.

Definition has_name {A : Type} (name : string) (l : list (string * A)) : bool :=
  existsb (fun p => String.eqb (fst p) name) l.

(** The subdirectory [name] replaced by what [f] makes of it. *)
Fixpoint update_subdir (name : string) (f : tree -> option tree)
  (subdirs : list (string * tree)) : option (list (string * tree)) :=
  match subdirs with
  | [] => None
  | (n, t) :: rest =>
      if String.eqb n name then t' ← f t; Some ((n, t') :: rest)
      else rest' ← update_subdir name f rest; Some ((n, t) :: rest')
  end.

(** [open(path, 'wb')] and a write, for the file [name] of the directory
    that [dirs] lead to: [None] when a name of [dirs] is no directory or
    [name] is one. *)
Fixpoint put_file (dirs : list string) (name : string) (d : data) (t : tree)
  : option tree :=
  match t, dirs with
  | Dir files subdirs, [] =>
      if has_name name subdirs then None
      else Some (Dir (write_file name d files) subdirs)
  | Dir files subdirs, dir :: rest =>
      subdirs' ← update_subdir dir (put_file rest name d) subdirs;
      Some (Dir files subdirs')
  end.

(** The walk of [create_cbz_archive]: [walk], and with each directory the
    name that the archive has there when it is the directory of the
    archive. *)
Fixpoint cbz_walk (rel : string) (self : option (list string * string)) (t : tree)
  : list (string * listing * option string) :=
  match t with
  | Dir files subdirs =>
      (rel, files, match self with Some ([], name) => Some name | _ => None end) ::
      flat_map (fun p =>
                  cbz_walk (rel_join rel (fst p))
                    (match self with
                     | Some (dir :: rest, name) =>
                         if String.eqb dir (fst p) then Some (rest, name) else None
                     | _ => None
                     end)
                    (snd p))
               subdirs
  end.

(** [for file in sorted(files): cbz.write(file_path, arcname)] for one
    directory of the walk, after the entries [written]: whether the loop
    ended, and the entries then. *)
Fixpoint cbz_write_files (z : zipper) (rel : string) (files : listing)
  (self : option string) (names : list string) (written : archive)
  : bool * archive :=
  match names with
  | [] => (true, written)
  | file :: rest =>
      let content :=
        if bool_decide (self = Some file) then self_read z written
        else read_file file files in
      match content with
      | Some d => cbz_write_files z rel files self rest (written ++ [(rel_join rel file, d)])
      | None => (false, written)
      end
  end.

Fixpoint cbz_write_dirs (z : zipper) (dirs : list (string * listing * option string))
  (written : archive) : bool * archive :=
  match dirs with
  | [] => (true, written)
  | (rel, files, self) :: rest =>
      match cbz_write_files z rel files self (sorted (map fst files)) written with
      | (true, written') => cbz_write_dirs z rest written'
      | stopped => stopped
      end
  end.

(** The block under [with zipfile.ZipFile(...) as cbz], for the source
    folder as it is listed.  [if metadata:] holds for a [dict] that is
    not empty. *)
Definition cbz_body (z : zipper) (listed : tree) (self : option (list string * string))
  (meta : option metadata) : bool * archive :=
  match cbz_write_dirs z (cbz_walk "" self listed) [] with
  | (true, images) =>
      match meta with
      | Some m =>
          if decide (m = ∅) then (true, images)
          else (true, images ++ [("ComicInfo.xml", generate_comic_info_xml m)])
      | None => (true, images)
      end
  | stopped => stopped
  end.

(** The bytes of the file of the archive once the [with] block is left. *)
Definition cbz_file (z : zipper) (ok : bool) (a : archive) : data :=
  if ok then zip_bytes z a else zip_wreck z a.

(** [create_cbz_archive]: the boolean it returns, the source folder
    afterwards, and the entries written to the archive at [output_path].
    [ZipFile] makes the file of the archive, empty, before [os.walk] lists
    the source folder: an archive under the source folder is listed there
    and packed into itself. *)
Definition create_cbz_archive (z : zipper) (source : tree) (output_path : target)
  (meta : option metadata) : bool * tree * archive :=
  match output_path with
  | Outside false => (false, source, [])
  | Outside true =>
      let '(ok, a) := cbz_body z source None meta in (ok, source, a)
  | Inside dirs name =>
      match put_file dirs name "" source with
      | None => (false, source, [])
      | Some listed =>
          let '(ok, a) := cbz_body z listed (Some (dirs, name)) meta in
          (ok, default listed (put_file dirs name (cbz_file z ok a) listed), a)
      end
  end.

(** ** PDF *)

(** Pillow and img2pdf. *)
Record codecs : Type := {
  (** [Image.open(path).convert("RGB")]: the picture, [None] when the file
      is not an image Pillow reads. *)
  open_rgb : data -> option data;
  (** [im.save(new_path, "JPEG")]: the bytes of the JPEG file. *)
  save_jpeg : data -> data;
  (** whether img2pdf takes the file as an image. *)
  img2pdf_accepts : data -> bool
}.

(** A PDF document: the image on each page, in order. *)
Abbreviation pdf := (list data) (only parsing).

(** [file.lower().endswith(('.jpg', '.jpeg', '.png', '.webp'))] *)
Definition accepted_ext (file : string) : bool :=
  let f := lower file in
  endswith ".jpg" f || endswith ".jpeg" f || endswith ".png" f || endswith ".webp" f.

Definition is_webp (file : string) : bool := endswith ".webp" (lower file).

Fixpoint count_dots (s : string) : nat :=
  match s with
  | String "."%char s' => S (count_dots s')
  | _ => 0
  end.

(** The position of the last dot of [s], if it has one. *)
Fixpoint last_dot (s : string) : option nat :=
  match s with
  | "" => None
  | String c s' =>
      match last_dot s' with
      | Some i => Some (S i)
      | None => if Ascii.eqb c "." then Some 0 else None
      end
  end.

(** [os.path.splitext(name)[0]] for a file name: the name up to its last
    dot, the dots at its start not counting. *)
Definition splitext_root (name : string) : string :=
  let k := count_dots name in
  match last_dot (String.substring k (String.length name - k) name) with
  | Some i => String.substring 0 (k + i) name
  | None => name
  end.

(** The loop over the sorted files of one directory: the directory and the
    list [images] as they change.  [images] holds the names here; [pdf_dir]
    joins them with the path of the directory. *)
Fixpoint pdf_scan (cd : codecs) (names : list string)
  (files : listing) (images : list string) : listing * list string :=
  match names with
  | [] => (files, images)
  | file :: rest =>
      if accepted_ext file then
        if is_webp file then
          match read_file file files ≫= open_rgb cd with
          | Some im =>
              let new_name := splitext_root file +:+ ".jpg" in
              let files1 := write_file new_name (save_jpeg cd im) files in
              pdf_scan cd rest (remove_file file files1) (images ++ [new_name])
          | None => pdf_scan cd rest files images
          end
        else pdf_scan cd rest files (images ++ [file])
      else pdf_scan cd rest files images
  end.

(** One directory of the walk: the directory afterwards, and the images it
    adds, each with the file img2pdf will find at that path. *)
Definition pdf_dir (cd : codecs) (rel : string) (files : listing)
  : listing * list (string * option data) :=
  let '(files', images) := pdf_scan cd (sorted (map fst files)) files [] in
  (files', map (fun name => (rel_join rel name, read_file name files')) images).

(** The walk of [create_pdf_document]: the tree afterwards and [images]. *)
Fixpoint pdf_walk (cd : codecs) (rel : string) (t : tree)
  : tree * list (string * option data) :=
  match t with
  | Dir files subdirs =>
      let '(files', here) := pdf_dir cd rel files in
      let below := map (fun p => (fst p, pdf_walk cd (rel_join rel (fst p)) (snd p))) subdirs in
      (Dir files' (map (fun q => (fst q, fst (snd q))) below),
       here ++ flat_map (fun q => snd (snd q)) below)
  end.

(** [img2pdf.convert(images)]: one page for each image, or an exception. *)
Fixpoint img2pdf_convert (cd : codecs) (images : list (string * option data))
  : outcome pdf :=
  match images with
  | [] => mret []
  | (_, file) :: rest =>
      d ← or_raise file;
      if img2pdf_accepts cd d then
        pages ← img2pdf_convert cd rest; mret (d :: pages)
      else Raised
  end.

(** [create_pdf_document]: the boolean it returns, the source folder
    afterwards, and the document at [output_path] when it returns [True]. *)
Definition create_pdf_document (cd : codecs) (source : tree)
  : bool * tree * option pdf :=
  let '(source', images) := pdf_walk cd "" source in
  match images with
  | [] => (false, source', None)
  | _ =>
      match img2pdf_convert cd images with
      | Returned doc => (true, source', Some doc)
      | Raised => (false, source', None)
      end
  end.

(** Whether [create_pdf_document] comes to [open(output_path, "wb")]: it
    does when [images] is not empty.  The file is there, empty, before
    [img2pdf.convert] runs. *)
Definition pdf_opens (cd : codecs) (source : tree) : bool :=
  match snd (pdf_walk cd "" source) with
  | [] => false
  | _ => true
  end.

End Archive.

(* ===================================================================== *)
(** * core.py: the resolver *)
(* ===================================================================== *)

Module Resolver.

Import PyFloat.

(** An entry of [sites.json]; a key the entry does not have is [None]. *)
Record site : Type := {
  name : option string;
  type : option string;
  test_path : option string;
  base_domain : option string;
  url_pattern : option string;
  url : option string
}.

(** [self.sites_config]: a [dict], whose items come in insertion order. *)
Abbreviation sites_config := (list (string * site)) (only parsing).

(** [config[key]] *)
Definition lookup_site (config : sites_config) (key : string) : option site :=
  snd <$> find (fun p => String.eqb (fst p) key) config.

(** [key in config] *)
Definition has_key (config : sites_config) (key : string) : bool :=
  bool_decide (is_Some (lookup_site config key)).

(** What the resolver asks of the outside, with the type of the answer. *)
Inductive request : Type -> Type :=
(** [SequenceMatcher(None, a, b).ratio()] *)
| Ratio (a b : string) : request float
(** [MirrorHunter(...).find_active_mirror(base_domain, test_path=...)] *)
| FindMirror (domain path : string) : request (option string)
(** [IntPrompt.ask(...)] with the choices [0..n]. *)
| Ask (n : nat) : request nat.

(** A computation that makes requests: a free monad. *)
Inductive prog (A : Type) : Type :=
| Ret (a : A)
| Vis {X : Type} (e : request X) (k : X -> prog A).

Arguments Ret {A} a.
Arguments Vis {A X} e k.

Fixpoint prog_bind {A B : Type} (m : prog A) (f : A -> prog B) : prog B :=
  match m with
  | Ret a => f a
  | Vis e k => Vis e (fun x => prog_bind (k x) f)
  end.

#[global] Instance prog_ret : MRet prog := fun A a => Ret a.
#[global] Instance prog_mbind : MBind prog := fun A B f m => prog_bind m f.

Definition ask {X : Type} (e : request X) : prog X := Vis e Ret.

(** The computation never makes a request that [bad] holds of, whatever
    the answers to its requests. *)
Fixpoint never {A : Type} (bad : forall X, request X -> bool) (p : prog A) : Prop :=
  match p with
  | Ret _ => True
  | Vis e k => bad _ e = false /\ forall x, never bad (k x)
  end.

Definition is_ratio {X : Type} (e : request X) : bool :=
  match e with Ratio _ _ => true | _ => false end.
Definition is_ask {X : Type} (e : request X) : bool :=
  match e with Ask _ => true | _ => false end.
Definition is_find_mirror {X : Type} (e : request X) : bool :=
  match e with FindMirror _ _ => true | _ => false end.
Definition is_any {X : Type} (e : request X) : bool := true.

(** The outside, as functions that answer the requests. *)
Record oracle : Type := {
  ratio : string -> string -> float;
  find_active_mirror : string -> string -> option string;
  prompt : nat -> nat
}.

Definition answer (o : oracle) {X : Type} (e : request X) : X :=
  match e in request T return T with
  | Ratio a b => ratio o a b
  | FindMirror d p => find_active_mirror o d p
  | Ask n => prompt o n
  end.

(** A request made, without its answer. *)
Inductive call : Type :=
| CRatio (a b : string)
| CFindMirror (domain path : string)
| CAsk (n : nat).

Definition call_of {X : Type} (e : request X) : call :=
  match e with
  | Ratio a b => CRatio a b
  | FindMirror d p => CFindMirror d p
  | Ask n => CAsk n
  end.

(** Running a computation against an oracle: its result and the requests
    it made, in order. *)
Fixpoint run {A : Type} (o : oracle) (p : prog A) : A * list call :=
  match p with
  | Ret a => (a, [])
  | Vis e k => let '(a, calls) := run o (k (answer o e)) in (a, call_of e :: calls)
  end.

(** What the resolver returns: a [str], [None], or an exception. *)
Abbreviation resolved := (outcome (option string)) (only parsing).

Section Resolve.

(** [urllib.parse.unquote] *)
Variable unquote : string -> string.
(** Whether [from .discovery import MirrorHunter] succeeded. *)
Variable mirror_hunter : bool.
Variable config : sites_config.

(** [_finalize_target] *)
Definition _finalize_target (target_key : string) : prog resolved :=
  match lookup_site config target_key with
  | None => mret Raised
  | Some site_data =>
      let site_type := default "static" (type site_data) in
      if String.eqb site_type "dynamic" && mirror_hunter then
        let path := default "/" (test_path site_data) in
        match base_domain site_data with
        | None => mret Raised
        | Some domain =>
            active_mirror ← ask (FindMirror domain path);
            match active_mirror with
            | Some (String c m as mirror) =>
                match url_pattern site_data with
                | Some pattern => mret (Returned (Some (replace "{mirror}" mirror pattern)))
                | None => mret (Returned (Some mirror))
                end
            | _ => mret (Returned None)
            end
        end
      else
        match url site_data with
        | Some u => mret (Returned (Some u))
        | None => mret (Returned None)
        end
  end.

(** [max(ratio_key, ratio_name) * 100] *)
Definition score_of (ratio_key ratio_name : float) : float :=
  fmul (fmax ratio_key ratio_name) (of_Z 100).

(** The loop of the fuzzy search: [matches] grows at its end; a site kept
    without a ['name'] is a [KeyError]. *)
Fixpoint fuzzy_scan (clean_input : string) (items : sites_config)
  (matches : list (float * string * string))
  : prog (outcome (list (float * string * string))) :=
  match items with
  | [] => mret (Returned matches)
  | (key, data) :: rest =>
      let site_name := lower (default "" (name data)) in
      ratio_key ← ask (Ratio clean_input key);
      ratio_name ← ask (Ratio clean_input site_name);
      let score := score_of ratio_key ratio_name in
      if flt (of_Z 40) score then
        match name data with
        | Some n => fuzzy_scan clean_input rest (matches ++ [(score, key, n)])
        | None => mret Raised
        end
      else fuzzy_scan clean_input rest matches
  end.

(** [matches.sort(key=lambda x: x[0], reverse=True)]: by score, the
    greatest first, ties in their first order. *)
Definition sort_matches (matches : list (float * string * string))
  : list (float * string * string) :=
  sort_by (fun x y => negb (flt (fst (fst x)) (fst (fst y)))) matches.

(** [_resolve_target] *)
Definition _resolve_target (input_str : string) : prog resolved :=
  if startswith "http" input_str then mret (Returned (Some input_str))
  else
    let clean_input := lower (strip (unquote input_str)) in
    if has_key config clean_input then _finalize_target clean_input
    else
      scanned ← fuzzy_scan clean_input config [];
      match scanned with
      | Raised => mret Raised
      | Returned found =>
          match sort_matches found with
          | [] => mret (Returned (Some input_str))
          | ((top_score, top_key, top_name) :: _) as matches =>
              if fle (of_Z 80) top_score then _finalize_target top_key
              else
                let options := take 5 matches in
                selected_idx ← ask (Ask (length options));
                match selected_idx with
                | O => mret (Returned None)
                | S i =>
                    match options !! i with
                    | Some (_, selected_key, _) => _finalize_target selected_key
                    | None => mret Raised
                    end
                end
          end
      end.

(** The start of [_download_manga_async]: [url = await
    self._resolve_target(target)] and [if not url: return]. *)
Inductive start : Type :=
| Aborted
| Proceeds (url : string)
| Crashed.

Definition resolve_step (target : string) : prog start :=
  r ← _resolve_target target;
  match r with
  | Raised => mret Crashed
  | Returned None | Returned (Some "") => mret Aborted
  | Returned (Some u) => mret (Proceeds u)
  end.

End Resolve.

End Resolver.

(* ===================================================================== *)
(** * core.py: the orchestrator *)
(* ===================================================================== *)

Module Core.

Import PyFloat Archive.

(** A chapter as the extractor gives it: [{'title': ..., 'url': ...}]. *)
Record chapter : Type := {
  title : string;
  url : string
}.

(** ** The range filter *)

(** The loop of [_filter_chapters]; [float(match.group(1))] is in the [try]
    block like the rest. *)
Fixpoint filter_loop (start stop : float) (chapters filtered : list chapter)
  : outcome (list chapter) :=
  match chapters with
  | [] => mret filtered
  | chap :: rest =>
      match search_number (title chap) with
      | Some group1 =>
          num ← or_raise (float_of_string group1);
          if fle start num && fle num stop
          then filter_loop start stop rest (filtered ++ [chap])
          else filter_loop start stop rest filtered
      | None => filter_loop start stop rest filtered
      end
  end.

(** The test of the loop for one chapter: whether it is appended. *)
Definition within (start stop : float) (chap : chapter) : bool :=
  match search_number (title chap) ≫= float_of_string with
  | Some num => fle start num && fle num stop
  | None => false
  end.

(** The [try] block of [_filter_chapters]. *)
Definition filter_body (chapters : list chapter) (range_str : string)
  : outcome (list chapter) :=
  let start_end := split "-" range_str in
  start ← or_raise (start_end !! 0%nat ≫= float_of_string);
  stop ← (if (1 <? length start_end)%nat
          then or_raise (start_end !! 1%nat ≫= float_of_string)
          else mret start);
  filter_loop start stop chapters [].

(** [_filter_chapters]: [if not range_str] holds of [None] and of the empty
    string; the bare [except] returns the chapters as they came. *)
Definition _filter_chapters (chapters : list chapter) (range_str : option string)
  : list chapter :=
  match range_str with
  | None | Some "" => chapters
  | Some r =>
      match filter_body chapters r with
      | Returned filtered => filtered
      | Raised => chapters
      end
  end.

(** ** The collaborators *)

(** What a page download does. *)
Inductive page_result : Type :=
| PageSaved (d : data)
| PageFailed
| PageRaised.

(** Modelled from the spec: the class [AsyncGenericMangaExtractor] of
    [extractors/common.py] is missing.  The Extractor capability has
    [getPages(chapterUrl) -> [pageURL]] and [downloadImage(url, path) -> bool];
    a download that succeeds has written the file at [path], one that fails
    has written none. *)
Record extractor : Type := {
  get_pages : string -> outcome (list string);
  fetch_page : string -> page_result
}.

(** [extractor.download_image(img_url, save_path)] on the chapter folder. *)
Definition download_image (ex : extractor) (img_url fname : string)
  (folder : listing) : outcome bool * listing :=
  match fetch_page ex img_url with
  | PageSaved d => (Returned true, write_file fname d folder)
  | PageFailed => (Returned false, folder)
  | PageRaised => (Raised, folder)
  end.

(** The number and the subtitle that [parse_chapter_metadata] extracts from
    the chapter title and the URL with its regular expressions; on a title
    and a URL that are strings it raises nothing. *)
Record title_parser : Type := {
  meta_number : string -> string -> string;
  meta_subtitle : string -> string
}.

(** The [dict] that [parse_chapter_metadata] returns. *)
Definition parse_chapter_metadata (tp : title_parser)
  (chapter_title series_title chapter_url : string) : metadata :=
  <["series" := series_title]>
  (<["number" := meta_number tp chapter_title chapter_url]>
  (<["title" := meta_subtitle tp chapter_title]>
  (<["web" := chapter_url]>
  (<["original_title" := chapter_title]> ∅)))).

(** Modelled from the spec: the class [YomiDB] of [database.py] is missing.
    The HistoryStore is a set of completed (series, chapter) pairs with
    [isCompleted] and [markCompleted]. *)
Abbreviation history_store := (gset (string * string)) (only parsing).

Definition is_completed (db : history_store) (series chap : string) : bool :=
  bool_decide ((series, chap) ∈ db).

Definition mark_completed (db : history_store) (series chap : string) : history_store :=
  {[ (series, chap) ]} ∪ db.

(** The folder of the series, which is the directory at [parent_path], and
    the history.  The folder of a chapter is a directory of the folder of
    the series, or that folder itself when the sanitized title is empty;
    a packaged chapter is a file of it.  A folder of the series that was
    removed is the empty directory here: [os.makedirs] makes it again for
    the next chapter, and nothing else looks at it. *)
Record world : Type := {
  series : tree;
  db : history_store
}.

(** Where [_download_single_chapter] raised inside its [try] block. *)
Inductive raise_site : Type :=
(** [extractor.get_pages] *)
| AtGetPages
(** [asyncio.gather] *)
| AtDownload
(** the line printed after [mark_completed] *)
| AtFinished.

(** The file system, the terminal and the event loop, where the run
    depends on them. *)
Record platform : Type := {
  (** whether [os.makedirs] can make a directory of that name *)
  mkdir_ok : string -> bool;
  (** whether [console.print] returns, for the line of a skipped chapter
      with that title: rich reads the title as markup and raises on a
      closing tag it cannot match *)
  print_skipping : string -> bool;
  (** the same for the line of a finished chapter, with the sanitized
      title, the number and the author text *)
  print_finished : string -> string -> string -> bool;
  (** the same for the line of the [except] branch, with the title and
      the place of the exception whose text it prints *)
  print_failed : string -> raise_site -> bool;
  (** whether the download of the page [idx] has ended, and written its
      file if it saves one, when [asyncio.gather] raises: the other
      downloads are not awaited, and one that has not ended by then is
      taken not to end *)
  lands : nat -> bool;
  zipfile : zipper;
  (** the bytes of the file of a document *)
  pdf_bytes : pdf -> data
}.

(** ** Paths and names *)

(** [os.path.join(a, b)] on POSIX. *)
Definition os_path_join (a b : string) : string :=
  if startswith "/" b then b
  else if String.eqb a "" || endswith "/" a then a +:+ b
  else a +:+ "/" +:+ b.

Fixpoint keep (f : ascii -> bool) (s : string) : string :=
  match s with
  | "" => ""
  | String c s' => if f c then String c (keep f s') else keep f s'
  end.

(** The title without the characters that are neither alphanumeric nor a
    blank, a hyphen or an underscore, then [strip()]. *)
Definition sanitize (t : string) : string :=
  strip (keep (fun c => isalnum c || Ascii.eqb c " " || Ascii.eqb c "-" || Ascii.eqb c "_") t).

Fixpoint zeros (n : nat) : string :=
  match n with
  | O => ""
  | S n' => String "0" (zeros n')
  end.

(** [f"{n:03d}"] *)
Definition pad3 (n : nat) : string :=
  let s := NilZero.string_of_uint (Nat.to_uint n) in
  zeros (3 - String.length s) +:+ s.

(** The extension of a page, from its URL. *)
Definition page_ext (img_url : string) : string :=
  if contains ".png" (lower img_url) then "png"
  else if contains ".webp" (lower img_url) then "webp"
  else "jpg".

(** The folder of a chapter under the folder of the series, and the
    packaged file beside it. *)
Definition chapter_folder (parent_path : string) (chap : chapter) : string :=
  os_path_join parent_path (sanitize (title chap)).

Definition packaged_path (parent_path : string) (chap : chapter) (ext : string) : string :=
  os_path_join parent_path (sanitize (title chap) +:+ ext).

(** ** The folder of the series *)

Definition files_of (t : tree) : listing := let '(Dir files _) := t in files.

Definition subdirs_of (t : tree) : list (string * tree) :=
  let '(Dir _ subdirs) := t in subdirs.

Definition read_subdir (name : string) (subdirs : list (string * tree)) : option tree :=
  snd <$> find (fun p => String.eqb (fst p) name) subdirs.

(** The directory [name] replaced, or added at the end of the listing. *)
Fixpoint write_subdir (name : string) (t : tree) (subdirs : list (string * tree))
  : list (string * tree) :=
  match subdirs with
  | [] => [(name, t)]
  | (n, t0) :: rest =>
      if String.eqb n name then (n, t) :: rest
      else (n, t0) :: write_subdir name t rest
  end.

(** The directory that [os.path.join(parent_path, name)] names; with the
    empty name the path is [parent_path] and a slash, the folder of the
    series itself. *)
Definition folder_at (name : string) (w : world) : option tree :=
  if String.eqb name "" then Some (series w)
  else read_subdir name (subdirs_of (series w)).

Definition set_folder (name : string) (t : tree) (w : world) : world :=
  {| series := if String.eqb name "" then t
               else Dir (files_of (series w)) (write_subdir name t (subdirs_of (series w)));
     db := db w |}.

(** [shutil.rmtree(os.path.join(parent_path, name))] *)
Definition rmtree (name : string) (w : world) : world :=
  {| series := if String.eqb name "" then Dir [] []
               else Dir (files_of (series w))
                        (List.filter (fun p => negb (String.eqb (fst p) name))
                                     (subdirs_of (series w)));
     db := db w |}.

(** A file written at [os.path.join(parent_path, name)]. *)
Definition write_packaged (name : string) (d : data) (w : world) : world :=
  {| series := Dir (write_file name d (files_of (series w))) (subdirs_of (series w));
     db := db w |}.

(** Whether [open(os.path.join(parent_path, name), 'wb')] raises because a
    directory has that name. *)
Definition blocked (name : string) (w : world) : bool :=
  has_name name (subdirs_of (series w)).

Definition is_packaged (name : string) : bool :=
  endswith ".cbz" name || endswith ".pdf" name.

(** The packaged chapters: the files of the folder of the series whose
    name ends in [.cbz] or [.pdf]. *)
Definition outputs (w : world) : listing :=
  List.filter (fun p => is_packaged (fst p)) (files_of (series w)).

Definition mark (series_title chap : string) (w : world) : world :=
  {| series := series w; db := mark_completed (db w) series_title chap |}.

(** [os.makedirs(os.path.join(parent_path, name), exist_ok=True)]: the
    directory, and the world with it.  It raises when a file has that
    name, and when the directory is not there and cannot be made. *)
Definition makedirs (pf : platform) (name : string) (w : world) : outcome (tree * world) :=
  match folder_at name w with
  | Some t => Returned (t, w)
  | None =>
      if has_name name (files_of (series w)) then Raised
      else if mkdir_ok pf name then Returned (Dir [] [], set_folder name (Dir [] []) w)
      else Raised
  end.

(** [full_meta = {**base_meta}] and [full_meta.update(rich_meta)] when
    there is rich metadata: its values win. *)
Definition merge_metadata (base_meta : metadata) (rich_meta : option metadata) : metadata :=
  match rich_meta with
  | Some rich => rich ∪ base_meta
  | None => base_meta
  end.

(** ** One chapter *)

Definition raises (ex : extractor) (img_url : string) : bool :=
  match fetch_page ex img_url with
  | PageRaised => true
  | _ => false
  end.

(** The downloads of the pages, page [idx] to the file [f"{idx+1:03d}.{ext}"],
    each run to its end.  Each writes a file of its own, so they are run
    here in the order of the pages. *)
Fixpoint downloads (ex : extractor) (idx : nat) (pages : list string)
  (folder : listing) : outcome (list bool) * listing :=
  match pages with
  | [] => (mret [], folder)
  | img_url :: rest =>
      let fname := pad3 (idx + 1) +:+ "." +:+ page_ext img_url in
      let '(r, folder1) := download_image ex img_url fname folder in
      let '(rs, folder2) := downloads ex (S idx) rest folder1 in
      (b ← r; bs ← rs; mret (b :: bs), folder2)
  end.

(** The chapter folder when [asyncio.gather] raises: there are the files
    of the downloads that had ended. *)
Fixpoint landed (pf : platform) (ex : extractor) (idx : nat) (pages : list string)
  (folder : listing) : listing :=
  match pages with
  | [] => folder
  | img_url :: rest =>
      let fname := pad3 (idx + 1) +:+ "." +:+ page_ext img_url in
      landed pf ex (S idx) rest
        (if lands pf idx then snd (download_image ex img_url fname folder) else folder)
  end.

(** [await asyncio.gather] of the tasks: when no download raises, the results
    of all of them; when one does, its exception at once, the others
    still running. *)
Definition gather (pf : platform) (ex : extractor) (pages : list string)
  (folder : listing) : outcome (list bool) * listing :=
  if existsb (raises ex) pages then (Raised, landed pf ex 0 pages folder)
  else downloads ex 0 pages folder.

(** How far the call of [_download_single_chapter] came. *)
Inductive chapter_end : Type :=
(** [os.makedirs] raised, before the [try] block *)
| NotStarted
(** [return] at the empty page list *)
| NoPages
(** the [except] branch, [mark_completed] not called *)
| Failed
(** the end of the [try] block with [success] false *)
| NotPackaged
(** [mark_completed] was called *)
| Completed.

(** The call of [_download_single_chapter]: how far it came, whether it
    raised to its caller, and the world it leaves. *)
Record chapter_run : Type := {
  ended : chapter_end;
  propagated : bool;
  after : world
}.

Section Chapter.

Variable pf : platform.
(** [self.format] *)
Variable format : string.
Variable cd : codecs.
Variable tp : title_parser.
Variable ex : extractor.

(** The [except] branch: it prints the title and the exception, and an
    exception of that line leaves the call. *)
Definition handler (chap : chapter) (site : raise_site) (e : chapter_end) (w : world)
  : chapter_run :=
  {| ended := e; propagated := negb (print_failed pf (title chap) site); after := w |}.

(** [if success:] with [success] true. *)
Definition finish (chap : chapter) (manga_title : string) (full_meta : metadata)
  (w : world) : chapter_run :=
  let w' := mark manga_title (title chap) w in
  let author_txt :=
    match full_meta !! "writer" with
    | Some "" | None => ""
    | Some writer => " | " +:+ writer
    end in
  if print_finished pf (sanitize (title chap)) (default "" (full_meta !! "number")) author_txt
  then {| ended := Completed; propagated := false; after := w' |}
  else handler chap AtFinished Completed w'.

(** [_download_single_chapter] *)
Definition _download_single_chapter (chap : chapter) (parent_path manga_title : string)
  (rich_meta : option metadata) (w : world) : chapter_run :=
  let base_meta := parse_chapter_metadata tp (title chap) manga_title (url chap) in
  let full_meta := merge_metadata base_meta rich_meta in
  let clean_title := sanitize (title chap) in
  match makedirs pf clean_title w with
  | Raised => {| ended := NotStarted; propagated := true; after := w |}
  | Returned (Dir files subdirs, w1) =>
      match get_pages ex (url chap) with
      | Raised => handler chap AtGetPages Failed w1
      | Returned [] => {| ended := NoPages; propagated := false; after := w1 |}
      | Returned pages =>
          let '(results, files') := gather pf ex pages files in
          let folder := Dir files' subdirs in
          let w2 := set_folder clean_title folder w1 in
          match results with
          | Raised => handler chap AtDownload Failed w2
          | Returned _ =>
              if String.eqb format "pdf" then
                let pdf_name := clean_title +:+ ".pdf" in
                let '(_, folder', doc) := create_pdf_document cd folder in
                let w3 := set_folder clean_title folder' w2 in
                if pdf_opens cd folder && negb (blocked pdf_name w3) then
                  match doc with
                  | Some d =>
                      finish chap manga_title full_meta
                        (rmtree clean_title (write_packaged pdf_name (pdf_bytes pf d) w3))
                  | None =>
                      {| ended := NotPackaged; propagated := false;
                         after := write_packaged pdf_name "" w3 |}
                  end
                else {| ended := NotPackaged; propagated := false; after := w3 |}
              else if String.eqb format "cbz" then
                let cbz_name := clean_title +:+ ".cbz" in
                let cbz_path :=
                  if String.eqb clean_title "" then Inside [] cbz_name
                  else Outside (negb (blocked cbz_name w2)) in
                let '(ok, folder', a) :=
                  create_cbz_archive (zipfile pf) folder cbz_path (Some full_meta) in
                let w3 := set_folder clean_title folder' w2 in
                let w4 :=
                  match cbz_path with
                  | Outside true => write_packaged cbz_name (cbz_file (zipfile pf) ok a) w3
                  | _ => w3
                  end in
                if ok then finish chap manga_title full_meta (rmtree clean_title w4)
                else {| ended := NotPackaged; propagated := false; after := w4 |}
              else finish chap manga_title full_meta w2
          end
      end
  end.

(** The loop over the chapters of [_download_manga_async]: how far each
    chapter came that the history does not have, whether the loop was
    left by an exception, and the world then. *)
Record run : Type := {
  ends : list (chapter * chapter_end);
  crashed : bool;
  final : world
}.

(** A chapter the history has is skipped, with a line on the terminal;
    an exception of that line or of [_download_single_chapter] ends the
    loop. *)
Fixpoint download_chapters (chapters : list chapter) (manga_path manga_title : string)
  (rich_meta : option metadata) (w : world) : run :=
  match chapters with
  | [] => {| ends := []; crashed := false; final := w |}
  | chap :: rest =>
      if is_completed (db w) manga_title (title chap) then
        if print_skipping pf (title chap)
        then download_chapters rest manga_path manga_title rich_meta w
        else {| ends := []; crashed := true; final := w |}
      else
        let r := _download_single_chapter chap manga_path manga_title rich_meta w in
        if propagated r
        then {| ends := [(chap, ended r)]; crashed := true; final := after r |}
        else
          let rs := download_chapters rest manga_path manga_title rich_meta (after r) in
          {| ends := (chap, ended r) :: ends rs; crashed := crashed rs; final := final rs |}
  end.

End Chapter.

End Core.

(* ===================================================================== *)
(** * The words of the specification *)
(* ===================================================================== *)

Module Spec.

Import PyFloat Core.

Fixpoint all_chars (f : ascii -> bool) (s : string) : bool :=
  match s with
  | "" => true
  | String c s' => f c && all_chars f s'
  end.

(** A non-empty run of decimal digits. *)
Definition digits (s : string) : Prop := s <> "" /\ all_chars isdigit s = true.

Definition no_digit (s : string) : Prop :=
  all_chars (fun c => negb (isdigit c)) s = true.

Definition starts_with_digit (s : string) : bool :=
  match s with
  | String c _ => isdigit c
  | "" => false
  end.

(** [n] is the first decimal number that occurs in the title [t]: no digit
    comes before it, it is a run of digits or two runs around a dot, and it
    takes every character it can. *)
Inductive first_decimal (t : string) : string -> Prop :=
| first_integer (pre d post : string) :
    t = pre +:+ d +:+ post ->
    no_digit pre -> digits d ->
    starts_with_digit post = false ->
    (forall r, post = "." +:+ r -> starts_with_digit r = false) ->
    first_decimal t d
| first_fraction (pre d1 d2 post : string) :
    t = pre +:+ d1 +:+ "." +:+ d2 +:+ post ->
    no_digit pre -> digits d1 -> digits d2 ->
    starts_with_digit post = false ->
    first_decimal t (d1 +:+ "." +:+ d2).

(** Digits and dots only. *)
Definition numeric (s : string) : Prop :=
  all_chars (fun c => isdigit c || Ascii.eqb c ".") s = true.

Definition no_dash (s : string) : Prop :=
  all_chars (fun c => negb (Ascii.eqb c "-")) s = true.

(** A well-formed range string: ["A"], or ["A-B"] with the dash between the
    two numbers, each of which [float] reads. *)
Inductive well_formed : string -> float -> float -> Prop :=
| range_single (a : string) (A : float) :
    no_dash a -> float_of_string a = Some A ->
    well_formed a A A
| range_pair (a b : string) (A B : float) :
    no_dash a -> no_dash b ->
    float_of_string a = Some A -> float_of_string b = Some B ->
    well_formed (a +:+ "-" +:+ b) A B.

(** A range string malformed in its first part, or in its second part
    when it has one: [float] does not read it. *)
Definition malformed (range_str : string) : Prop :=
  let parts := split "-" range_str in
  (parts !! 0%nat ≫= float_of_string = None) \/
  (exists p, parts !! 1%nat = Some p /\ float_of_string p = None).

(** A range string that is not well formed. *)
Definition not_well_formed (range_str : string) : Prop :=
  forall A B, ~ well_formed range_str A B.

(** The filter is ignored for every range string that is not well formed:
    the chapters come back as they were given. *)
Definition ignored_when_not_well_formed : Prop :=
  forall (chapters : list chapter) (range_str : string),
    not_well_formed range_str ->
    _filter_chapters chapters (Some range_str) = chapters.

(** The chapter's title has a first decimal number, and it lies between
    [A] and [B] as a float. *)
Definition in_range (A B : float) (c : chapter) : Prop :=
  exists n x, first_decimal (title c) n /\ float_of_string n = Some x /\
              fle A x = true /\ fle x B = true.

(** The path of the file [name] of the directory that the names [dirs]
    lead to, relative to the folder they start from. *)
Definition path_from (dirs : list string) (name : string) : string :=
  String.concat "/" (dirs ++ [name]).

(** [rel] is the path of the directory that the names [dirs] lead to: the
    names joined by slashes, and not empty unless there is no name. *)
Definition leads (rel : string) (dirs : list string) : Prop :=
  rel = String.concat "/" dirs /\ (dirs <> [] -> rel <> "").

(** The paths of the files under the directory that [dirs] lead to: the
    files of a directory in sorted order, then those of each of its
    subdirectories in turn. *)
Fixpoint paths_of (dirs : list string) (t : Archive.tree) : list string :=
  match t with
  | Archive.Dir files subdirs =>
      map (path_from dirs) (sorted (map fst files)) ++
      flat_map (fun p => paths_of (dirs ++ [fst p]) (snd p)) subdirs
  end.

(** The names of the entries the packager is to write for the pages: the
    directories top down, the files of each sorted, each path relative to
    the source folder. *)
Definition entry_names (source : Archive.tree) : list string := paths_of [] source.

(** A folder of a file system: no directory has the empty name. *)
Fixpoint named (t : Archive.tree) : bool :=
  match t with
  | Archive.Dir _ subdirs =>
      forallb (fun p => negb (String.eqb (fst p) "") && named (snd p)) subdirs
  end.

(** The file [name] with the bytes [d] is in the directory that the names
    [dirs] lead to. *)
Inductive file_at : list string -> string -> Archive.data -> Archive.tree -> Prop :=
| file_here (name : string) (d : Archive.data) (files : Archive.listing)
    (subdirs : list (string * Archive.tree)) :
    In (name, d) files ->
    file_at [] name d (Archive.Dir files subdirs)
| file_below (dir : string) (dirs : list string) (name : string) (d : Archive.data)
    (files : Archive.listing) (subdirs : list (string * Archive.tree)) (t : Archive.tree) :
    In (dir, t) subdirs -> file_at dirs name d t ->
    file_at (dir :: dirs) name d (Archive.Dir files subdirs).

(** The order of the entries is a function of the names of the files: two
    source folders that hold files at the same paths give archives whose
    entries come in the same order. *)
Definition order_from_names : Prop :=
  forall (z : Archive.zipper) (source source' : Archive.tree)
         (meta : option Archive.metadata) (a a' : list (string * string)),
    named source = true -> named source' = true ->
    Permutation (entry_names source) (entry_names source') ->
    Archive.create_cbz_archive z source (Archive.Outside true) meta = (true, source, a) ->
    Archive.create_cbz_archive z source' (Archive.Outside true) meta = (true, source', a') ->
    map fst a = map fst a'.

(** The name of the descriptor entry, when the metadata call for one. *)
Definition descriptor_name (meta : option Archive.metadata) : list string :=
  match meta with
  | Some m => if decide (m = ∅) then [] else ["ComicInfo.xml"]
  | None => []
  end.

(** The Referer of the three strategies of the fetcher, in order: the
    hint (nothing when there is none), nothing, and the scheme and netloc
    of the asset URL. *)
Definition referers (hint : option string) (scheme netloc : string) : list string :=
  [default "" hint; ""; scheme +:+ "://" +:+ netloc +:+ "/"].

(** The headers of a strategy with the Referer [r]. *)
Definition strategy_of (r : string) : gmap string string := {[ "Referer" := r ]}.

(** A response is accepted: status 200, a body that is not empty, and a
    file that is not empty on disk after the write. *)
Definition accepts (env : Fetcher.environment) (n : nat) (clean_url save_path : string)
  (hdrs : gmap string string) : Prop :=
  exists r body size,
    Fetcher.http_get env n clean_url hdrs = Some r /\
    Fetcher.status_code r = 200%Z /\
    Fetcher.content r = Some body /\ body <> "" /\
    Fetcher.size_after_write env n save_path body = Some size /\
    (0 < size)%N.

(** The property that a failure comes after three Referer strategies that
    differ from each other. *)
Definition fails_after_three_distinct (env : Fetcher.environment) (s : Fetcher.session)
  (url save_path : string) (hint : option string) : Prop :=
  forall s', Fetcher.download_image env s url save_path hint = (Returned false, s') ->
             length (Fetcher.referers_since s s') = 3%nat /\
             NoDup (Fetcher.referers_since s s').

(** A URL scheme: a letter, then letters, digits, [+], [-] or [.]. *)
Definition scheme_char (c : ascii) : bool :=
  PyStr.in_range 65 90 c || PyStr.in_range 97 122 c || isdigit c
  || Ascii.eqb c "+" || Ascii.eqb c "-" || Ascii.eqb c ".".

Definition is_scheme (s : string) : Prop :=
  match s with
  | String c _ => (PyStr.in_range 65 90 c || PyStr.in_range 97 122 c) = true /\
                  all_chars scheme_char s = true
  | "" => False
  end.

(** The input starts with a URL scheme and its colon. *)
Definition starts_with_scheme (input : string) : Prop :=
  exists scheme rest, input = scheme +:+ ":" +:+ rest /\ is_scheme scheme.

(** The normal form of an input: percent-decoded, trimmed, in lower case. *)
Definition normalize (unquote : string -> string) (input : string) : string :=
  lower (strip (unquote input)).

(** The score of a candidate under the oracle [o], for the normal form
    [clean] of the input: 100 times the greater of the ratio against the
    key and the ratio against the display name. *)
Definition candidate_score (o : Resolver.oracle) (clean : string)
  (candidate : string * Resolver.site) : float :=
  Resolver.score_of
    (Resolver.ratio o clean (fst candidate))
    (Resolver.ratio o clean (lower (default "" (Resolver.name (snd candidate))))).

Definition is_ratio_call (c : Resolver.call) : Prop :=
  match c with
  | Resolver.CRatio _ _ => True
  | _ => False
  end.

(** A folder that holds no file, at any depth. *)
Definition no_files (t : Archive.tree) : Prop :=
  Forall (fun d => snd d = []) (Archive.walk "" t).

(** Every page download of the list returns failure. *)
Definition all_failed (ex : extractor) (pages : list string) : Prop :=
  Forall (fun img_url => fetch_page ex img_url = PageFailed) pages.

(** The chapter is treated as failed: it is not marked completed, and no
    packaged file was produced. *)
Definition treated_as_failed (manga_title : string) (chap : chapter)
  (before after : world) : Prop :=
  is_completed (db after) manga_title (title chap) = false /\
  outputs after = outputs before.

(** The run over a chapter and those that follow goes on after the
    chapter: it is the run over the following chapters from the world
    that the chapter leaves, with the end of the chapter before theirs. *)
Definition continues (whole : run) (chap : chapter) (r : chapter_run) (following : run)
  : Prop :=
  ends whole = (chap, ended r) :: ends following /\
  crashed whole = crashed following /\
  final whole = final following.








(** A folder of a file system: no two files of a directory have the same
    name. *)
Definition distinct_names (source : Archive.tree) : Prop :=
  Forall (fun d => NoDup (map fst (snd d))) (Archive.walk "" source).



End Spec.

(* ===================================================================== *)
(** * Concrete inputs *)
(* ===================================================================== *)

Module Examples.

Import PyFloat Archive Core.

Definition chapters_9_to_13 : list chapter :=
  map (fun t => {| title := t; url := "https://example.org/" +:+ t |})
      ["Chapter 9"; "Chapter 10"; "Chapter 11"; "Chapter 12"; "Chapter 13"].

(** A fetcher that no server answers: every request raises. *)
Definition offline : Fetcher.environment :=
  {| Fetcher.urlparse := fun u =>
       if String.eqb u "https://img.example.org/p/1.jpg"
       then Some ("https", "img.example.org") else None;
     Fetcher.http_get := fun _ _ _ => None;
     Fetcher.size_after_write := fun _ _ _ => None |}.

(** The session as [BaseExtractor.__init__] leaves it. *)
Definition new_session : Fetcher.session :=
  {| Fetcher.headers := {[ "User-Agent" := "Mozilla/5.0 (Windows NT 10.0; Win64; x64) AppleWebKit/537.36 (KHTML, like Gecko) Chrome/120.0.0.0 Safari/537.36";
                           "Referer" := "https://google.com" ]};
     Fetcher.sent := [] |}.

(** A table with one static site. *)
Definition one_piece : Resolver.site :=
  {| Resolver.name := Some "One Piece"; Resolver.type := Some "static";
     Resolver.test_path := None; Resolver.base_domain := None;
     Resolver.url_pattern := None;
     Resolver.url := Some "https://onepiece.example.org/manga/" |}.

Definition one_site : Resolver.sites_config := [("one-piece", one_piece)].

(** A table with a site whose key begins with [http]. *)
Definition http_keyed : Resolver.sites_config :=
  [("httpmanga",
    {| Resolver.name := Some "HTTP Manga"; Resolver.type := None;
       Resolver.test_path := None; Resolver.base_domain := None;
       Resolver.url_pattern := None;
       Resolver.url := Some "https://httpmanga.example.org/" |})].

(** Percent-decoding of a string that has no percent sign. *)
Definition unquote_plain (s : string) : string := s.

(** An oracle that finds nothing alike: every ratio is 0.0, which is the
    ratio of difflib when one of the two strings is empty and the other is
    not.  No mirror answers, and the user cancels. *)
Definition nothing_alike : Resolver.oracle :=
  {| Resolver.ratio := fun _ _ => S754_zero false;
     Resolver.find_active_mirror := fun _ _ => None;
     Resolver.prompt := fun _ => 0%nat |}.

(** Codecs that read every file. *)
Definition lenient : codecs :=
  {| open_rgb := fun d => Some d;
     save_jpeg := fun d => "JPEG " +:+ d;
     img2pdf_accepts := fun _ => true |}.

(** A title parser that finds the number 5 and keeps the title. *)
Definition number_five : title_parser :=
  {| meta_number := fun _ _ => "5"; meta_subtitle := fun t => t |}.

(** An extractor whose chapter has two pages, neither of which downloads. *)
Definition two_dead_pages : extractor :=
  {| get_pages := fun _ => Returned ["https://cdn.example.org/c5/1.jpg";
                                     "https://cdn.example.org/c5/2.jpg"];
     fetch_page := fun _ => PageFailed |}.

(** An extractor that finds no page. *)
Definition no_page : extractor :=
  {| get_pages := fun _ => Returned []; fetch_page := fun _ => PageFailed |}.

Definition chapter_5 : chapter :=
  {| title := "Chapter 5"; url := "https://onepiece.example.org/manga/chapter-5/" |}.

(** An output directory with nothing in it and an empty history. *)
Definition fresh : world := {| series := Dir [] []; db := ∅ |}.


(** A zip format that stores the names of the entries; the file of an
    archive that is being written reads as empty. *)
Definition stored : zipper :=
  {| zip_bytes := fun a => "PK:" +:+ String.concat "," (map fst a);
     self_read := fun _ => Some "";
     zip_wreck := fun _ => "PK" |}.

(** A platform on which every directory can be made and every line is
    printed. *)
Definition obliging : platform :=
  {| mkdir_ok := fun _ => true;
     print_skipping := fun _ => true;
     print_finished := fun _ _ _ => true;
     print_failed := fun _ _ => true;
     lands := fun _ => true;
     zipfile := stored;
     pdf_bytes := fun d => "%PDF:" +:+ String.concat "," d |}.

(** A chapter folder with five JPEG pages and two webp pages, in the
    order the downloads ended. *)
Definition five_and_two : tree :=
  Dir [("004.jpg", "jpeg 4"); ("002.webp", "webp 2"); ("001.jpg", "jpeg 1");
       ("007.jpg", "jpeg 7"); ("005.webp", "webp 5"); ("003.jpg", "jpeg 3");
       ("006.jpg", "jpeg 6")] [].



(** Two volumes of one page each, and the same folder with its
    directories listed the other way round. *)
Definition two_volumes : tree :=
  Dir [] [("vol1", Dir [("001.jpg", "jpeg 1")] []);
          ("vol2", Dir [("001.jpg", "jpeg 2")] [])].

Definition two_volumes_swapped : tree :=
  Dir [] [("vol2", Dir [("001.jpg", "jpeg 2")] []);
          ("vol1", Dir [("001.jpg", "jpeg 1")] [])].

End Examples.

(* ===================================================================== *)
(** * The regular expressions of the metadata *)
(* ===================================================================== *)

Module Regex.

(** The patterns of [yomi/utils/metadata.py], as [re] parses them.  They
    repeat single characters only, and only their first group is read. *)
Inductive regex : Type :=
(** one character of a class: a literal, [\d], [\s], [.], [[...]] *)
| Class (p : ascii -> bool)
| Seq (r1 r2 : regex)
(** [r1|r2]: [r1] is tried first *)
| Alt (r1 r2 : regex)
(** [r?], greedy *)
| Opt (r : regex)
(** [c*] and [c+] for a class [c], greedy *)
| Star (p : ascii -> bool)
| Plus (p : ascii -> bool)
(** the first capturing group *)
| Group1 (r : regex)
| Empty
(** [$] without [re.MULTILINE]: the end of the string, or the place before
    a newline that ends it *)
| Dollar.

Definition newline_char : ascii := ascii_of_nat 10.
Definition backslash : ascii := ascii_of_nat 92.

(** What [s] has before its suffix [rest]. *)
Definition consumed (s rest : string) : string :=
  String.substring 0 (String.length s - String.length rest) s.

(** [c*] from the start of [s]: as many characters as possible, giving
    them back one by one while what follows, [k], fails. *)
Fixpoint star {A : Type} (p : ascii -> bool) (s : string) (k : string -> option A)
  : option A :=
  match s with
  | String c s' =>
      if p c then
        match star p s' k with
        | Some a => Some a
        | None => k s
        end
      else k s
  | "" => k ""
  end.

(** The backtracking matcher: [r] from the start of [s], then [k] on what
    is left and on the text of the first group; the first success counts. *)
Fixpoint run {A : Type} (r : regex) (s : string) (g : option string)
  (k : string -> option string -> option A) : option A :=
  match r with
  | Class p =>
      match s with
      | String c s' => if p c then k s' g else None
      | "" => None
      end
  | Seq r1 r2 => run r1 s g (fun s' g' => run r2 s' g' k)
  | Alt r1 r2 =>
      match run r1 s g k with
      | Some a => Some a
      | None => run r2 s g k
      end
  | Opt r1 =>
      match run r1 s g k with
      | Some a => Some a
      | None => k s g
      end
  | Star p => star p s (fun s' => k s' g)
  | Plus p =>
      match s with
      | String c s' => if p c then star p s' (fun s'' => k s'' g) else None
      | "" => None
      end
  | Group1 r1 => run r1 s g (fun s' _ => k s' (Some (consumed s s')))
  | Empty => k s g
  | Dollar =>
      match s with
      | "" => k s g
      | String c "" => if Ascii.eqb c newline_char then k s g else None
      | _ => None
      end
  end.

(** A match from the start of [s]: what is left after it, and its first
    group. *)
Definition match_at (r : regex) (s : string) : option (string * option string) :=
  run r s None (fun rest g => Some (rest, g)).

(** [re.search(r, s)]: the match at the leftmost position that has one. *)
Fixpoint search (r : regex) (s : string) : option (string * option string) :=
  match match_at r s with
  | Some m => Some m
  | None =>
      match s with
      | "" => None
      | String _ s' => search r s'
      end
  end.

(** [re.sub(r, '', s)] for a pattern that does not match the empty string:
    the matches are removed from left to right, without overlap.  [fuel]
    bounds the number of characters looked at; [sub] gives enough. *)
Fixpoint sub_fuel (fuel : nat) (r : regex) (s : string) : string :=
  match fuel with
  | O => s
  | S fuel' =>
      match match_at r s with
      | Some (rest, _) => sub_fuel fuel' r rest
      | None =>
          match s with
          | "" => ""
          | String c s' => String c (sub_fuel fuel' r s')
          end
      end
  end.

Definition sub (r : regex) (s : string) : string :=
  sub_fuel (S (String.length s)) r s.

(** A literal character, and the same under [re.IGNORECASE] for a
    character that is not an upper-case letter. *)
Definition lit (c : ascii) : regex := Class (Ascii.eqb c).
Definition lit_i (c : ascii) : regex := Class (fun x => Ascii.eqb c (lower_char x)).

Fixpoint word (w : string) : regex :=
  match w with
  | "" => Empty
  | String c w' => Seq (lit c) (word w')
  end.

Fixpoint word_i (w : string) : regex :=
  match w with
  | "" => Empty
  | String c w' => Seq (lit_i c) (word_i w')
  end.

(** [.] without [re.DOTALL] *)
Definition dot (c : ascii) : bool := negb (Ascii.eqb c newline_char).

(** [(\d+(\.\d+)?)] *)
Definition number : regex :=
  Group1 (Seq (Plus isdigit) (Opt (Seq (lit ".") (Plus isdigit)))).

(** [(?:chapter|ch\\.?|no\\.?|episode)\s*(\d+(\.\d+)?)] under
    [re.IGNORECASE]: in the raw string, [\\] is a backslash and [.?] an
    optional character, whatever it is but a newline. *)
Definition title_pattern : regex :=
  Seq (Alt (word_i "chapter")
      (Alt (Seq (word_i "ch") (Seq (lit_i backslash) (Opt (Class dot))))
      (Alt (Seq (word_i "no") (Seq (lit_i backslash) (Opt (Class dot))))
           (word_i "episode"))))
      (Seq (Star isspace) number).

(** The class [[\\s:-]] under [re.IGNORECASE]: a backslash, the letter s, a
    colon or a hyphen. *)
Definition separator (c : ascii) : bool :=
  let l := lower_char c in
  Ascii.eqb l backslash || Ascii.eqb l "s" || Ascii.eqb l ":" || Ascii.eqb l "-".

(** The pattern of the [re.sub]: [title_pattern] followed by [[\\s:-]*]. *)
Definition subtitle_pattern : regex := Seq title_pattern (Star separator).

(** [/(?:chapter|ch|c)[-/_]?(\d+(\.\d+)?)(?:/|$)] *)
Definition url_pattern : regex :=
  Seq (lit "/")
      (Seq (Alt (word "chapter") (Alt (word "ch") (word "c")))
      (Seq (Opt (Class (fun c => Ascii.eqb c "-" || Ascii.eqb c "/" || Ascii.eqb c "_")))
      (Seq number (Alt (lit "/") Dollar)))).

End Regex.

Module Metadata.

Import Regex.

Section Parse.

(** [urllib.parse.unquote] *)
Variable unquote : string -> string.

(** [match.group(1)] as a [str]; a group that took no part gives [None],
    which is as false as the empty string. *)
Definition group1 (m : string * option string) : string := default "" (snd m).

(** [meta_number] of [parse_chapter_metadata] at its end. *)
Definition meta_number (chapter_title url : string) : string :=
  let clean_title := strip chapter_title in
  let clean_url := lower (strip (unquote url)) in
  let meta_number :=
    match search title_pattern clean_title with
    | Some m => group1 m
    | None => ""
    end in
  match meta_number with
  | "" =>
      match search url_pattern clean_url with
      | Some m => group1 m
      | None => "0"
      end
  | _ => meta_number
  end.

(** [meta_subtitle] of [parse_chapter_metadata] at its end. *)
Definition meta_subtitle (chapter_title : string) : string :=
  let clean_title := strip chapter_title in
  let meta_subtitle :=
    match search title_pattern clean_title with
    | Some _ => strip (sub subtitle_pattern clean_title)
    | None => ""
    end in
  match meta_subtitle with
  | "" => clean_title
  | _ => meta_subtitle
  end.

(** The title parser of [yomi/utils/metadata.py]. *)
Definition parser : Core.title_parser :=
  {| Core.meta_number := meta_number; Core.meta_subtitle := meta_subtitle |}.

End Parse.

End Metadata.

(* ===================================================================== *)
(** * The metadata provider *)
(* ===================================================================== *)

Module AniList.

Import PyFloat.

(** A value that [resp.json()] gives.  The entries of a [dict] are in the
    order of insertion, and their keys are distinct. *)
#[warnings="-register-all"]
Inductive json : Type :=
| JNull
| JBool (b : bool)
| JInt (n : Z)
| JFloat (x : float)
| JStr (s : string)
| JList (items : list json)
| JDict (entries : list (string * json)).

(** The truth value of [if x:]. *)
Definition truthy (x : json) : bool :=
  match x with
  | JNull => false
  | JBool b => b
  | JInt n => negb (n =? 0)%Z
  | JFloat (S754_zero _) => false
  | JFloat _ => true
  | JStr "" => false
  | JStr _ => true
  | JList [] => false
  | JList _ => true
  | JDict [] => false
  | JDict _ => true
  end.

Definition lookup_entry (entries : list (string * json)) (key : string) : option json :=
  snd <$> find (fun p => String.eqb (fst p) key) entries.

(** [x[key]] for a [str] key: a [KeyError] for a [dict] without it, a
    [TypeError] for anything that is not a [dict]. *)
Definition subscript (x : json) (key : string) : outcome json :=
  match x with
  | JDict entries => or_raise (lookup_entry entries key)
  | _ => Raised
  end.

(** [x.get(key, dflt)]: an [AttributeError] for anything that is not a
    [dict]. *)
Definition get (x : json) (key : string) (dflt : json) : outcome json :=
  match x with
  | JDict entries => mret (default dflt (lookup_entry entries key))
  | _ => Raised
  end.

(** [key in x] for a [str] key: a key of a [dict], an item of a [list], a
    part of a [str]; a [TypeError] for the rest. *)
Definition has (key : string) (x : json) : outcome bool :=
  match x with
  | JDict entries => mret (bool_decide (is_Some (lookup_entry entries key)))
  | JList items =>
      mret (existsb (fun item => match item with
                                 | JStr s => String.eqb s key
                                 | _ => false
                                 end) items)
  | JStr s => mret (contains key s)
  | _ => Raised
  end.

Fixpoint chars (s : string) : list json :=
  match s with
  | "" => []
  | String c s' => JStr (String c "") :: chars s'
  end.

(** [for item in x]: the items of a [list], the keys of a [dict], the
    characters of a [str]; a [TypeError] for the rest. *)
Definition iterate (x : json) : outcome (list json) :=
  match x with
  | JList items => mret items
  | JDict entries => mret (map (fun p => JStr (fst p)) entries)
  | JStr s => mret (chars s)
  | _ => Raised
  end.

(** The receiver of a [str] method: an [AttributeError] for anything that
    is not a [str]. *)
Definition as_str (x : json) : outcome string :=
  match x with
  | JStr s => mret s
  | _ => Raised
  end.

Fixpoint all_str (items : list json) : outcome (list string) :=
  match items with
  | [] => mret []
  | x :: rest => s ← as_str x; ss ← all_str rest; mret (s :: ss)
  end.

(** [sep.join(parts)] *)
Fixpoint join (sep : string) (parts : list string) : string :=
  match parts with
  | [] => ""
  | [p] => p
  | p :: rest => p +:+ sep +:+ join sep rest
  end.

(** [a or b] *)
Definition py_or (a b : json) : json := if truthy a then a else b.

(** The metadata of a series: the [dict] that [_format_meta] returns. *)
Abbreviation meta := (gmap string json) (only parsing).

(** The loop of [_format_meta] over the edges: [writer] and [artist] as
    they change. *)
Fixpoint credits (edges : list json) (writer artist : json) : outcome (json * json) :=
  match edges with
  | [] => mret (writer, artist)
  | edge :: rest =>
      r ← subscript edge "role";
      role_str ← as_str r;
      let role := lower role_str in
      node ← subscript edge "node";
      nm ← subscript node "name";
      name ← subscript nm "full";
      let writer1 := if contains "story" role || contains "writer" role
                     then name else writer in
      let artist1 := if contains "art" role || contains "illustrator" role
                     then name else artist in
      credits rest writer1 artist1
  end.

(** [_format_meta] *)
Definition _format_meta (media : json) : outcome meta :=
  staffed ← has "staff" media;
  edged ← (if staffed : bool then staff ← subscript media "staff"; has "edges" staff
           else Returned false);
  '(writer, artist) ←
    (if edged : bool then
       staff ← subscript media "staff";
       edges ← subscript staff "edges";
       items ← iterate edges;
       credits items (JStr "") (JStr "")
     else Returned (JStr "", JStr ""));
  desc0 ← get media "description" (JStr "");
  desc ← (if truthy desc0
          then s ← as_str desc0; Returned (JStr (strip (replace "<br>" Archive.newline s)))
          else Returned desc0);
  start_date ← get media "startDate" (JDict []);
  year ← get start_date "year" (JStr "");
  genres ← get media "genres" (JList []);
  items ← iterate genres;
  parts ← all_str items;
  mret (<["writer" := py_or writer artist]>
       (<["artist" := py_or artist writer]>
       (<["year" := year]>
       (<["genres" := JStr (join ", " parts)]>
       (<["summary" := desc]> ∅))))).

(** What the provider meets outside the program. *)
Record environment : Type := {
  (** the POST of the query for a name: the status and what [resp.json()]
      gives, [None] when it raises; [None] when the request raises. *)
  post : string -> option (Z * option json);
  (** [SequenceMatcher(None, a, b).ratio()] *)
  ratio : string -> string -> float
}.

(** [calculate_similarity] *)
Definition calculate_similarity (env : environment) (a : string) (b : json)
  : outcome float :=
  s ← as_str b; mret (ratio env (lower a) (lower s)).

Fixpoint similarities (env : environment) (a : string) (titles : list json)
  : outcome (list float) :=
  match titles with
  | [] => mret []
  | t :: rest =>
      x ← calculate_similarity env a t;
      xs ← similarities env a rest;
      mret (x :: xs)
  end.

(** [max(l)] of a list of floats: a [ValueError] for the empty list; the
    first item unless a later one is greater. *)
Definition py_max (l : list float) : outcome float :=
  match l with
  | [] => Raised
  | x :: rest => mret (fold_left fmax rest x)
  end.

(** The float of the literal [0.6]. *)
Definition threshold : float := of_decimal false 6 (-1).

(** The [try] block of [fetch_metadata]: what the function returns and the
    cache afterwards. *)
Definition fetch_body (env : environment) (manga_name : string) (cache : gmap string meta)
  : outcome (option meta * gmap string meta) :=
  '(status, body) ← or_raise (post env manga_name);
  if (status =? 200)%Z then
    data ← or_raise body;
    d ← get data "data" (JDict []);
    media ← get d "Media" JNull;
    if negb (truthy media) then mret (None, cache)
    else
      title1 ← subscript media "title";
      romaji ← subscript title1 "romaji";
      title2 ← subscript media "title";
      english ← subscript title2 "english";
      sims ← similarities env manga_name (List.filter truthy [romaji; english]);
      best_match ← py_max sims;
      if flt threshold best_match then
        m ← _format_meta media;
        mret (Some m, <[manga_name := m]> cache)
      else mret (None, cache)
  else mret (None, cache).

(** [fetch_metadata]: the [except] returns [None]. *)
Definition fetch_metadata (env : environment) (manga_name : string)
  (cache : gmap string meta) : option meta * gmap string meta :=
  match cache !! manga_name with
  | Some m => (Some m, cache)
  | None =>
      match fetch_body env manga_name cache with
      | Returned r => r
      | Raised => (None, cache)
      end
  end.

End AniList.

(* ===================================================================== *)
(** * The library command *)
(* ===================================================================== *)

Module Cli.

Import Resolver.

(** [FEATURED_MANGAS], a [set]: its members, in the order of the source
    text; the order in which a set is iterated is not fixed. *)
Definition FEATURED_MANGAS : list string :=
  ["one-piece"; "bleach"; "naruto"; "dragon-ball"; "hunter-x-hunter";
   "jujutsu-kaisen"; "chainsaw-man"; "demon-slayer-kimetsu-no-yaiba"; "my-hero-academia";
   "berserk"; "vagabond"; "vinland-saga"; "kingdom"; "monster";
   "20th-century-boys"; "oyasumi-punpun"; "tokyo-ghoul"; "gantz";
   "one-punch-man"; "spy-x-family"; "blue-lock"; "dandadan";
   "sakamoto-days"; "frieren-at-the-funeral"].




(** [display_keys] of the grid mode; [featured] is [FEATURED_MANGAS] in
    the order of its iteration. *)
Definition display_keys (sites : sites_config) (show_all : bool) (featured : list string)
  : list string :=
  if show_all then sorted (map fst sites)
  else
    let display_keys := List.filter (has_key sites) featured in
    let display_keys :=
      if (length display_keys <? 24)%nat && (24 <=? length sites)%nat then
        let extras :=
          take (24 - length display_keys)
               (List.filter (fun k => negb (bool_decide (k ∈ display_keys)))
                            (map fst sites)) in
        display_keys ++ extras
      else display_keys in
    sorted display_keys.

(** The number of the series that the grid hides, when it says so. *)
Definition hidden (sites : sites_config) (show_all : bool) (featured : list string)
  : option nat :=
  let shown := length (display_keys sites show_all featured) in
  if negb show_all && (shown <? length sites)%nat
  then Some (length sites - shown)%nat
  else None.

(** [safe_len] from [raw], the value of [int(width / columns_count) - 6]. *)
Definition safe_len (raw : Z) : Z := if (raw <? 15)%Z then 15%Z else raw.

(** The text of a card: [text[:safe_len-3] + "..."] when it is longer than
    [safe_len]. *)
Definition shorten (safe_len : Z) (text : string) : string :=
  if (safe_len <? Z.of_nat (String.length text))%Z
  then String.substring 0 (Z.to_nat (safe_len - 3)) text +:+ "..."
  else text.

End Cli.

(* ===================================================================== *)
(** * Further vocabulary *)
(* ===================================================================== *)

Module Terms.

Import PyFloat Archive Core.

(** The file a page is saved to: [f"{idx+1:03d}.{ext}"]. *)
Definition page_file (idx : nat) (img_url : string) : string :=
  pad3 (idx + 1) +:+ "." +:+ page_ext img_url.

(** The characters a sanitized title keeps. *)
Definition title_char (c : ascii) : bool :=
  isalnum c || Ascii.eqb c " " || Ascii.eqb c "-" || Ascii.eqb c "_".

(** The titles of the chapters that a run completed. *)
Definition completed_titles (ends : list (chapter * chapter_end)) : list string :=
  flat_map (fun ce => match snd ce with
                      | Completed => [title (fst ce)]
                      | _ => []
                      end) ends.

(** The completion records of a list of titles of one series. *)
Definition records (manga_title : string) (titles : list string) : gset (string * string) :=
  list_to_set (map (fun t => (manga_title, t)) titles).

(** The page number that a file name made of digits stands for. *)
Definition page_number (digits : string) : option nat :=
  option_map Nat.of_uint (NilEmpty.uint_of_string digits).

(** The last character of a string, if it has one. *)
Fixpoint last_char (s : string) : option ascii :=
  match s with
  | "" => None
  | String c "" => Some c
  | String _ s' => last_char s'
  end.

(** The string neither starts nor ends with white space. *)
Definition trimmed (s : string) : Prop :=
  match s with
  | "" => True
  | String c _ => isspace c = false /\
                  exists z, last_char s = Some z /\ isspace z = false
  end.

(** A prompt that does not offer between one and five candidates. *)
Definition bad_prompt {X : Type} (e : Resolver.request X) : bool :=
  match e with
  | Resolver.Ask n => negb ((1 <=? n)%nat && (n <=? 5)%nat)
  | _ => false
  end.

Definition is_ask_call (c : Resolver.call) : Prop :=
  match c with
  | Resolver.CAsk _ => True
  | _ => False
  end.




(** The string has no opening brace. *)
Definition no_brace (s : string) : Prop :=
  Spec.all_chars (fun c => negb (Ascii.eqb "{" c)) s = true.

(** Escaping one character at a time: the ampersand and the two angle
    brackets as entities, any other character as itself. *)
Definition escape_char (c : ascii) : string :=
  if Ascii.eqb "&" c then "&amp;"
  else if Ascii.eqb "<" c then "&lt;"
  else if Ascii.eqb ">" c then "&gt;"
  else String c "".

Fixpoint escape (s : string) : string :=
  match s with
  | "" => ""
  | String c s' => escape_char c +:+ escape s'
  end.

(** Neither angle bracket. *)
Definition no_angle (c : ascii) : bool :=
  negb (Ascii.eqb "<" c) && negb (Ascii.eqb ">" c).

(** A decimal numeral: a run of digits, or two runs around a dot. *)
Definition numeral (s : string) : Prop :=
  exists d1, Spec.digits d1 /\
    (s = d1 \/ exists d2, Spec.digits d2 /\ s = d1 +:+ "." +:+ d2).

(** The text goes on after a number without making it longer: it starts
    neither with a digit nor with a dot and a digit. *)
Definition ends_number (rest : string) : bool :=
  match rest with
  | "" => true
  | String c r =>
      negb (isdigit c) && negb (Ascii.eqb "." c && Spec.starts_with_digit r)
  end.

(** The word chapter or episode, in any case. *)
Definition keyword (kw : string) : Prop :=
  lower kw = "chapter" \/ lower kw = "episode".

(** The string has no backslash. *)
Definition no_backslash (s : string) : Prop :=
  Spec.all_chars (fun c => negb (Ascii.eqb Regex.backslash c)) s = true.

End Terms.

(* ===================================================================== *)
(** * Further inputs *)
(* ===================================================================== *)

Module Samples.

Import PyFloat Archive Core Examples.

(** A history that has chapter 5 of One Piece. *)
Definition chapter_5_done : world :=
  {| series := Dir [] []; db := {[ ("One Piece", "Chapter 5") ]} |}.

(** An extractor whose chapter has one page, which downloads. *)
Definition one_good_page : extractor :=
  {| get_pages := fun _ => Returned ["https://cdn.example.org/c5/1.png"];
     fetch_page := fun _ => PageSaved "png 1" |}.

(** A table with a site that has no name. *)
Definition nameless : Resolver.sites_config :=
  [("one-piece",
    {| Resolver.name := None; Resolver.type := None;
       Resolver.test_path := None; Resolver.base_domain := None;
       Resolver.url_pattern := None;
       Resolver.url := Some "https://onepiece.example.org/manga/" |})].

(** An oracle for which everything is half alike (ratio 0.5, score 50): the
    user is asked, and cancels. *)
Definition half_alike : Resolver.oracle :=
  {| Resolver.ratio := fun _ _ => S754_finite false 4503599627370496 (-53);
     Resolver.find_active_mirror := fun _ _ => None;
     Resolver.prompt := fun _ => 0%nat |}.


(** A dynamic site with a pattern, and an oracle that finds its mirror. *)
Definition mirrored : Resolver.sites_config :=
  [("asura",
    {| Resolver.name := Some "Asura"; Resolver.type := Some "dynamic";
       Resolver.test_path := None; Resolver.base_domain := Some "asura";
       Resolver.url_pattern := Some "{mirror}/series/";
       Resolver.url := None |})].

Definition mirror_found : Resolver.oracle :=
  {| Resolver.ratio := fun _ _ => S754_zero false;
     Resolver.find_active_mirror := fun _ _ => Some "https://asura3.example.org";
     Resolver.prompt := fun _ => 0%nat |}.

(** The media of a response for One Piece, and a provider that receives
    it and finds its titles nine tenths alike. *)
Definition one_piece_media : AniList.json :=
  AniList.JDict
    [("title", AniList.JDict [("romaji", AniList.JStr "ONE PIECE");
                              ("english", AniList.JNull)]);
     ("staff", AniList.JDict
        [("edges", AniList.JList
            [AniList.JDict
               [("role", AniList.JStr "Story & Art");
                ("node", AniList.JDict
                   [("name", AniList.JDict [("full", AniList.JStr "Eiichiro Oda")])])]])]);
     ("startDate", AniList.JDict [("year", AniList.JInt 1997)]);
     ("genres", AniList.JList [AniList.JStr "Action"; AniList.JStr "Adventure"]);
     ("description", AniList.JStr " Gold Roger<br>was known ")].

Definition one_piece_provider : AniList.environment :=
  {| AniList.post := fun _ =>
       Some (200%Z, Some (AniList.JDict
                            [("data", AniList.JDict [("Media", one_piece_media)])]));
     AniList.ratio := fun _ _ => S754_finite false 8106479329266893 (-53) |}.

(** A provider whose requests fail. *)
Definition silent_provider : AniList.environment :=
  {| AniList.post := fun _ => None;
     AniList.ratio := fun _ _ => S754_zero false |}.

End Samples.

(* ===================================================================== *)
(** * Properties *)
(* ===================================================================== *)

Import PyFloat Spec Core Examples.

Section StringFacts.

Lemma append_cons (x : ascii) (a b : string) :
  String x a +:+ b = String x (a +:+ b).
Proof. reflexivity. Qed.

Lemma append_empty_l (a : string) : "" +:+ a = a.
Proof. reflexivity. Qed.

Lemma append_assoc (a b c : string) : (a +:+ b) +:+ c = a +:+ (b +:+ c).
Proof.
  induction a as [|x a IH]; [reflexivity|].
  rewrite !append_cons. now rewrite IH.
Qed.

Lemma append_empty_r (a : string) : a +:+ "" = a.
Proof.
  induction a as [|x a IH]; [reflexivity|].
  rewrite append_cons. now rewrite IH.
Qed.

Lemma all_chars_app (f : ascii -> bool) (a b : string) :
  all_chars f (a +:+ b) = all_chars f a && all_chars f b.
Proof.
  induction a as [|x a IH]; [reflexivity|].
  rewrite append_cons. simpl. rewrite IH. now rewrite andb_assoc.
Qed.

Lemma span_digits_app (d r : string) :
  all_chars isdigit d = true -> starts_with_digit r = false ->
  span_digits (d +:+ r) = (d, r).
Proof.
  induction d as [|c d IH]; intros Hd Hr.
  - rewrite append_empty_l.
    destruct r as [|c r]; simpl in *; [reflexivity | now rewrite Hr].
  - simpl in Hd. apply andb_true_iff in Hd as [Hc Hd].
    rewrite append_cons. simpl. rewrite Hc, (IH Hd Hr). reflexivity.
Qed.

Lemma span_digits_spec (s d r : string) :
  span_digits s = (d, r) ->
  s = d +:+ r /\ all_chars isdigit d = true /\ starts_with_digit r = false.
Proof.
  revert d r. induction s as [|c s IH]; simpl; intros d r H.
  - now inversion H.
  - destruct (isdigit c) eqn:Hc.
    + destruct (span_digits s) as [d' r'] eqn:Hs. inversion H; subst.
      destruct (IH d' r eq_refl) as (-> & Hd & Hr).
      rewrite append_cons. simpl. now rewrite Hc, Hd.
    + inversion H; subst. simpl. now rewrite Hc.
Qed.

End StringFacts.

(** ** Characters *)

Ltac char_arith :=
  unfold isdigit, float_space, isspace, PyStr.in_range in *;
  repeat match goal with
         | H : _ && _ = true |- _ => apply andb_true_iff in H as [? ?]
         | H : (_ <=? _)%N = true |- _ => apply N.leb_le in H
         | H : negb _ = true |- _ => apply negb_true_iff in H
         end;
  repeat match goal with
         | |- context [(?a <=? ?b)%N] => destruct (N.leb_spec a b)
         | |- context [(?a =? ?b)%N] => destruct (N.eqb_spec a b)
         end; simpl; try reflexivity; try lia.

Lemma digit_not_float_space (c : ascii) : isdigit c = true -> float_space c = false.
Proof. intros H. char_arith. Qed.

Lemma digit_not_char (c x : ascii) :
  isdigit c = true -> isdigit x = false -> Ascii.eqb c x = false.
Proof.
  intros Hc Hx. destruct (Ascii.eqb_spec c x) as [->|]; [congruence | reflexivity].
Qed.

(** ** The pattern of the chapter number *)

Lemma digits_cons (d : string) :
  digits d -> exists c d', d = String c d' /\ isdigit c = true /\ all_chars isdigit d' = true.
Proof.
  intros [Hne Hall]. destruct d as [|c d']; [congruence|].
  simpl in Hall. apply andb_true_iff in Hall as [? ?]. eauto.
Qed.

Lemma match_number_integer (d post : string) :
  digits d -> starts_with_digit post = false ->
  (forall r, post = "." +:+ r -> starts_with_digit r = false) ->
  match_number (d +:+ post) = Some d.
Proof.
  intros Hd Hpost Hdot. destruct (digits_cons d Hd) as (c & d' & -> & Hc & Hd').
  unfold match_number. rewrite span_digits_app; [|simpl; now rewrite Hc, Hd' | assumption].
  destruct post as [|x post]; [reflexivity|].
  destruct (Ascii.eqb_spec x ".") as [->|Hx].
  - specialize (Hdot post eq_refl).
    destruct (span_digits post) as [d2 r2] eqn:Hs.
    destruct post as [|y post]; simpl in Hs.
    + now inversion Hs.
    + simpl in Hdot. rewrite Hdot in Hs. now inversion Hs.
  - destruct x as [[] [] [] [] [] [] [] []]; try reflexivity. now destruct Hx.
Qed.

Lemma match_number_fraction (d1 d2 post : string) :
  digits d1 -> digits d2 -> starts_with_digit post = false ->
  match_number (d1 +:+ "." +:+ d2 +:+ post) = Some (d1 +:+ "." +:+ d2).
Proof.
  intros H1 H2 Hpost.
  destruct (digits_cons d1 H1) as (c1 & e1 & -> & Hc1 & He1).
  destruct (digits_cons d2 H2) as (c2 & e2 & -> & Hc2 & He2).
  unfold match_number. rewrite span_digits_app; [|simpl; now rewrite Hc1, He1 | reflexivity].
  rewrite (append_cons "."%char ""), append_empty_l. cbv iota.
  rewrite span_digits_app; [reflexivity | simpl; now rewrite Hc2, He2 | assumption].
Qed.

Lemma match_number_none (c : ascii) (s : string) :
  isdigit c = false -> match_number (String c s) = None.
Proof. intros H. unfold match_number. simpl. now rewrite H. Qed.

Lemma match_number_some (s n : string) :
  match_number s = Some n ->
  starts_with_digit s = true /\ first_decimal s n.
Proof.
  unfold match_number. destruct (span_digits s) as [d1 r1] eqn:H1.
  apply span_digits_spec in H1 as (-> & Hd1 & Hr1).
  destruct d1 as [|c1 d1]; [discriminate|].
  assert (Hdig1 : digits (String c1 d1)) by (split; [discriminate | assumption]).
  assert (Hstart : starts_with_digit (String c1 d1 +:+ r1) = true).
  { simpl in Hd1. apply andb_true_iff in Hd1 as [? ?]. assumption. }
  destruct r1 as [|x r1].
  { intros [= <-]. split; [assumption|].
    apply (first_integer _ "" _ ""); try easy. }
  destruct (Ascii.eqb_spec x ".") as [->|Hx].
  - destruct (span_digits r1) as [d2 r2] eqn:H2.
    apply span_digits_spec in H2 as (-> & Hd2 & Hr2).
    destruct d2 as [|c2 d2]; intros [= <-]; (split; [assumption|]).
    + apply (first_integer _ "" _ ("." +:+ r2)); try easy.
      intros r Hr. assert (r = r2) as -> by (now injection Hr). assumption.
    + apply (first_fraction _ "" _ (String c2 d2) r2); easy.
  - assert (Hgoal : Some (String c1 d1) = Some n ->
                    starts_with_digit (String c1 d1 +:+ String x r1) = true /\
                    first_decimal (String c1 d1 +:+ String x r1) n).
    { intros [= <-]. split; [assumption|].
      apply (first_integer _ "" _ (String x r1)); try easy.
      intros r Hr. destruct Hx. now injection Hr. }
    destruct x as [[] [] [] [] [] [] [] []]; try exact Hgoal. now destruct Hx.
Qed.

Lemma first_decimal_cons (c : ascii) (t n : string) :
  isdigit c = false -> first_decimal t n -> first_decimal (String c t) n.
Proof.
  intros Hc [pre d post -> Hpre Hd Hpost Hdot | pre d1 d2 post -> Hpre H1 H2 Hpost].
  - apply (first_integer _ (String c pre) d post); try assumption; [reflexivity|].
    unfold no_digit. simpl. now rewrite Hc.
  - apply (first_fraction _ (String c pre) d1 d2 post); try assumption; [reflexivity|].
    unfold no_digit. simpl. now rewrite Hc.
Qed.

Lemma search_number_sound (t n : string) :
  search_number t = Some n -> first_decimal t n.
Proof.
  induction t as [|c t IH]; simpl.
  - discriminate.
  - destruct (match_number (String c t)) as [m|] eqn:Hm.
    + intros [= <-]. now apply match_number_some in Hm.
    + intros H. apply first_decimal_cons; [|now apply IH].
      destruct (isdigit c) eqn:Hc; [|reflexivity].
      unfold match_number in Hm. simpl in Hm. rewrite Hc in Hm.
      destruct (span_digits t) as [d r]. 
      destruct r as [|x r]; [discriminate|].
      destruct (Ascii.eqb_spec x ".") as [->|Hx].
      * destruct (span_digits r) as [[|] ?]; discriminate.
      * destruct x as [[] [] [] [] [] [] [] []]; try discriminate. now destruct Hx.
Qed.

Lemma search_number_eq (s : string) :
  search_number s =
  match match_number s with
  | Some m => Some m
  | None => match s with
            | "" => None
            | String _ s' => search_number s'
            end
  end.
Proof. destruct s; reflexivity. Qed.

Lemma search_number_prefix (pre s n : string) :
  no_digit pre -> match_number s = Some n -> search_number (pre +:+ s) = Some n.
Proof.
  intros Hpre Hm. induction pre as [|c pre IH].
  - rewrite append_empty_l. now rewrite search_number_eq, Hm.
  - unfold no_digit in Hpre. simpl in Hpre. apply andb_true_iff in Hpre as [Hc Hpre].
    apply negb_true_iff in Hc. rewrite append_cons.
    rewrite search_number_eq, (match_number_none _ _ Hc). now apply IH.
Qed.

Lemma search_number_complete (t n : string) :
  first_decimal t n -> search_number t = Some n.
Proof.
  intros [pre d post -> Hpre Hd Hpost Hdot | pre d1 d2 post -> Hpre H1 H2 Hpost].
  - apply search_number_prefix; [assumption|]. now apply match_number_integer.
  - apply search_number_prefix; [assumption|]. now apply match_number_fraction.
Qed.

Lemma first_decimal_has_digit (t n : string) : first_decimal t n -> ~ no_digit t.
Proof.
  unfold no_digit.
  intros [pre d post -> Hpre Hd Hpost Hdot | pre d1 d2 post -> Hpre H1 H2 Hpost] H;
    rewrite !all_chars_app in H;
    [destruct (digits_cons d Hd) as (c & d' & -> & Hc & _)
    |destruct (digits_cons d1 H1) as (c & d' & -> & Hc & _)];
    simpl in H; rewrite Hc in H; simpl in H;
    now rewrite andb_false_r in H.
Qed.

(** ** [float] on a chapter number *)

Lemma numeric_char (c : ascii) :
  isdigit c || Ascii.eqb c "." = true ->
  Ascii.eqb c "_" = false /\ float_space c = false /\
  Ascii.eqb c "-" = false /\ Ascii.eqb c "+" = false.
Proof.
  intros H. apply orb_true_iff in H as [H|H].
  - repeat split; try (apply digit_not_char; [assumption | reflexivity]).
    now apply digit_not_float_space.
  - apply Ascii.eqb_eq in H as ->. repeat split; reflexivity.
Qed.

Lemma drop_underscores_numeric (prev : ascii) (s : string) :
  numeric s -> Ascii.eqb prev "_" = false -> drop_underscores prev s = Some s.
Proof.
  unfold numeric. revert prev. induction s as [|c s IH]; intros prev Hs Hprev; simpl.
  - now rewrite Hprev.
  - simpl in Hs. apply andb_true_iff in Hs as [Hc Hs].
    destruct (numeric_char c Hc) as (Hu & _).
    rewrite Hu, Hprev. simpl. now rewrite (IH c Hs Hu).
Qed.

Lemma lstrip_float_numeric (s : string) : numeric s -> lstrip_float s = s.
Proof.
  unfold numeric. destruct s as [|c s]; [reflexivity|]. simpl. intros Hs.
  apply andb_true_iff in Hs as [Hc Hs].
  destruct (numeric_char c Hc) as (_ & -> & _). reflexivity.
Qed.

Lemma rstrip_float_numeric (s : string) : numeric s -> rstrip_float s = s.
Proof.
  unfold numeric. induction s as [|c s IH]; [reflexivity|]. simpl. intros Hs.
  apply andb_true_iff in Hs as [Hc Hs]. rewrite (IH Hs).
  destruct (numeric_char c Hc) as (_ & -> & _). now destruct s.
Qed.

Lemma digits_numeric (d : string) : all_chars isdigit d = true -> numeric d.
Proof.
  unfold numeric. induction d as [|c d IH]; [reflexivity|]. simpl. intros H.
  apply andb_true_iff in H as [-> H]. simpl. now apply IH.
Qed.

Lemma numeric_app (a b : string) : numeric a -> numeric b -> numeric (a +:+ b).
Proof. unfold numeric. intros Ha Hb. now rewrite all_chars_app, Ha, Hb. Qed.

(** The value [float] gives to a run of digits, and to two runs around a
    dot. *)
Lemma float_of_integer (d : string) :
  digits d ->
  float_of_string d = Some (of_decimal false (digits_value 0 d) 0).
Proof.
  intros Hd. destruct (digits_cons d Hd) as (c & d' & -> & Hc & Hd').
  assert (Hall : all_chars isdigit (String c d') = true) by (simpl; now rewrite Hc, Hd').
  unfold float_of_string.
  rewrite drop_underscores_numeric; [|now apply digits_numeric | reflexivity].
  rewrite lstrip_float_numeric, rstrip_float_numeric by now apply digits_numeric.
  assert (Hsign : parse_sign (String c d') = (false, String c d')).
  { destruct (numeric_char c) as (_ & _ & Hm & Hp); [now rewrite Hc|].
    apply Ascii.eqb_neq in Hm, Hp.
    destruct c as [[] [] [] [] [] [] [] []]; try reflexivity; congruence. }
  rewrite Hsign. unfold parse_decimal.
  rewrite <- (append_empty_r (String c d')) at 1.
  rewrite span_digits_app by easy.
  rewrite append_empty_r. reflexivity.
Qed.

Lemma float_of_fraction (d1 d2 : string) :
  digits d1 -> digits d2 ->
  float_of_string (d1 +:+ "." +:+ d2) =
  Some (of_decimal false (digits_value 0 (d1 +:+ d2)) (- Z.of_nat (String.length d2))).
Proof.
  intros H1 H2.
  destruct (digits_cons d1 H1) as (c1 & e1 & -> & Hc1 & He1).
  destruct (digits_cons d2 H2) as (c2 & e2 & -> & Hc2 & He2).
  assert (Ha1 : all_chars isdigit (String c1 e1) = true) by (simpl; now rewrite Hc1, He1).
  assert (Ha2 : all_chars isdigit (String c2 e2) = true) by (simpl; now rewrite Hc2, He2).
  assert (Hnum : numeric (String c1 e1 +:+ "." +:+ String c2 e2)).
  { apply numeric_app; [now apply digits_numeric|].
    apply (numeric_app "."); [reflexivity | now apply digits_numeric]. }
  unfold float_of_string.
  rewrite drop_underscores_numeric; [|assumption | reflexivity].
  rewrite lstrip_float_numeric, rstrip_float_numeric by assumption.
  assert (Hsign : forall r, parse_sign (String c1 r) = (false, String c1 r)).
  { intros r. destruct (numeric_char c1) as (_ & _ & Hm & Hp); [now rewrite Hc1|].
    apply Ascii.eqb_neq in Hm, Hp.
    destruct c1 as [[] [] [] [] [] [] [] []]; try reflexivity; congruence. }
  rewrite append_cons, Hsign, <- append_cons. unfold parse_decimal.
  rewrite span_digits_app by easy.
  rewrite (append_cons "."%char ""), append_empty_l. cbv iota.
  rewrite <- (append_empty_r (String c2 e2)) at 1.
  rewrite span_digits_app by easy.
  rewrite !append_cons. reflexivity.
Qed.

Lemma float_of_first_decimal (t n : string) :
  first_decimal t n -> exists x, float_of_string n = Some x.
Proof.
  intros [pre d post _ _ Hd _ _ | pre d1 d2 post _ _ H1 H2 _].
  - rewrite (float_of_integer d Hd). eauto.
  - rewrite (float_of_fraction d1 d2 H1 H2). eauto.
Qed.

(** ** The range filter *)


Lemma split_no_dash (a : string) : no_dash a -> split "-" a = [a].
Proof.
  unfold no_dash. induction a as [|c a IH]; [reflexivity|]. simpl. intros H.
  apply andb_true_iff in H as [Hc Ha]. apply negb_true_iff in Hc.
  now rewrite Hc, (IH Ha).
Qed.

Lemma split_dash (a b : string) :
  no_dash a -> split "-" (a +:+ "-" +:+ b) = a :: split "-" b.
Proof.
  unfold no_dash. induction a as [|c a IH]; [reflexivity|]. intros H. simpl in H.
  apply andb_true_iff in H as [Hc Ha]. apply negb_true_iff in Hc.
  rewrite append_cons. simpl. now rewrite Hc, (IH Ha).
Qed.

Lemma filter_loop_filter (A B : float) (chapters filtered : list chapter) :
  filter_loop A B chapters filtered =
  Returned (filtered ++ List.filter (within A B) chapters).
Proof.
  revert filtered. induction chapters as [|c chapters IH]; intros filtered; simpl.
  - now rewrite app_nil_r.
  - unfold within at 1. destruct (search_number (title c)) as [g|] eqn:Hg; simpl.
    + destruct (float_of_first_decimal _ _ (search_number_sound _ _ Hg)) as [x Hx].
      rewrite Hx. simpl. destruct (fle A x && fle x B).
      * rewrite IH. now rewrite <- app_assoc.
      * apply IH.
    + apply IH.
Qed.

Lemma within_in_range (A B : float) (c : chapter) :
  within A B c = true <-> in_range A B c.
Proof.
  unfold within, in_range. split.
  - destruct (search_number (title c)) as [g|] eqn:Hg; simpl; [|discriminate].
    destruct (float_of_string g) as [x|] eqn:Hx; [|discriminate].
    intros H. apply andb_true_iff in H as [? ?].
    exists g, x. auto using search_number_sound.
  - intros (n & x & Hn & Hx & HA & HB).
    rewrite (search_number_complete _ _ Hn). simpl. now rewrite Hx, HA, HB.
Qed.

Lemma well_formed_filter (chapters : list chapter) (r : string) (A B : float) :
  well_formed r A B ->
  _filter_chapters chapters (Some r) = List.filter (within A B) chapters.
Proof.
  intros Hr.
  assert (Hbody : filter_body chapters r = Returned (List.filter (within A B) chapters)).
  { unfold filter_body. destruct Hr as [a A Ha HA | a b A B Ha Hb HA HB].
    - rewrite (split_no_dash a Ha). simpl. rewrite HA. simpl.
      apply filter_loop_filter.
    - rewrite (split_dash a b Ha), (split_no_dash b Hb). simpl. rewrite HA. simpl.
      rewrite HB. simpl. apply filter_loop_filter. }
  assert (Hne : r <> "").
  { destruct Hr as [a A Ha HA | a b A B Ha Hb HA HB].
    - intros ->. discriminate HA.
    - now destruct a. }
  unfold _filter_chapters. destruct r; [congruence|]. now rewrite Hbody.
Qed.

(** C3. For a well-formed range string "A-B", or "A" alone with the end
    equal to the start, the range filter returns exactly the chapters whose
    title has a first decimal number n with A <= n <= B as floats, in their
    order; a chapter whose title has no digit is excluded; and the range
    "10-12" over "Chapter 9" to "Chapter 13" gives Chapter 10, Chapter 11
    and Chapter 12. *)
Theorem range_filter_exact (chapters : list chapter) (r : string) (A B : float) :
  well_formed r A B ->
  _filter_chapters chapters (Some r) = List.filter (within A B) chapters /\
  (forall c, within A B c = true <-> in_range A B c) /\
  (forall c, In c (_filter_chapters chapters (Some r)) <->
             In c chapters /\ in_range A B c) /\
  (forall c, no_digit (title c) -> ~ In c (_filter_chapters chapters (Some r))) /\
  map title (_filter_chapters chapters_9_to_13 (Some "10-12")) =
    ["Chapter 10"; "Chapter 11"; "Chapter 12"].
Proof.
  intros Hr. rewrite (well_formed_filter chapters r A B Hr).
  split; [reflexivity|]. split; [apply within_in_range|]. split; [|split].
  - intros c. rewrite filter_In, within_in_range. reflexivity.
  - intros c Hc Hin. apply filter_In in Hin as [_ Hin].
    apply within_in_range in Hin as (n & x & Hn & _).
    exact (first_decimal_has_digit _ _ Hn Hc).
  - vm_compute. reflexivity.
Qed.

Lemma range_filter_exact_witness :
  well_formed "10-12" (of_Z 10) (of_Z 12) /\
  _filter_chapters chapters_9_to_13 (Some "10-12") =
    List.filter (within (of_Z 10) (of_Z 12)) chapters_9_to_13.
Proof.
  assert (H : well_formed "10-12" (of_Z 10) (of_Z 12)).
  { apply (range_pair "10" "12"); vm_compute; reflexivity. }
  split; [exact H|].
  exact (proj1 (range_filter_exact chapters_9_to_13 "10-12" _ _ H)).
Defined.

(** C9, amended. For a range string whose first dash-separated part, or
    whose second one, does not read as a float, such as "abc", the range
    filter returns the chapter list as it came; it has no other result.
    The parts after the second are not looked at. *)
Theorem malformed_range_ignored (chapters : list chapter) (r : string) :
  malformed r -> _filter_chapters chapters (Some r) = chapters.
Proof.
  intros Hr. unfold _filter_chapters. destruct r as [|c r]; [reflexivity|].
  assert (Hbody : filter_body chapters (String c r) = Raised); [|now rewrite Hbody].
  unfold filter_body. destruct Hr as [H0 | (p & Hp & Hf)].
  - now rewrite H0.
  - destruct (split "-" (String c r)) as [|p0 [|p1 ps]]; try discriminate.
    simpl in Hp. injection Hp as ->. simpl.
    destruct (float_of_string p0); simpl; [|reflexivity].
    now rewrite Hf.
Qed.

Lemma malformed_range_ignored_witness :
  malformed "abc" /\ _filter_chapters chapters_9_to_13 (Some "abc") = chapters_9_to_13.
Proof.
  assert (H : malformed "abc") by (left; vm_compute; reflexivity).
  split; [exact H|]. exact (malformed_range_ignored chapters_9_to_13 "abc" H).
Defined.

(** C9 as stated fails: a range string with a third part is not well
    formed, and the filter is applied with it all the same, on its first
    two parts. *)
Lemma malformed_range_filtered : ~ ignored_when_not_well_formed.
Proof.
  intros H. specialize (H chapters_9_to_13 "10-12-abc").
  assert (Hnot : not_well_formed "10-12-abc").
  { intros A B Hwf. inversion Hwf as [a A' Hd Hf | a b A' B' Ha Hb HA HB Heq]; subst.
    - vm_compute in Hd. discriminate.
    - destruct a as [|c1 a].
      { rewrite append_empty_l, append_cons in Heq. discriminate. }
      rewrite append_cons in Heq. injection Heq as -> Heq.
      destruct a as [|c2 a].
      { rewrite append_empty_l, append_cons in Heq. discriminate. }
      rewrite append_cons in Heq. injection Heq as -> Heq.
      destruct a as [|c3 a].
      + rewrite append_empty_l, append_cons, append_empty_l in Heq.
        injection Heq as ->. vm_compute in Hb. discriminate.
      + rewrite append_cons in Heq. injection Heq as -> Heq.
        unfold no_dash in Ha. simpl in Ha. discriminate. }
  specialize (H Hnot). vm_compute in H. discriminate.
Qed.

(** ** Sorting *)

Section SortBy.

Context {A : Type}.
Variable le : A -> A -> bool.

Lemma insert_by_perm (x : A) (l : list A) : Permutation (insert_by le x l) (x :: l).
Proof.
  induction l as [|y l IH]; simpl; [reflexivity|].
  destruct (le x y); [reflexivity|].
  rewrite IH. apply perm_swap.
Qed.

Lemma sort_by_perm (l : list A) : Permutation (sort_by le l) l.
Proof.
  induction l as [|x l IH]; simpl; [reflexivity|].
  rewrite insert_by_perm. now rewrite IH.
Qed.

Hypothesis le_total : forall x y, le x y = true \/ le y x = true.
Hypothesis le_trans : forall x y z, le x y = true -> le y z = true -> le x z = true.

Lemma insert_by_sorted (x : A) (l : list A) :
  StronglySorted (fun a b => le a b = true) l ->
  StronglySorted (fun a b => le a b = true) (insert_by le x l).
Proof.
  induction 1 as [|y l Hl IH Hy]; simpl.
  - repeat constructor.
  - destruct (le x y) eqn:Hxy.
    + constructor; [now constructor|].
      constructor; [assumption|].
      eapply Forall_impl; [exact Hy|]. intros z Hz. now apply (le_trans x y z).
    + constructor; [assumption|].
      rewrite (insert_by_perm x l). constructor; [|assumption].
      destruct (le_total x y); congruence.
Qed.

Lemma sort_by_sorted (l : list A) :
  StronglySorted (fun a b => le a b = true) (sort_by le l).
Proof.
  induction l as [|x l IH]; simpl; [constructor | now apply insert_by_sorted].
Qed.

End SortBy.

Lemma sorted_perm (names : list string) : Permutation (sorted names) names.
Proof. apply sort_by_perm. Qed.

Lemma sorted_sorted (names : list string) : StronglySorted String.le (sorted names).
Proof.
  assert (H : StronglySorted (fun a b => str_le a b = true) (sorted names)).
  { apply sort_by_sorted.
    - intros x y. apply String.leb_total.
    - intros x y z Hxy Hyz. apply Is_true_true.
      apply (transitivity (R := String.le) (y := y)); now apply Is_true_true. }
  induction H as [|x l Hl IH Hx]; constructor; [assumption|].
  eapply Forall_impl; [exact Hx|]. intros y Hy. now apply Is_true_true.
Qed.

(** The sorted list depends on the names only, not on their order. *)
Lemma sorted_of_perm (l1 l2 : list string) :
  Permutation l1 l2 -> sorted l1 = sorted l2.
Proof.
  intros H. apply (StronglySorted_unique String.le); try apply sorted_sorted.
  now rewrite !sorted_perm.
Qed.

(** ** The CBZ packager *)

Import Archive.

(** Induction on a folder, with the property for its subdirectories. *)
Lemma tree_induction (P : tree -> Prop) :
  (forall files subdirs, Forall (fun p => P (snd p)) subdirs -> P (Dir files subdirs)) ->
  forall t, P t.
Proof.
  intros H. fix IH 1. intros [files subdirs]. apply H.
  induction subdirs as [|[n t] subdirs IHs]; constructor; [apply IH | exact IHs].
Qed.

Lemma read_file_listed (n : string) (files : listing) :
  In n (map fst files) -> exists d, read_file n files = Some d.
Proof.
  unfold read_file. induction files as [|[m d] files IH]; simpl; [easy|].
  intros [->|H].
  - rewrite String.eqb_refl. simpl. eauto.
  - destruct (String.eqb m n); simpl; eauto.
Qed.

(** The names of the entries that the loops write, when they end. *)
Lemma cbz_write_files_names (z : zipper) (rel : string) (files : listing)
  (self : option string) (names : list string) (written out : archive) :
  cbz_write_files z rel files self names written = (true, out) ->
  map fst out = map fst written ++ map (rel_join rel) names.
Proof.
  revert written. induction names as [|n names IH]; intros written; simpl.
  - intros [= <-]. now rewrite app_nil_r.
  - destruct (if bool_decide (self = Some n) then _ else _) as [d|]; [|discriminate].
    intros H. apply IH in H. rewrite H, List.map_app. simpl.
    now rewrite <- List.app_assoc.
Qed.

Lemma cbz_write_dirs_names (z : zipper) (dirs : list (string * listing * option string))
  (written out : archive) :
  cbz_write_dirs z dirs written = (true, out) ->
  map fst out =
  map fst written ++
  flat_map (fun d => map (rel_join (fst (fst d))) (sorted (map fst (snd (fst d))))) dirs.
Proof.
  revert written. induction dirs as [|[[rel files] self] dirs IH]; intros written; simpl.
  - intros [= <-]. now rewrite app_nil_r.
  - destruct (cbz_write_files z rel files self _ written) as [[] here] eqn:Hh;
      [|discriminate].
    intros H. apply IH in H. apply cbz_write_files_names in Hh.
    now rewrite H, Hh, <- List.app_assoc.
Qed.

(** The loops end when the archive is not among the files. *)
Lemma cbz_write_files_ends (z : zipper) (rel : string) (files : listing)
  (names : list string) (written : archive) :
  (forall n, In n names -> In n (map fst files)) ->
  exists out, cbz_write_files z rel files None names written = (true, out).
Proof.
  revert written. induction names as [|n names IH]; intros written Hin;
    cbn [cbz_write_files].
  - eauto.
  - destruct (read_file_listed n files) as [d Hd]; [apply Hin; now left|].
    rewrite bool_decide_eq_false_2 by discriminate. rewrite Hd.
    apply IH. intros; apply Hin; now right.
Qed.

Lemma cbz_write_dirs_ends (z : zipper) (dirs : list (string * listing * option string))
  (written : archive) :
  Forall (fun d => snd d = None) dirs ->
  exists out, cbz_write_dirs z dirs written = (true, out).
Proof.
  intros H. revert written.
  induction H as [|[[rel files] self] dirs Hs _ IH]; intros written; simpl.
  - eauto.
  - simpl in Hs. subst self.
    destruct (cbz_write_files_ends z rel files (sorted (map fst files)) written)
      as (here & ->).
    { intros n Hn. eapply Permutation_in; [apply sorted_perm | exact Hn]. }
    apply IH.
Qed.

Lemma cbz_walk_unmarked (t : tree) (rel : string) :
  Forall (fun d => snd d = None) (cbz_walk rel None t).
Proof.
  revert rel. induction t as [files subdirs IH] using tree_induction. intros rel.
  simpl. constructor; [reflexivity|].
  induction IH as [|[n t] subdirs Ht _ IHs]; simpl; [constructor|].
  apply List.Forall_app. split; [apply Ht | exact IHs].
Qed.

(** Joining with a slash, and the path that [os.walk] builds. *)
Lemma concat_snoc (sep : string) (l : list string) (x : string) :
  l <> [] -> String.concat sep (l ++ [x]) = String.concat sep l +:+ sep +:+ x.
Proof.
  induction l as [|a [|b l] IH]; [easy| |]; intros _.
  - reflexivity.
  - change (String.concat sep ((a :: b :: l) ++ [x]))
      with (a +:+ sep +:+ String.concat sep ((b :: l) ++ [x])).
    rewrite IH by discriminate.
    change (String.concat sep (a :: b :: l)) with (a +:+ sep +:+ String.concat sep (b :: l)).
    now rewrite !append_assoc.
Qed.

Lemma leads_nil : leads "" [].
Proof. split; [reflexivity | easy]. Qed.

Lemma leads_join (rel : string) (dirs : list string) (name : string) :
  leads rel dirs -> rel_join rel name = Spec.path_from dirs name.
Proof.
  intros [-> Hne]. unfold Spec.path_from. destruct dirs as [|d dirs].
  - reflexivity.
  - rewrite concat_snoc by discriminate. unfold rel_join.
    destruct (String.concat "/" (d :: dirs)) eqn:E; [now destruct Hne|reflexivity].
Qed.

Lemma leads_snoc (rel : string) (dirs : list string) (dir : string) :
  leads rel dirs -> dir <> "" -> leads (rel_join rel dir) (dirs ++ [dir]).
Proof.
  intros H Hdir. split.
  - now rewrite (leads_join _ _ _ H).
  - intros _. rewrite (leads_join _ _ _ H). unfold Spec.path_from.
    destruct dirs as [|d dirs]; [exact Hdir|].
    rewrite concat_snoc by discriminate.
    destruct (String.concat "/" (d :: dirs)); discriminate.
Qed.

(** The names that the walk gives are the paths of the files, whatever
    the place of the archive. *)
Lemma cbz_walk_paths (t : tree) (rel : string) (dirs : list string)
  (self : option (list string * string)) :
  Spec.named t = true -> leads rel dirs ->
  flat_map (fun d => map (rel_join (fst (fst d))) (sorted (map fst (snd (fst d)))))
           (cbz_walk rel self t) =
  Spec.paths_of dirs t.
Proof.
  revert rel dirs self. induction t as [files subdirs IH] using tree_induction.
  intros rel dirs self Hnamed Hrel. simpl. f_equal.
  - apply map_ext. intros name. now apply leads_join.
  - simpl in Hnamed.
    induction IH as [|[n t] subdirs Ht _ IHs]; simpl; [reflexivity|].
    simpl in Hnamed. apply andb_prop in Hnamed as [Hn Hrest].
    apply andb_prop in Hn as [Hn Ht'].
    rewrite flat_map_app. f_equal.
    + apply Ht; [exact Ht'|]. apply leads_snoc; [exact Hrel|].
      intros ->. discriminate.
    + now apply IHs.
Qed.

Lemma descriptor_names (z : zipper) (listed : tree) (self : option (list string * string))
  (meta : option metadata) (a : archive) :
  Spec.named listed = true ->
  cbz_body z listed self meta = (true, a) ->
  map fst a = Spec.entry_names listed ++ Spec.descriptor_name meta.
Proof.
  intros Hnamed. unfold cbz_body, Spec.entry_names, Spec.descriptor_name.
  destruct (cbz_write_dirs z _ []) as [[] images] eqn:Hw; [|discriminate].
  apply cbz_write_dirs_names in Hw. simpl in Hw.
  rewrite (cbz_walk_paths _ _ [] _ Hnamed leads_nil) in Hw.
  destruct meta as [m|]; [destruct (decide (m = ∅))|]; intros [= <-].
  - now rewrite app_nil_r.
  - rewrite List.map_app, Hw. reflexivity.
  - now rewrite app_nil_r.
Qed.

Lemma cbz_body_ends (z : zipper) (source : tree) (meta : option metadata) :
  exists a, cbz_body z source None meta = (true, a).
Proof.
  unfold cbz_body.
  destruct (cbz_write_dirs_ends z (cbz_walk "" None source) []) as (images & ->);
    [apply cbz_walk_unmarked|].
  destruct meta as [m|]; [destruct (decide (m = ∅))|]; eauto.
Qed.

(** An archive beside the source folder. *)
Lemma create_cbz_archive_names (z : zipper) (source : tree) (meta : option metadata) :
  Spec.named source = true ->
  exists a, create_cbz_archive z source (Outside true) meta = (true, source, a) /\
            map fst a = Spec.entry_names source ++ Spec.descriptor_name meta.
Proof.
  intros Hnamed. unfold create_cbz_archive.
  destruct (cbz_body_ends z source meta) as (a & Ha). rewrite Ha.
  exists a. split; [reflexivity|]. now apply (descriptor_names z source None).
Qed.

(** Writing a file keeps the names of a folder. *)
Lemma write_file_names (name : string) (d : data) (files : listing) :
  map fst (write_file name d files) =
  if has_name name files then map fst files else map fst files ++ [name].
Proof.
  unfold has_name. induction files as [|[n d0] files IH]; simpl; [reflexivity|].
  destruct (String.eqb n name) eqn:E; simpl; [reflexivity|].
  rewrite IH. now destruct (existsb _ files).
Qed.

Lemma write_file_has_name (name : string) (d : data) (files : listing) :
  has_name name (write_file name d files) = true.
Proof.
  unfold has_name. induction files as [|[n d0] files IH]; simpl.
  - now rewrite String.eqb_refl.
  - destruct (String.eqb n name) eqn:E; simpl; rewrite E; [reflexivity | exact IH].
Qed.

Lemma write_file_again (name : string) (d d' : data) (files : listing) :
  map fst (write_file name d' (write_file name d files)) =
  map fst (write_file name d files).
Proof. now rewrite (write_file_names name d'), write_file_has_name. Qed.

(** Writing the file of the archive a second time changes neither the
    directories nor the paths of the files. *)
Lemma put_file_again (dirs : list string) (name : string) (d d' : data) (t t1 : tree) :
  put_file dirs name d t = Some t1 ->
  exists t2, put_file dirs name d' t1 = Some t2 /\
             forall ds, Spec.paths_of ds t2 = Spec.paths_of ds t1.
Proof.
  revert t t1. induction dirs as [|dir dirs IH]; intros [files subdirs] t1; simpl.
  - destruct (has_name name subdirs) eqn:Hb; [discriminate|]. intros [= <-]. simpl.
    rewrite Hb. eexists. split; [reflexivity|]. intros ds. simpl.
    now rewrite write_file_again.
  - destruct (update_subdir dir _ subdirs) as [subdirs1|] eqn:Hu; [|discriminate].
    simpl. intros [= <-]. simpl.
    assert (H : exists subdirs2,
               update_subdir dir (put_file dirs name d') subdirs1 = Some subdirs2 /\
               forall ds, flat_map (fun p => Spec.paths_of (ds ++ [fst p]) (snd p)) subdirs2 =
                          flat_map (fun p => Spec.paths_of (ds ++ [fst p]) (snd p)) subdirs1).
    { clear files. revert subdirs1 Hu.
      induction subdirs as [|[n t] subdirs IHs]; intros subdirs1; simpl; [discriminate|].
      destruct (String.eqb n dir) eqn:E.
      - destruct (put_file dirs name d t) as [t1|] eqn:Ht; [|discriminate].
        simpl. intros [= <-]. simpl. rewrite E.
        destruct (IH _ _ Ht) as (t2 & -> & Hp). simpl.
        eexists. split; [reflexivity|]. intros ds. simpl. now rewrite Hp.
      - destruct (update_subdir dir _ subdirs) as [rest1|] eqn:Hr; [|discriminate].
        simpl. intros [= <-]. simpl. rewrite E.
        destruct (IHs _ eq_refl) as (rest2 & -> & Hp). simpl.
        eexists. split; [reflexivity|]. intros ds. simpl. now rewrite Hp. }
    destruct H as (subdirs2 & -> & Hp). simpl.
    eexists. split; [reflexivity|]. intros ds. simpl. now rewrite Hp.
Qed.

Lemma put_file_named (dirs : list string) (name : string) (d : data) (t t1 : tree) :
  Spec.named t = true -> put_file dirs name d t = Some t1 -> Spec.named t1 = true.
Proof.
  revert t t1. induction dirs as [|dir dirs IH]; intros [files subdirs] t1; simpl.
  - destruct (has_name name subdirs); [discriminate|]. now intros H [= <-].
  - destruct (update_subdir dir _ subdirs) as [subdirs1|] eqn:Hu; [|discriminate].
    simpl. intros Hn [= <-]. simpl.
    revert subdirs1 Hu Hn.
    induction subdirs as [|[n t] subdirs IHs]; intros subdirs1; simpl; [discriminate|].
    destruct (String.eqb n dir) eqn:E.
    + destruct (put_file dirs name d t) as [t1|] eqn:Ht; [|discriminate].
      simpl. intros [= <-] H. simpl.
      apply andb_prop in H as [H Hrest]. apply andb_prop in H as [Hn' Ht'].
      now rewrite Hn', (IH _ _ Ht' Ht), Hrest.
    + destruct (update_subdir dir _ subdirs) as [rest1|] eqn:Hr; [|discriminate].
      simpl. intros [= <-] H. simpl.
      apply andb_prop in H as [H Hrest]. rewrite H. simpl. now apply IHs.
Qed.

(** The names of the entries are the paths of the files of the source
    folder as the call leaves it, wherever the archive is. *)
Lemma create_cbz_archive_listed (z : zipper) (source source' : tree)
  (output_path : target) (meta : option metadata) (a : archive) :
  Spec.named source = true ->
  create_cbz_archive z source output_path meta = (true, source', a) ->
  map fst a = Spec.entry_names source' ++ Spec.descriptor_name meta.
Proof.
  intros Hnamed. unfold create_cbz_archive.
  destruct output_path as [[]|dirs name]; [| discriminate |].
  - destruct (cbz_body z source None meta) as [ok a'] eqn:Hb. intros [= -> <- <-].
    now apply (descriptor_names z source None).
  - destruct (put_file dirs name "" source) as [listed|] eqn:Hl; [|discriminate].
    destruct (cbz_body z listed _ meta) as [ok a'] eqn:Hb. intros [= -> <- <-].
    destruct (put_file_again dirs name "" (cbz_file z true a') _ _ Hl) as (t2 & -> & Hp).
    simpl. unfold Spec.entry_names. rewrite Hp.
    apply (descriptor_names z listed (Some (dirs, name))); [|exact Hb].
    now apply (put_file_named dirs name "" source).
Qed.

(** C4, amended. For a source folder of a file system, [create_cbz_archive]
    writes an archive beside it whose entries are, directory by directory
    and top down, the files in sorted order under their paths relative to
    the source folder, then the descriptor if any; wherever the archive
    is, the entries of an archive it makes are so named; sorted names are
    in the order of the strings and are the names themselves; so for a
    folder without subdirectories the order of the entries follows from
    the names of the files alone, and a folder holding 003.jpg, 001.jpg
    and 002.jpg, listed in any order, is packaged as 001.jpg, 002.jpg,
    003.jpg.  The subdirectories come in the order [os.walk] lists
    them. *)
Theorem cbz_entry_order (z : zipper) (source : tree) (meta : option metadata) :
  Spec.named source = true ->
  (exists a, create_cbz_archive z source (Outside true) meta = (true, source, a) /\
             map fst a = Spec.entry_names source ++ Spec.descriptor_name meta) /\
  (forall output_path source' a,
      create_cbz_archive z source output_path meta = (true, source', a) ->
      map fst a = Spec.entry_names source' ++ Spec.descriptor_name meta) /\
  (forall names, StronglySorted String.le (sorted names) /\
                 Permutation (sorted names) names) /\
  (forall files files',
      Permutation (map fst files) (map fst files') ->
      Spec.entry_names (Dir files []) = Spec.entry_names (Dir files' [])) /\
  (forall files a,
      Permutation (map fst files) ["003.jpg"; "001.jpg"; "002.jpg"] ->
      create_cbz_archive z (Dir files []) (Outside true) None = (true, Dir files [], a) ->
      map fst a = ["001.jpg"; "002.jpg"; "003.jpg"]).
Proof.
  intros Hnamed. split; [now apply create_cbz_archive_names|]. split; [|split; [|split]].
  - intros output_path source' a. now apply create_cbz_archive_listed.
  - intros names. split; [apply sorted_sorted | apply sorted_perm].
  - intros files files' Hp. unfold Spec.entry_names. simpl.
    now rewrite (sorted_of_perm _ _ Hp).
  - intros files a Hp Ha.
    apply (create_cbz_archive_listed z (Dir files [])) in Ha; [|reflexivity].
    rewrite Ha. unfold Spec.entry_names, Spec.descriptor_name. simpl.
    rewrite (sorted_of_perm _ _ Hp). reflexivity.
Qed.

Lemma cbz_entry_order_witness :
  Spec.named Examples.two_volumes = true /\
  exists a,
    create_cbz_archive Examples.stored Examples.two_volumes (Outside true) None =
      (true, Examples.two_volumes, a) /\
    map fst a = ["vol1/001.jpg"; "vol2/001.jpg"].
Proof.
  split; [reflexivity|].
  destruct (cbz_entry_order Examples.stored Examples.two_volumes None eq_refl)
    as ((a & Ha & Hn) & _).
  exists a. split; [exact Ha | exact Hn].
Defined.

(** The order of the entries is not a function of the names of the files:
    the two volumes, listed one way and the other, hold the same files at
    the same paths and are packaged in different orders. *)
Lemma cbz_order_follows_listing : ~ Spec.order_from_names.
Proof.
  intros H.
  specialize (H Examples.stored Examples.two_volumes Examples.two_volumes_swapped None
                [("vol1/001.jpg", "jpeg 1"); ("vol2/001.jpg", "jpeg 2")]
                [("vol2/001.jpg", "jpeg 2"); ("vol1/001.jpg", "jpeg 1")]
                eq_refl eq_refl (perm_swap _ _ _) eq_refl eq_refl).
  discriminate H.
Qed.

(** ** The retrying fetcher *)

Section FetcherFacts.

Import Fetcher.

Lemma attempt_accepts (env : environment) (n : nat) (clean_url save_path : string)
  (hdrs : gmap string string) :
  attempt env n clean_url save_path hdrs = true <-> accepts env n clean_url save_path hdrs.
Proof.
  unfold attempt, accepts. split.
  - destruct (http_get env n clean_url hdrs) as [r|] eqn:Hg; [|discriminate].
    destruct (Z.eqb_spec (status_code r) 200) as [Hs|]; [|discriminate].
    destruct (content r) as [body|] eqn:Hc; [|discriminate].
    destruct body as [|c body]; [discriminate|]. simpl.
    destruct (size_after_write env n save_path (String c body)) as [size|] eqn:Hw;
      [|discriminate].
    intros H. apply N.ltb_lt in H. exists r, (String c body), size.
    repeat split; try assumption. discriminate.
  - intros (r & body & size & -> & -> & -> & Hb & Hw & Hsz). simpl.
    destruct body as [|c body]; [congruence|]. simpl. rewrite Hw.
    now apply N.ltb_lt.
Qed.

Lemma try_strategies_spec (env : environment) (url path : string)
  (refs : list string) (n : nat) (s : session) :
  exists b s', try_strategies env url path (map strategy_of refs) n s = (b, s') /\
    (b = false ->
       sent s' = rev (map (fun r => (url, Some r)) refs) ++ sent s /\
       forall k r, refs !! k = Some r ->
         attempt env (n + k) url path (<[ "Referer" := r ]> (headers s)) = false) /\
    (b = true ->
       exists k r, refs !! k = Some r /\
         sent s' = rev (map (fun r => (url, Some r)) (take (S k) refs)) ++ sent s /\
         attempt env (n + k) url path (<[ "Referer" := r ]> (headers s)) = true /\
         forall j r', (j < k)%nat -> refs !! j = Some r' ->
           attempt env (n + j) url path (<[ "Referer" := r' ]> (headers s)) = false).
Proof.
  revert n s. induction refs as [|r refs IH]; intros n s.
  - simpl. exists false, s. split; [reflexivity|]. split; [|discriminate].
    intros _. split; [reflexivity|]. intros k r' H. discriminate.
  - change (try_strategies env url path (map strategy_of (r :: refs)) n s)
      with (let s1 := record_get url (headers_update (strategy_of r) s) in
            if attempt env n url path (headers s1) then (true, s1)
            else try_strategies env url path (map strategy_of refs) (S n) s1).
    set (s1 := record_get url (headers_update (strategy_of r) s)). cbv zeta.
    assert (Hh : headers s1 = <[ "Referer" := r ]> (headers s))
      by (subst s1; unfold strategy_of; simpl; now rewrite insert_union_singleton_l).
    assert (Hr : forall r', <[ "Referer" := r' ]> (headers s1) = <[ "Referer" := r' ]> (headers s))
      by (intros r'; rewrite Hh; apply insert_insert_eq).
    assert (Hs : sent s1 = (url, Some r) :: sent s).
    { subst s1. unfold strategy_of. simpl. rewrite <- insert_union_singleton_l.
      now rewrite lookup_insert_eq. }
    rewrite Hh.
    destruct (attempt env n url path (<[ "Referer" := r ]> (headers s))) eqn:Ha.
    + exists true, s1. split; [reflexivity|]. split; [discriminate|]. intros _.
      exists 0%nat, r. rewrite Nat.add_0_r. repeat split; try assumption.
      intros j r' Hj. lia.
    + destruct (IH (S n) s1) as (b & s' & -> & Hfalse & Htrue).
      exists b, s'. split; [reflexivity|]. split.
      * intros Hb. destruct (Hfalse Hb) as [Hsent Hall]. split.
        -- rewrite Hsent, Hs. simpl. now rewrite <- app_assoc.
        -- intros [|k] r' Hk; simpl in Hk.
           ++ injection Hk as <-. now rewrite Nat.add_0_r.
           ++ rewrite <- Hr, Nat.add_succ_r. now apply Hall.
      * intros Hb. destruct (Htrue Hb) as (k & r' & Hk & Hsent & Hok & Hbefore).
        exists (S k), r'. split; [exact Hk|]. split; [|split].
        -- rewrite Hsent, Hs. simpl. now rewrite <- app_assoc.
        -- now rewrite <- Hr, Nat.add_succ_r.
        -- intros [|j] r'' Hj Hjr; simpl in Hjr.
           ++ injection Hjr as <-. now rewrite Nat.add_0_r.
           ++ rewrite <- Hr, Nat.add_succ_r. apply Hbefore; [lia | assumption].
Qed.

Lemma referers_since_sent (url : string) (refs : list string) (s s' : session) :
  sent s' = rev (map (fun r => (url, Some r)) refs) ++ sent s ->
  referers_since s s' = map Some refs.
Proof.
  intros H. unfold referers_since. rewrite H.
  rewrite length_app, length_rev, length_map.
  replace (length refs + length (sent s) - length (sent s))%nat with (length refs) by lia.
  rewrite take_app_length'; [|now rewrite length_rev, length_map].
  rewrite <- map_rev, rev_involutive, map_map. reflexivity.
Qed.

Lemma strategies_referers (hint : option string) (scheme netloc : string) :
  strategies hint (scheme +:+ "://" +:+ netloc +:+ "/") =
  map strategy_of (referers hint scheme netloc).
Proof. destruct hint as [[|c h]|]; reflexivity. Qed.

Lemma root_domain_not_empty (scheme netloc : string) :
  "" <> scheme +:+ "://" +:+ netloc +:+ "/".
Proof. destruct scheme; discriminate. Qed.

Lemma referers_distinct (hint : option string) (scheme netloc : string) :
  NoDup (referers hint scheme netloc) <->
  default "" hint <> "" /\ default "" hint <> scheme +:+ "://" +:+ netloc +:+ "/".
Proof.
  unfold referers. rewrite !NoDup_cons. rewrite !list_elem_of_In. simpl. split.
  - intros (H1 & _). split; intros E; apply H1; auto.
  - intros [H1 H2]. repeat split.
    + intros [E|[E|[]]]; congruence.
    + intros [E|[]]. now apply (root_domain_not_empty scheme netloc).
    + intros [].
    + constructor.
Qed.

(** C1, amended. [download_image] raises when [urlparse] does, before any
    request.  Otherwise it returns failure only after it has tried exactly
    three Referer strategies, in this order: the hint (nothing when the
    hint is absent or empty), nothing, and scheme://netloc/ of the trimmed
    asset URL, none of which was accepted; and it returns success at the
    first strategy whose response is accepted, without trying the ones
    after it.  A response is accepted exactly when its status is 200, its
    body is not empty and the file written is not empty on disk; any other
    outcome goes on to the next strategy.  The three Referers differ from
    each other exactly when the hint is not empty and is not the third. *)
Theorem download_image_strategies (env : environment) (s : session)
  (url save_path : string) (hint : option string) :
  match urlparse env (_sanitize_url url) with
  | None => download_image env s url save_path hint = (Raised, s)
  | Some (scheme, netloc) =>
      let refs := referers hint scheme netloc in
      let ok k := match refs !! k with
                  | Some r => attempt env k (_sanitize_url url) save_path
                                      (<[ "Referer" := r ]> (headers s))
                  | None => false
                  end in
      exists b s', download_image env s url save_path hint = (Returned b, s') /\
        (b = false ->
           referers_since s s' = map Some refs /\ forall k, ok k = false) /\
        (b = true ->
           exists k, (k < 3)%nat /\
             referers_since s s' = map Some (take (S k) refs) /\
             ok k = true /\ forall j, (j < k)%nat -> ok j = false) /\
        (NoDup refs <->
           default "" hint <> "" /\
           default "" hint <> scheme +:+ "://" +:+ netloc +:+ "/")
  end /\
  (forall n u p h, attempt env n u p h = true <-> accepts env n u p h).
Proof.
  split; [|apply attempt_accepts].
  unfold download_image.
  destruct (urlparse env (_sanitize_url url)) as [[scheme netloc]|]; [|reflexivity].
  cbv zeta. rewrite strategies_referers.
  destruct (try_strategies_spec env (_sanitize_url url) save_path
              (referers hint scheme netloc) 0 s) as (b & s' & -> & Hfalse & Htrue).
  exists b, s'. split; [reflexivity|]. split; [|split].
  - intros Hb. destruct (Hfalse Hb) as [Hsent Hall]. split.
    + now apply (referers_since_sent (_sanitize_url url)).
    + intros k. destruct (referers hint scheme netloc !! k) as [r|] eqn:Hk; [|reflexivity].
      now apply (Hall k r).
  - intros Hb. destruct (Htrue Hb) as (k & r & Hk & Hsent & Hok & Hbefore).
    exists k. split; [|split; [|split]].
    + apply lookup_lt_Some in Hk. exact Hk.
    + now apply (referers_since_sent (_sanitize_url url)).
    + now rewrite Hk.
    + intros j Hj. destruct (referers hint scheme netloc !! j) as [r'|] eqn:Hjr; [|reflexivity].
      now apply (Hbefore j r').
  - apply referers_distinct.
Qed.

(** C1 as stated fails: without a hint, the first two strategies carry the
    same Referer, so a failure does not come after three distinct ones. *)
Lemma three_strategies_not_distinct :
  ~ fails_after_three_distinct offline new_session
      "https://img.example.org/p/1.jpg" "001.jpg" None.
Proof.
  intros H.
  destruct (H {| headers := <[ "Referer" := "https://img.example.org/" ]> (headers new_session);
                 sent := [("https://img.example.org/p/1.jpg", Some "https://img.example.org/");
                          ("https://img.example.org/p/1.jpg", Some "");
                          ("https://img.example.org/p/1.jpg", Some "")] |})
    as [_ Hnd].
  - vm_compute. reflexivity.
  - vm_compute in Hnd. apply NoDup_cons in Hnd as [Hnotin _].
    apply Hnotin. left.
Qed.

End FetcherFacts.

(** ** The resolver *)

Section ResolverFacts.

Import Resolver.

Lemma SFcompare_antisym (x y : float) :
  SFcompare y x = option_map CompOpp (SFcompare x y).
Proof.
  destruct x as [sx|sx| |sx mx ex], y as [sy|sy| |sy my ey]; simpl;
    try reflexivity;
    try (destruct sx; reflexivity); try (destruct sy; reflexivity);
    try (destruct sx, sy; reflexivity).
  destruct sx, sy; try reflexivity; f_equal;
    rewrite (Z.compare_antisym ex ey), !Pos.compare_cont_spec;
    rewrite (Pos.compare_antisym mx my);
    destruct (ex ?= ey)%Z; simpl; try reflexivity;
    destruct (mx ?= my)%positive; reflexivity.
Qed.

Lemma fle_not_flt (x y : float) : fle x y = true -> flt y x = false.
Proof.
  unfold fle, flt, SFleb, SFltb. rewrite (SFcompare_antisym x y).
  destruct (SFcompare x y) as [[]|]; simpl; congruence.
Qed.

Lemma run_bind {A B : Type} (o : oracle) (m : prog A) (f : A -> prog B) :
  run o (m ≫= f) =
  let '(a, calls1) := run o m in
  let '(b, calls2) := run o (f a) in
  (b, calls1 ++ calls2).
Proof.
  induction m as [a|X e k IH]; simpl.
  - now destruct (run o (f a)).
  - change (run o (prog_bind (k (answer o e)) f))
      with (run o (k (answer o e) ≫= f)).
    rewrite IH. destruct (run o (k (answer o e))) as [a calls1].
    now destruct (run o (f a)).
Qed.

Lemma never_bind {A B : Type} (bad : forall X, request X -> bool)
  (m : prog A) (f : A -> prog B) :
  never bad m -> (forall a, never bad (f a)) -> never bad (m ≫= f).
Proof.
  intros Hm Hf. induction m as [a|X e k IH]; simpl in *.
  - apply Hf.
  - destruct Hm as [He Hk]. split; [assumption|]. intros x. now apply IH.
Qed.

(** Finalizing a source asks for a mirror at most: it computes no ratio
    and does not prompt. *)
Lemma finalize_quiet (bad : forall X, request X -> bool)
  (mirror_hunter : bool) (config : sites_config) (key : string) :
  (forall d p, bad _ (FindMirror d p) = false) ->
  never bad (_finalize_target mirror_hunter config key).
Proof.
  intros Hbad. unfold _finalize_target.
  destruct (lookup_site config key) as [site_data|]; [|exact I].
  destruct (String.eqb (default "static" (type site_data)) "dynamic" && mirror_hunter).
  - destruct (base_domain site_data) as [domain|]; [|exact I].
    simpl. split; [apply Hbad|].
    intros [[|c m]|]; try exact I. now destruct (url_pattern site_data).
  - now destruct (url site_data).
Qed.

(** C7, amended. An input that starts with the four characters [http] is
    returned as it is: the resolver is the computation that returns it at
    once, whatever the table, the decoder and the mirror hunter, so it
    makes no request, neither for a ratio, nor for a mirror, nor to the
    user. *)
Theorem http_prefix_returned (unquote : string -> string) (mirror_hunter : bool)
  (config : sites_config) (input : string) :
  startswith "http" input = true ->
  _resolve_target unquote mirror_hunter config input = Ret (Returned (Some input)) /\
  forall o, run o (_resolve_target unquote mirror_hunter config input)
            = (Returned (Some input), []).
Proof.
  intros H. unfold _resolve_target. rewrite H. split; reflexivity.
Qed.

Lemma http_prefix_returned_witness :
  startswith "http" "https://onepiece.example.org/manga/" = true /\
  _resolve_target unquote_plain true one_site "https://onepiece.example.org/manga/"
  = Ret (Returned (Some "https://onepiece.example.org/manga/")).
Proof.
  split; [reflexivity|].
  exact (proj1 (http_prefix_returned unquote_plain true one_site
                  "https://onepiece.example.org/manga/" eq_refl)).
Defined.

(** C7 as stated fails: [ftp://...] starts with a URL scheme, yet the
    resolver does not return it at once; it looks the table up and asks
    for the ratios of the fuzzy search. *)
Lemma other_scheme_is_searched :
  starts_with_scheme "ftp://files.example.org/one-piece" /\
  _resolve_target unquote_plain false one_site "ftp://files.example.org/one-piece"
    <> Ret (Returned (Some "ftp://files.example.org/one-piece")) /\
  snd (run nothing_alike
         (_resolve_target unquote_plain false one_site "ftp://files.example.org/one-piece"))
    = [CRatio "ftp://files.example.org/one-piece" "one-piece";
       CRatio "ftp://files.example.org/one-piece" "one piece"].
Proof.
  split; [|split].
  - exists "ftp", "//files.example.org/one-piece". split; [reflexivity|].
    split; reflexivity.
  - vm_compute. discriminate.
  - vm_compute. reflexivity.
Qed.

(** C5, amended. When the normal form of the input is a key of the table,
    the resolver computes no ratio and does not prompt; and when moreover
    the input does not start with [http], the resolver is the computation
    that finalizes that key. *)
Theorem exact_key_finalized (unquote : string -> string) (mirror_hunter : bool)
  (config : sites_config) (input : string) :
  has_key config (normalize unquote input) = true ->
  (startswith "http" input = false ->
   _resolve_target unquote mirror_hunter config input
   = _finalize_target mirror_hunter config (normalize unquote input)) /\
  never (@is_ratio) (_resolve_target unquote mirror_hunter config input) /\
  never (@is_ask) (_resolve_target unquote mirror_hunter config input).
Proof.
  intros Hkey. unfold _resolve_target. fold (normalize unquote input). rewrite Hkey.
  split; [intros ->; reflexivity|].
  destruct (startswith "http" input).
  - split; exact I.
  - split; apply finalize_quiet; reflexivity.
Qed.

Lemma exact_key_finalized_witness :
  has_key one_site (normalize unquote_plain "  One-Piece ") = true /\
  never (@is_ask) (_resolve_target unquote_plain true one_site "  One-Piece ").
Proof.
  split; [reflexivity|].
  exact (proj2 (proj2 (exact_key_finalized unquote_plain true one_site "  One-Piece " eq_refl))).
Defined.

(** C5 as stated fails: with a key that begins with [http], the input that
    equals the key is returned as a URL, the source is not finalized. *)
Lemma http_key_not_finalized :
  has_key http_keyed (normalize unquote_plain "httpmanga") = true /\
  _resolve_target unquote_plain false http_keyed "httpmanga"
    = Ret (Returned (Some "httpmanga")) /\
  _finalize_target false http_keyed (normalize unquote_plain "httpmanga")
    = Ret (Returned (Some "https://httpmanga.example.org/")) /\
  _resolve_target unquote_plain false http_keyed "httpmanga"
    <> _finalize_target false http_keyed (normalize unquote_plain "httpmanga").
Proof.
  repeat split; try reflexivity. vm_compute. discriminate.
Qed.

Lemma fuzzy_scan_nothing (o : oracle) (clean : string) (items : sites_config)
  (matches : list (float * string * string)) :
  Forall (fun cand => fle (candidate_score o clean cand) (of_Z 40) = true) items ->
  run o (fuzzy_scan clean items matches) =
  (Returned matches,
   flat_map (fun cand => [CRatio clean (fst cand);
                          CRatio clean (lower (default "" (name (snd cand))))])
            items).
Proof.
  induction 1 as [|[key data] items Hscore _ IH]; [reflexivity|].
  apply fle_not_flt in Hscore. unfold candidate_score in Hscore. simpl in Hscore.
  simpl. rewrite Hscore, IH. reflexivity.
Qed.

(** C6, amended. For an input that does not start with [http], whose
    normal form is not a key, and for which the score of every candidate
    (100 times the greater of the two ratios) is at most 40, the resolver
    returns the raw input as it is: it raises no error and makes no request
    but those for the ratios, so it does not prompt.  The run goes on with
    that string as the URL when the input is not empty; on the empty input
    the run stops at resolution. *)
Theorem no_candidate_fallback (unquote : string -> string) (mirror_hunter : bool)
  (config : sites_config) (o : oracle) (input : string) :
  startswith "http" input = false ->
  has_key config (normalize unquote input) = false ->
  Forall (fun cand => fle (candidate_score o (normalize unquote input) cand) (of_Z 40) = true)
         config ->
  exists calls,
    run o (_resolve_target unquote mirror_hunter config input)
      = (Returned (Some input), calls) /\
    Forall is_ratio_call calls /\
    (input <> "" ->
     fst (run o (resolve_step unquote mirror_hunter config input)) = Proceeds input) /\
    (input = "" ->
     fst (run o (resolve_step unquote mirror_hunter config input)) = Aborted).
Proof.
  intros Hurl Hkey Hscores.
  assert (Hrun : run o (_resolve_target unquote mirror_hunter config input)
                 = (Returned (Some input),
                    flat_map (fun cand =>
                                [CRatio (normalize unquote input) (fst cand);
                                 CRatio (normalize unquote input)
                                        (lower (default "" (name (snd cand))))])
                             config ++ [])).
  { unfold _resolve_target. fold (normalize unquote input). rewrite Hurl, Hkey.
    rewrite run_bind, (fuzzy_scan_nothing o _ config [] Hscores). reflexivity. }
  eexists. split; [exact Hrun|]. split; [|split].
  - rewrite app_nil_r. clear. induction config as [|cand config IH]; simpl.
    + constructor.
    + repeat constructor. exact IH.
  - intros Hne. unfold resolve_step. rewrite run_bind.
    rewrite Hrun. destruct input; [congruence | reflexivity].
  - intros ->. unfold resolve_step. rewrite run_bind.
    rewrite Hrun. reflexivity.
Qed.

Lemma no_candidate_fallback_witness :
  startswith "http" "naruto" = false /\
  has_key one_site (normalize unquote_plain "naruto") = false /\
  exists calls,
    run nothing_alike (_resolve_target unquote_plain true one_site "naruto")
      = (Returned (Some "naruto"), calls).
Proof.
  split; [reflexivity|]. split; [reflexivity|].
  destruct (no_candidate_fallback unquote_plain true one_site nothing_alike "naruto")
    as (calls & Hrun & _).
  - reflexivity.
  - reflexivity.
  - repeat constructor.
  - exists calls. exact Hrun.
Defined.

(** C6 as stated fails: the empty input meets its conditions, and the
    resolver returns it unchanged, but the run takes the empty string for
    no URL and stops at resolution. *)
Lemma empty_input_aborts :
  startswith "http" "" = false /\
  has_key one_site (normalize unquote_plain "") = false /\
  Forall (fun cand => fle (candidate_score nothing_alike (normalize unquote_plain "") cand)
                          (of_Z 40) = true) one_site /\
  fst (run nothing_alike (_resolve_target unquote_plain false one_site ""))
    = Returned (Some "") /\
  fst (run nothing_alike (resolve_step unquote_plain false one_site "")) = Aborted /\
  fst (run nothing_alike (resolve_step unquote_plain false one_site "")) <> Proceeds "".
Proof.
  repeat split; try reflexivity.
  - repeat constructor.
  - vm_compute. discriminate.
Qed.

End ResolverFacts.

(** ** The PDF packager *)

Lemma pdf_walk_images (cd : codecs) (t : tree) (rel : string) :
  snd (pdf_walk cd rel t) =
  flat_map (fun d => snd (pdf_dir cd (fst d) (snd d))) (walk rel t).
Proof.
  revert rel. induction t as [files subdirs IH] using tree_induction. intros rel.
  simpl. destruct (pdf_dir cd rel files) as [files' here] eqn:Hd. simpl. f_equal.
  induction IH as [|[n t] subdirs Ht _ IHs]; [reflexivity|].
  simpl. rewrite flat_map_app, <- IHs. simpl in Ht. now rewrite Ht.
Qed.



Lemma read_file_write (n m : string) (d : string) (files : listing) :
  read_file n (write_file m d files) = if String.eqb m n then Some d else read_file n files.
Proof.
  unfold read_file. induction files as [|[k d0] files IH]; simpl.
  - destruct (String.eqb_spec m n); reflexivity.
  - destruct (String.eqb_spec k m) as [->|Hkm]; simpl.
    + destruct (String.eqb_spec m n); reflexivity.
    + destruct (String.eqb_spec k n) as [->|Hkn]; simpl.
      * destruct (String.eqb_spec m n); [congruence | reflexivity].
      * apply IH.
Qed.


Lemma lower_app (a b : string) : lower (a +:+ b) = lower a +:+ lower b.
Proof.
  induction a as [|c a IH]; [reflexivity|].
  rewrite append_cons. simpl. now rewrite IH.
Qed.

Lemma rev_string_app (acc a b : string) :
  rev_string acc (a +:+ b) = rev_string (rev_string acc a) b.
Proof.
  revert acc. induction a as [|c a IH]; intros acc; [reflexivity|].
  rewrite append_cons. simpl. apply IH.
Qed.












Lemma create_pdf_document_eq (cd : codecs) (source : tree) :
  create_pdf_document cd source =
  match snd (pdf_walk cd "" source) with
  | [] => (false, fst (pdf_walk cd "" source), None)
  | images =>
      match img2pdf_convert cd images with
      | Returned doc => (true, fst (pdf_walk cd "" source), Some doc)
      | Raised => (false, fst (pdf_walk cd "" source), None)
      end
  end.
Proof.
  unfold create_pdf_document.
  destruct (pdf_walk cd "" source) as [t [|e images]]; reflexivity.
Qed.





(** ** The folder of the series *)

Lemma append_longer (a b : string) : a +:+ b = a -> b = "".
Proof.
  induction a as [|c a IH]; [now rewrite append_empty_l|].
  rewrite append_cons. intros [= H]. now apply IH.
Qed.

Lemma has_name_write_subdir (n name : string) (t : tree) (subdirs : list (string * tree)) :
  has_name n (write_subdir name t subdirs) = has_name n subdirs || String.eqb name n.
Proof.
  unfold has_name. induction subdirs as [|[m t0] subdirs IH]; simpl.
  - now rewrite orb_false_r.
  - destruct (String.eqb_spec m name) as [->|Hm]; simpl.
    + destruct (String.eqb name n), (existsb _ subdirs); reflexivity.
    + rewrite IH. now rewrite orb_assoc.
Qed.

Lemma read_subdir_write (name : string) (t : tree) (subdirs : list (string * tree)) :
  read_subdir name (write_subdir name t subdirs) = Some t.
Proof.
  unfold read_subdir. induction subdirs as [|[m t0] subdirs IH]; simpl.
  - now rewrite String.eqb_refl.
  - destruct (String.eqb m name) eqn:E; simpl; rewrite E; [reflexivity | exact IH].
Qed.

Lemma read_subdir_removed (name : string) (subdirs : list (string * tree)) :
  read_subdir name (List.filter (fun p => negb (String.eqb (fst p) name)) subdirs) = None.
Proof.
  unfold read_subdir. induction subdirs as [|[m t0] subdirs IH]; simpl; [reflexivity|].
  destruct (String.eqb m name) eqn:E; simpl; [exact IH|]. now rewrite E.
Qed.

Lemma folder_at_root (w : world) : folder_at "" w = Some (series w).
Proof. reflexivity. Qed.

(** What [os.makedirs] leaves as it was. *)
Lemma makedirs_returned (pf : platform) (name : string) (w w1 : world) (t : tree) :
  makedirs pf name w = Returned (t, w1) ->
  db w1 = db w /\ files_of (series w1) = files_of (series w) /\
  folder_at name w1 = Some t /\
  (forall n, n <> name -> blocked n w1 = blocked n w).
Proof.
  unfold makedirs. destruct (folder_at name w) as [t0|] eqn:Hf.
  - intros [= <- <-]. repeat split. exact Hf.
  - destruct (has_name name (files_of (series w))); [discriminate|].
    destruct (mkdir_ok pf name); [|discriminate]. intros [= <- <-].
    assert (Hname : String.eqb name "" = false).
    { destruct (String.eqb_spec name "") as [->|]; [discriminate | reflexivity]. }
    unfold set_folder, folder_at, blocked. rewrite Hname. simpl. rewrite ?Hname.
    repeat split.
    + apply read_subdir_write.
    + intros n Hn. rewrite has_name_write_subdir.
      destruct (String.eqb_spec name n); [congruence|]. apply orb_false_r.
Qed.

Lemma marked_is_completed (manga_title t : string) (w : world) :
  is_completed (db (mark manga_title t w)) manga_title t = true.
Proof.
  unfold is_completed, mark, mark_completed. simpl.
  apply bool_decide_eq_true. set_solver.
Qed.

(** ** One chapter *)

Lemma gather_all_failed (pf : platform) (ex : extractor) (pages : list string)
  (files : listing) :
  all_failed ex pages ->
  gather pf ex pages files = (Returned (map (fun _ => false) pages), files).
Proof.
  intros H. unfold gather.
  assert (Hr : existsb (raises ex) pages = false).
  { induction H as [|u pages Hu _ IH]; [reflexivity|]. simpl. unfold raises at 1.
    now rewrite Hu. }
  rewrite Hr. clear Hr. generalize 0%nat.
  induction H as [|u pages Hu _ IH]; intros idx; [reflexivity|].
  simpl. unfold Core.download_image. rewrite Hu, IH. reflexivity.
Qed.

Lemma gather_no_raise (pf : platform) (ex : extractor) (pages : list string)
  (files : listing) :
  Forall (fun u => fetch_page ex u <> PageRaised) pages ->
  exists results, gather pf ex pages files = (Returned results, snd (downloads ex 0 pages files)).
Proof.
  intros H. unfold gather.
  assert (Hr : existsb (raises ex) pages = false).
  { induction H as [|u pages Hu _ IH]; [reflexivity|]. simpl. unfold raises at 1.
    rewrite IH. now destruct (fetch_page ex u). }
  rewrite Hr. clear Hr. generalize 0%nat. revert files.
  induction H as [|u pages Hu _ IH]; intros files idx; simpl.
  - eexists. reflexivity.
  - unfold Core.download_image.
    destruct (fetch_page ex u) as [d| |]; [| |congruence].
    + destruct (IH (write_file (pad3 (idx + 1) +:+ "." +:+ page_ext u) d files) (S idx))
        as [rs Hrs].
      rewrite Hrs. eexists. reflexivity.
    + destruct (IH files (S idx)) as [rs Hrs]. rewrite Hrs. eexists. reflexivity.
Qed.

Lemma full_meta_not_empty (tp : title_parser) (chap : chapter) (manga_title : string)
  (rich_meta : option metadata) :
  merge_metadata (parse_chapter_metadata tp (title chap) manga_title (url chap)) rich_meta
  <> ∅.
Proof.
  intros H.
  assert (Hs : merge_metadata (parse_chapter_metadata tp (title chap) manga_title (url chap))
                 rich_meta !! "series" = None) by (rewrite H; apply lookup_empty).
  unfold merge_metadata, parse_chapter_metadata in Hs.
  destruct rich_meta as [rich|].
  - apply lookup_union_None in Hs as [_ Hs]. now rewrite lookup_insert_eq in Hs.
  - now rewrite lookup_insert_eq in Hs.
Qed.

Lemma finish_effect (pf : platform) (chap : chapter) (manga_title : string)
  (full_meta : metadata) (w : world) :
  ended (finish pf chap manga_title full_meta w) = Completed /\
  after (finish pf chap manga_title full_meta w) = mark manga_title (title chap) w.
Proof. unfold finish. now destruct (print_finished pf _ _ _). Qed.

(** The call once the folder is there and the downloads of a page list
    that is not empty have returned. *)
Lemma chapter_packaging (pf : platform) (format : string) (cd : codecs)
  (tp : title_parser) (ex : extractor) (chap : chapter) (parent_path manga_title : string)
  (rich_meta : option metadata) (w w1 : world) (files files' : listing)
  (subdirs : list (string * tree)) (pages : list string) (results : list bool) :
  makedirs pf (sanitize (title chap)) w = Returned (Dir files subdirs, w1) ->
  get_pages ex (Core.url chap) = Returned pages -> pages <> [] ->
  gather pf ex pages files = (Returned results, files') ->
  _download_single_chapter pf format cd tp ex chap parent_path manga_title rich_meta w =
  let full_meta :=
    merge_metadata (parse_chapter_metadata tp (title chap) manga_title (Core.url chap))
                   rich_meta in
  let clean_title := sanitize (title chap) in
  let folder := Dir files' subdirs in
  let w2 := set_folder clean_title folder w1 in
  if String.eqb format "pdf" then
    let pdf_name := clean_title +:+ ".pdf" in
    let '(_, folder', doc) := create_pdf_document cd folder in
    let w3 := set_folder clean_title folder' w2 in
    if pdf_opens cd folder && negb (blocked pdf_name w3) then
      match doc with
      | Some d =>
          finish pf chap manga_title full_meta
            (rmtree clean_title (write_packaged pdf_name (pdf_bytes pf d) w3))
      | None =>
          {| ended := NotPackaged; propagated := false;
             after := write_packaged pdf_name "" w3 |}
      end
    else {| ended := NotPackaged; propagated := false; after := w3 |}
  else if String.eqb format "cbz" then
    let cbz_name := clean_title +:+ ".cbz" in
    let cbz_path :=
      if String.eqb clean_title "" then Inside [] cbz_name
      else Outside (negb (blocked cbz_name w2)) in
    let '(ok, folder', a) :=
      create_cbz_archive (zipfile pf) folder cbz_path (Some full_meta) in
    let w3 := set_folder clean_title folder' w2 in
    let w4 :=
      match cbz_path with
      | Outside true => write_packaged cbz_name (cbz_file (zipfile pf) ok a) w3
      | _ => w3
      end in
    if ok then finish pf chap manga_title full_meta (rmtree clean_title w4)
    else {| ended := NotPackaged; propagated := false; after := w4 |}
  else finish pf chap manga_title full_meta w2.
Proof.
  intros Hm Hp Hne Hg. unfold _download_single_chapter. rewrite Hm, Hp.
  destruct pages as [|p pages]; [congruence|]. rewrite Hg. reflexivity.
Qed.

Lemma cbz_walk_walk (t : tree) (rel : string) (self : option (list string * string)) :
  map (fun d => fst d) (cbz_walk rel self t) = walk rel t.
Proof.
  revert rel self. induction t as [files subdirs IH] using tree_induction.
  intros rel self. simpl. f_equal.
  induction IH as [|[n t] subdirs Ht _ IHs]; simpl; [reflexivity|].
  now rewrite List.map_app, Ht, IHs.
Qed.



Lemma no_files_top (files : listing) (subdirs : list (string * tree)) :
  no_files (Dir files subdirs) -> files = [].
Proof. unfold no_files. simpl. intros H. now inversion H. Qed.





(** ** A chapter that fails *)

Lemma pdf_no_images (cd : codecs) (source : tree) :
  no_files source -> snd (pdf_walk cd "" source) = [].
Proof.
  intros H. rewrite pdf_walk_images.
  unfold no_files in H. induction H as [|[rel files] dirs Hd _ IH]; [reflexivity|].
  simpl in Hd. subst files. simpl. exact IH.
Qed.

Lemma pdf_no_files (cd : codecs) (source : tree) :
  no_files source -> fst (fst (create_pdf_document cd source)) = false.
Proof.
  intros H. rewrite create_pdf_document_eq. now rewrite (pdf_no_images cd source H).
Qed.

Lemma outputs_set_folder (name : string) (t : tree) (w : world) :
  outputs (set_folder name t w) =
  if String.eqb name "" then List.filter (fun p => is_packaged (fst p)) (files_of t)
  else outputs w.
Proof. unfold outputs, set_folder. simpl. now destruct (String.eqb name ""). Qed.

(** The step of the loop for a chapter that the history does not have. *)
Lemma run_step (pf : platform) (format : string) (cd : codecs) (tp : title_parser)
  (ex : extractor) (chap : chapter) (rest : list chapter) (manga_path manga_title : string)
  (rich_meta : option metadata) (w : world) :
  is_completed (db w) manga_title (title chap) = false ->
  let r := _download_single_chapter pf format cd tp ex chap manga_path manga_title
             rich_meta w in
  let whole := download_chapters pf format cd tp ex (chap :: rest) manga_path manga_title
                 rich_meta w in
  let following := download_chapters pf format cd tp ex rest manga_path manga_title
                     rich_meta (after r) in
  (propagated r = false -> continues whole chap r following) /\
  (propagated r = true ->
   ends whole = [(chap, ended r)] /\ crashed whole = true /\ final whole = after r).
Proof.
  intros Hnew r whole following. subst whole. cbn [download_chapters]. rewrite Hnew.
  fold r. split; intros ->.
  - fold following. repeat split.
  - repeat split.
Qed.

(** C2, amended. For a chapter that the orchestrator processes and whose
    folder is there or can be made: when the extractor returns no page,
    the chapter is not marked completed, nothing is packaged, and the run
    goes on with the next chapter.  When every page download fails, that
    holds in pdf format, for a chapter folder without files; in cbz
    format, the archive beside the folder of the chapter, and in every
    format but pdf and cbz, the chapter is marked completed all the same.
    When the extractor raises, the chapter is not marked completed and
    nothing is packaged; the run goes on when the terminal renders the
    line of the failure, and ends with the exception of that line when it
    does not. *)
Theorem chapter_failure_isolated (pf : platform) (format : string) (cd : codecs)
  (tp : title_parser) (ex : extractor) (chap : chapter) (parent_path manga_title : string)
  (rich_meta : option metadata) (w w1 : world) (folder : tree) (rest : list chapter) :
  is_completed (db w) manga_title (title chap) = false ->
  makedirs pf (sanitize (title chap)) w = Returned (folder, w1) ->
  let r := _download_single_chapter pf format cd tp ex chap parent_path manga_title
             rich_meta w in
  let whole := download_chapters pf format cd tp ex (chap :: rest) parent_path manga_title
                 rich_meta w in
  let following := download_chapters pf format cd tp ex rest parent_path manga_title
                     rich_meta (after r) in
  (get_pages ex (Core.url chap) = Returned [] ->
     ended r = NoPages /\ treated_as_failed manga_title chap w (after r) /\
     continues whole chap r following) /\
  (get_pages ex (Core.url chap) = Raised ->
     ended r = Failed /\ treated_as_failed manga_title chap w (after r) /\
     (print_failed pf (title chap) AtGetPages = true ->
        continues whole chap r following) /\
     (print_failed pf (title chap) AtGetPages = false ->
        ends whole = [(chap, Failed)] /\ crashed whole = true)) /\
  (forall pages,
     get_pages ex (Core.url chap) = Returned pages -> pages <> [] -> all_failed ex pages ->
     (format = "pdf" -> no_files folder ->
        ended r = NotPackaged /\ treated_as_failed manga_title chap w (after r) /\
        continues whole chap r following) /\
     (format = "cbz" -> sanitize (title chap) <> "" ->
      blocked (sanitize (title chap) +:+ ".cbz") w = false ->
        ended r = Completed /\ is_completed (db (after r)) manga_title (title chap) = true) /\
     (format <> "pdf" -> format <> "cbz" ->
        ended r = Completed /\ is_completed (db (after r)) manga_title (title chap) = true)).
Proof.
  intros Hnew Hm r whole following.
  destruct (run_step pf format cd tp ex chap rest parent_path manga_title rich_meta w Hnew)
    as [Hgo Hstop]. fold r whole following in Hgo, Hstop.
  pose proof (makedirs_returned _ _ _ _ _ Hm) as (Hdb & Hfiles & Hat & Hblocked).
  assert (Hsame : outputs w1 = outputs w) by (unfold outputs; now rewrite Hfiles).
  destruct folder as [files subdirs].
  split; [|split].
  - intros Hp.
    assert (Hr : r = {| ended := NoPages; propagated := false; after := w1 |}).
    { subst r. unfold _download_single_chapter. now rewrite Hm, Hp. }
    split; [now rewrite Hr|]. split.
    + rewrite Hr. simpl. split; [now rewrite Hdb | exact Hsame].
    + apply Hgo. now rewrite Hr.
  - intros Hp.
    assert (Hr : r = handler pf chap AtGetPages Failed w1).
    { subst r. unfold _download_single_chapter. now rewrite Hm, Hp. }
    split; [now rewrite Hr|]. split; [|split].
    + rewrite Hr. simpl. split; [now rewrite Hdb | exact Hsame].
    + intros Hprint. apply Hgo. rewrite Hr. simpl. now rewrite Hprint.
    + intros Hprint. destruct Hstop as (He & Hc & _).
      * rewrite Hr. simpl. now rewrite Hprint.
      * split; [|exact Hc]. rewrite He. now rewrite Hr.
  - intros pages Hp Hne Hfail.
    pose proof (chapter_packaging pf format cd tp ex chap parent_path manga_title rich_meta
                  w w1 files files subdirs pages _ Hm Hp Hne
                  (gather_all_failed pf ex pages files Hfail)) as Hr.
    fold r in Hr. cbv zeta in Hr. split; [|split].
    + intros -> Hempty. change (String.eqb "pdf" "pdf") with true in Hr. cbv iota in Hr.
      assert (Hopen : pdf_opens cd (Dir files subdirs) = false).
      { unfold pdf_opens. now rewrite (pdf_no_images cd _ Hempty). }
      rewrite Hopen in Hr.
      assert (Hroot : files_of (snd (fst (create_pdf_document cd (Dir files subdirs)))) = []).
      { apply no_files_top in Hempty. subst files. rewrite create_pdf_document_eq.
        assert (Hf : files_of (fst (pdf_walk cd "" (Dir [] subdirs))) = []).
        { simpl. reflexivity. }
        destruct (snd (pdf_walk cd "" (Dir [] subdirs))); [exact Hf|].
        destruct (img2pdf_convert cd _); exact Hf. }
      destruct (create_pdf_document cd (Dir files subdirs)) as [[ok folder'] doc].
      simpl in Hr, Hroot. split; [now rewrite Hr|]. split.
      * rewrite Hr. split; [simpl; now rewrite Hdb|]. cbn [after].
        rewrite !outputs_set_folder.
        destruct (String.eqb_spec (sanitize (title chap)) "") as [E|E]; [|exact Hsame].
        rewrite Hroot. rewrite E in Hat. rewrite folder_at_root in Hat.
        injection Hat as Hat. unfold outputs. rewrite <- Hfiles, Hat.
        apply no_files_top in Hempty. now subst files.
      * apply Hgo. now rewrite Hr.
    + intros -> Hclean Hfree.
      change (String.eqb "cbz" "pdf") with false in Hr.
      change (String.eqb "cbz" "cbz") with true in Hr. cbv iota in Hr.
      assert (Hname : String.eqb (sanitize (title chap)) "" = false)
        by now apply String.eqb_neq.
      rewrite Hname in Hr.
      assert (Hb : blocked (sanitize (title chap) +:+ ".cbz")
                     (set_folder (sanitize (title chap)) (Dir files subdirs) w1) = false).
      { unfold blocked, set_folder. rewrite Hname. simpl. rewrite has_name_write_subdir.
        fold (blocked (sanitize (title chap) +:+ ".cbz") w1).
        rewrite Hblocked, Hfree.
        - simpl. apply String.eqb_neq. intros E. symmetry in E.
          apply append_longer in E. discriminate.
        - intros E. apply append_longer in E. discriminate. }
      rewrite Hb in Hr. simpl negb in Hr. unfold create_cbz_archive in Hr.
      destruct (cbz_body_ends (zipfile pf) (Dir files subdirs)
                  (Some (merge_metadata
                           (parse_chapter_metadata tp (title chap) manga_title (Core.url chap))
                           rich_meta))) as (a & Ha).
      rewrite Ha in Hr. cbv iota in Hr. rewrite Hr.
      match goal with
      | |- ended (finish ?pf ?c ?m ?fm ?w0) = _ /\ _ =>
          destruct (finish_effect pf c m fm w0) as [-> ->]
      end.
      split; [reflexivity | apply marked_is_completed].
    + intros Hpdf Hcbz. apply String.eqb_neq in Hpdf, Hcbz. rewrite Hpdf, Hcbz in Hr.
      rewrite Hr.
      match goal with
      | |- ended (finish ?pf ?c ?m ?fm ?w0) = _ /\ _ =>
          destruct (finish_effect pf c m fm w0) as [-> ->]
      end.
      split; [reflexivity | apply marked_is_completed].
Qed.

Lemma chapter_failure_isolated_witness :
  is_completed (db fresh) "One Piece" (title chapter_5) = false /\
  makedirs obliging (sanitize (title chapter_5)) fresh
    = Returned (Dir [] [], set_folder "Chapter 5" (Dir [] []) fresh) /\
  let r := _download_single_chapter obliging "pdf" lenient number_five no_page chapter_5
             "downloads/One Piece" "One Piece" None fresh in
  ended r = NoPages /\
  continues
    (download_chapters obliging "pdf" lenient number_five no_page [chapter_5; chapter_5]
       "downloads/One Piece" "One Piece" None fresh)
    chapter_5 r
    (download_chapters obliging "pdf" lenient number_five no_page [chapter_5]
       "downloads/One Piece" "One Piece" None (after r)).
Proof.
  split; [reflexivity|]. split; [reflexivity|].
  destruct (proj1 (chapter_failure_isolated obliging "pdf" lenient number_five no_page
                     chapter_5 "downloads/One Piece" "One Piece" None fresh
                     (set_folder "Chapter 5" (Dir [] []) fresh) (Dir [] []) [chapter_5]
                     eq_refl eq_refl) eq_refl)
    as (Hend & _ & Hgo).
  split; [exact Hend | exact Hgo].
Defined.

(** C2 as stated fails: in cbz format a chapter whose page downloads all
    failed is packaged and marked completed. *)
Lemma failed_downloads_marked_completed :
  get_pages two_dead_pages (Core.url chapter_5)
    = Returned ["https://cdn.example.org/c5/1.jpg"; "https://cdn.example.org/c5/2.jpg"] /\
  all_failed two_dead_pages ["https://cdn.example.org/c5/1.jpg";
                             "https://cdn.example.org/c5/2.jpg"] /\
  is_completed (db fresh) "One Piece" (title chapter_5) = false /\
  ~ treated_as_failed "One Piece" chapter_5 fresh
      (after (_download_single_chapter obliging "cbz" lenient number_five two_dead_pages
                chapter_5 "downloads/One Piece" "One Piece" None fresh)).
Proof.
  split; [reflexivity|]. split; [repeat constructor|]. split; [reflexivity|].
  intros [Hmark _]. vm_compute in Hmark. discriminate.
Qed.

(* ===================================================================== *)
(** * Further properties *)
(* ===================================================================== *)

Import Terms Samples.

(** ** More on the range filter *)

Lemma filter_body_cases (chapters : list chapter) (r : string) :
  filter_body chapters r = Raised \/
  exists A B, filter_body chapters r = Returned (List.filter (within A B) chapters).
Proof.
  unfold filter_body. destruct (split "-" r) as [|a [|b more]]; simpl.
  - now left.
  - destruct (float_of_string a) as [A|]; simpl; [|now left].
    right. exists A, A. apply filter_loop_filter.
  - destruct (float_of_string a) as [A|]; simpl; [|now left].
    destruct (float_of_string b) as [B|]; simpl; [|now left].
    right. exists A, B. apply filter_loop_filter.
Qed.

Lemma filter_sublist {A : Type} (f : A -> bool) (l : list A) :
  sublist (List.filter f l) l.
Proof.
  induction l as [|x l IH]; simpl; [constructor|].
  destruct (f x); now constructor.
Qed.

(** X1. Whatever the range string, the range filter returns chapters of
    the list it was given, in the order they came and none twice as often:
    its result is a sublist of its input. *)
Theorem range_filter_sublist (chapters : list chapter) (range_str : option string) :
  sublist (_filter_chapters chapters range_str) chapters.
Proof.
  unfold _filter_chapters. destruct range_str as [[|c r]|]; try reflexivity.
  destruct (filter_body_cases chapters (String c r)) as [-> | (A & B & ->)].
  - reflexivity.
  - apply filter_sublist.
Qed.

(** X2. Only the first two dash-separated parts of a range string count:
    when they read as the floats A and B, the filter keeps the chapters
    within A and B whatever comes after the second dash. *)
Theorem range_filter_extra_parts (chapters : list chapter) (r a b : string)
  (more : list string) (A B : float) :
  split "-" r = a :: b :: more ->
  float_of_string a = Some A -> float_of_string b = Some B ->
  _filter_chapters chapters (Some r) = List.filter (within A B) chapters.
Proof.
  intros Hs HA HB.
  assert (Hbody : filter_body chapters r = Returned (List.filter (within A B) chapters)).
  { unfold filter_body. rewrite Hs. simpl. rewrite HA. simpl. rewrite HB. simpl.
    apply filter_loop_filter. }
  unfold _filter_chapters. destruct r; [discriminate Hs|]. now rewrite Hbody.
Qed.

Lemma range_filter_extra_parts_witness :
  map title (_filter_chapters chapters_9_to_13 (Some "10-12-abc"))
  = ["Chapter 10"; "Chapter 11"; "Chapter 12"].
Proof.
  rewrite (range_filter_extra_parts chapters_9_to_13 "10-12-abc" "10" "12" ["abc"]
             (of_Z 10) (of_Z 12)); [| reflexivity | vm_compute; reflexivity
                                    | vm_compute; reflexivity].
  vm_compute. reflexivity.
Defined.

(** ** The history and the packaged files over a run *)

(** What one chapter does to the history: it gains the chapter when
    [mark_completed] was called and is untouched otherwise. *)
Lemma single_chapter_effect (pf : platform) (format : string) (cd : codecs)
  (tp : title_parser) (ex : extractor) (chap : chapter) (parent_path manga_title : string)
  (rich_meta : option metadata) (w : world) :
  let r := _download_single_chapter pf format cd tp ex chap parent_path manga_title
             rich_meta w in
  (ended r = Completed /\
   db (after r) = mark_completed (db w) manga_title (title chap)) \/
  (ended r <> Completed /\ db (after r) = db w).
Proof.
  unfold _download_single_chapter.
  destruct (makedirs pf (sanitize (title chap)) w) as [[[files subdirs] w1]|] eqn:Hm;
    [|right; split; [discriminate | reflexivity]].
  apply makedirs_returned in Hm as (Hdb & _).
  destruct (get_pages ex (Core.url chap)) as [[|p pages]|];
    try (right; split; [discriminate | exact Hdb]).
  destruct (gather pf ex (p :: pages) files) as [[results|] files'];
    [|right; split; [discriminate | exact Hdb]].
  destruct (String.eqb format "pdf").
  - destruct (create_pdf_document cd (Dir files' subdirs)) as [[ok folder'] doc].
    destruct (pdf_opens cd (Dir files' subdirs) && _);
      [|right; split; [discriminate | exact Hdb]].
    destruct doc as [d|]; [|right; split; [discriminate | exact Hdb]].
    left. match goal with
          | |- ended (finish ?pf ?c ?m ?fm ?w0) = _ /\ _ =>
              destruct (finish_effect pf c m fm w0) as [-> ->]
          end.
    split; [reflexivity|]. simpl. now rewrite Hdb.
  - destruct (String.eqb format "cbz").
    + destruct (String.eqb (sanitize (title chap)) ""); [|destruct (blocked _ _)];
        simpl negb;
        destruct (create_cbz_archive _ _ _ _) as [[[] folder'] a]; cbv iota zeta;
        first [ right; split; [discriminate | exact Hdb]
              | left;
                match goal with
                | |- ended (finish ?pf ?c ?m ?fm ?w0) = _ /\ _ =>
                    destruct (finish_effect pf c m fm w0) as [-> ->]
                end;
                split; [reflexivity|]; simpl; now rewrite Hdb ].
    + left. match goal with
            | |- ended (finish ?pf ?c ?m ?fm ?w0) = _ /\ _ =>
                destruct (finish_effect pf c m fm w0) as [-> ->]
            end.
      split; [reflexivity|]. simpl. now rewrite Hdb.
Qed.

Lemma is_completed_spec (h : gset (string * string)) (series chap : string) :
  is_completed h series chap = true <-> (series, chap) ∈ h.
Proof. unfold is_completed. apply bool_decide_eq_true. Qed.

(** The history after the loop over the chapters. *)
Lemma download_chapters_db (pf : platform) (format : string) (cd : codecs)
  (tp : title_parser) (ex : extractor) (chapters : list chapter)
  (manga_path manga_title : string) (rich_meta : option metadata) (w : world) :
  let r := download_chapters pf format cd tp ex chapters manga_path manga_title
             rich_meta w in
  db (final r) = records manga_title (completed_titles (ends r)) ∪ db w /\
  Forall (fun ce => In (fst ce) chapters) (ends r) /\
  NoDup (completed_titles (ends r)) /\
  Forall (fun t => (manga_title, t) ∉ db w) (completed_titles (ends r)).
Proof.
  revert w. induction chapters as [|chap rest IH]; intros w; cbn [download_chapters].
  - unfold records. simpl. split; [set_solver|]. repeat split; constructor.
  - destruct (is_completed (db w) manga_title (title chap)) eqn:Hdone.
    + destruct (print_skipping pf (title chap)).
      * destruct (IH w) as (Hdb & Hin & Hnd & Hnew). split; [exact Hdb|].
        split; [|split; assumption].
        eapply Forall_impl; [exact Hin|]. intros ce H. now right.
      * unfold records. simpl. split; [set_solver|]. repeat split; constructor.
    + pose proof (single_chapter_effect pf format cd tp ex chap manga_path manga_title
                    rich_meta w) as Heff.
      destruct (_download_single_chapter pf format cd tp ex chap manga_path manga_title
                  rich_meta w) as [e spread w1]. simpl in Heff.
      assert (Hfresh : (manga_title, title chap) ∉ db w).
      { intros H. apply is_completed_spec in H. congruence. }
      cbn [propagated ended after]. destruct spread.
      * cbn [ends final].
        destruct Heff as [[-> Hw1] | (Hne & Hw1)]; rewrite Hw1.
        -- unfold completed_titles, records, mark_completed. simpl.
           split; [set_solver|]. split; [repeat constructor; now left|].
           split; [repeat constructor; set_solver|]. now repeat constructor.
        -- assert (Hnone : completed_titles [(chap, e)] = []).
           { unfold completed_titles. simpl. now destruct e. }
           rewrite Hnone. unfold records. simpl.
           split; [set_solver|]. split; [repeat constructor; now left|].
           split; constructor.
      * specialize (IH w1). cbn [ends final].
        destruct (download_chapters pf format cd tp ex rest manga_path manga_title
                    rich_meta w1) as [ends_rest crashed_rest w2].
        simpl in IH. destruct IH as (Hdb & Hin & Hnd & Hnew). cbn [ends final].
        split; [|split; [|split]].
        -- destruct Heff as [[-> Hw1] | (Hne & Hw1)].
           ++ rewrite Hdb, Hw1. unfold completed_titles, records, mark_completed. simpl.
              set_solver.
           ++ rewrite Hdb, Hw1. unfold completed_titles. simpl.
              now destruct e.
        -- constructor; [now left|].
           eapply Forall_impl; [exact Hin|]. intros ce H. now right.
        -- destruct Heff as [[-> Hw1] | (Hne & Hw1)].
           ++ unfold completed_titles. simpl. apply NoDup_cons. split; [|exact Hnd].
              intros Hd. rewrite Forall_forall in Hnew. apply (Hnew (title chap) Hd).
              rewrite Hw1. unfold mark_completed. set_solver.
           ++ unfold completed_titles. simpl. now destruct e.
        -- destruct Heff as [[-> Hw1] | (Hne & Hw1)].
           ++ unfold completed_titles. simpl. constructor; [exact Hfresh|].
              eapply Forall_impl; [exact Hnew|]. intros t Ht Hin'. apply Ht.
              rewrite Hw1. unfold mark_completed. set_solver.
           ++ rewrite Hw1 in Hnew. unfold completed_titles. simpl. now destruct e.
Qed.

Lemma skip_completed (pf : platform) (format : string) (cd : codecs) (tp : title_parser)
  (ex : extractor) (chapters : list chapter) (manga_path manga_title : string)
  (rich_meta : option metadata) (w : world) :
  Forall (fun c => (manga_title, title c) ∈ db w) chapters ->
  let r := download_chapters pf format cd tp ex chapters manga_path manga_title
             rich_meta w in
  ends r = [] /\ final r = w.
Proof.
  induction 1 as [|chap rest Hc _ IH]; cbn [download_chapters]; [now split|].
  apply is_completed_spec in Hc. rewrite Hc.
  destruct (print_skipping pf (title chap)); [exact IH | now split].
Qed.

(** After a loop that no exception ended, every chapter of the list is in
    the history, unless it was processed and did not end completed. *)
Lemma download_chapters_covers (pf : platform) (format : string) (cd : codecs)
  (tp : title_parser) (ex : extractor) (chapters : list chapter)
  (manga_path manga_title : string) (rich_meta : option metadata) (w : world) :
  let r := download_chapters pf format cd tp ex chapters manga_path manga_title
             rich_meta w in
  crashed r = false ->
  Forall (fun c => (manga_title, title c) ∈ db (final r) \/
                   exists e, In (c, e) (ends r) /\ e <> Completed) chapters.
Proof.
  revert w. induction chapters as [|chap rest IH]; intros w; cbn [download_chapters];
    [constructor|].
  destruct (is_completed (db w) manga_title (title chap)) eqn:Hdone.
  - destruct (print_skipping pf (title chap)); [|discriminate].
    intros Hrun.
    pose proof (download_chapters_db pf format cd tp ex rest manga_path manga_title
                  rich_meta w) as (Hdb & _).
    constructor; [|now apply IH].
    left. apply is_completed_spec in Hdone. rewrite Hdb. set_solver.
  - pose proof (single_chapter_effect pf format cd tp ex chap manga_path manga_title
                  rich_meta w) as Heff.
    destruct (_download_single_chapter pf format cd tp ex chap manga_path manga_title
                rich_meta w) as [e spread w1]. simpl in Heff.
    cbn [propagated ended after]. destruct spread; [discriminate|].
    pose proof (download_chapters_db pf format cd tp ex rest manga_path manga_title
                  rich_meta w1) as (Hdb & _).
    specialize (IH w1).
    destruct (download_chapters pf format cd tp ex rest manga_path manga_title rich_meta w1)
      as [ends_rest crashed_rest w2]. simpl in *. intros Hrun. constructor.
    + destruct Heff as [[-> Hw1] | (Hne & _)].
      * left. rewrite Hdb, Hw1. unfold mark_completed. set_solver.
      * right. exists e. split; [now left | exact Hne].
    + eapply Forall_impl; [exact (IH Hrun)|]. intros c [Hc | (e' & He' & Hne')].
      * now left.
      * right. exists e'. split; [now right | exact Hne'].
Qed.

(** X3. The history after the loop over the chapters is the history before
    it with a record for each chapter that ended completed, and nothing
    else: no record is removed, and a chapter that failed or was not
    packaged leaves none.  That holds as well for a loop that an exception
    ended. *)
Theorem history_after_run (pf : platform) (format : string) (cd : codecs)
  (tp : title_parser) (ex : extractor) (chapters : list chapter)
  (manga_path manga_title : string) (rich_meta : option metadata) (w : world) :
  let r := download_chapters pf format cd tp ex chapters manga_path manga_title
             rich_meta w in
  db (final r) = records manga_title (completed_titles (ends r)) ∪ db w /\
  db w ⊆ db (final r) /\
  Forall (fun ce => In (fst ce) chapters) (ends r).
Proof.
  intros r.
  destruct (download_chapters_db pf format cd tp ex chapters manga_path manga_title
              rich_meta w) as (Hdb & Hin & _).
  fold r in Hdb, Hin. split; [exact Hdb|]. split; [|exact Hin].
  rewrite Hdb. set_solver.
Qed.

(** X4. Within a run no chapter title is completed twice, and none that the
    history already had: of several chapters with the same title, at most
    one is downloaded to the end. *)
Theorem completed_once (pf : platform) (format : string) (cd : codecs)
  (tp : title_parser) (ex : extractor) (chapters : list chapter)
  (manga_path manga_title : string) (rich_meta : option metadata) (w : world) :
  let r := download_chapters pf format cd tp ex chapters manga_path manga_title
             rich_meta w in
  NoDup (completed_titles (ends r)) /\
  Forall (fun t => is_completed (db w) manga_title t = false) (completed_titles (ends r)).
Proof.
  intros r.
  destruct (download_chapters_db pf format cd tp ex chapters manga_path manga_title
              rich_meta w) as (_ & _ & Hnd & Hnew).
  fold r in Hnd, Hnew. split; [exact Hnd|].
  eapply Forall_impl; [exact Hnew|]. intros t Ht.
  destruct (is_completed (db w) manga_title t) eqn:E; [|reflexivity].
  apply is_completed_spec in E. contradiction.
Qed.

(** X5. Chapters that the history has are skipped: when it has them all,
    the loop processes none and leaves the folder of the series, with the
    packaged files, and the history exactly as they were, whatever the
    extractor would do and whether or not the terminal renders the lines
    of the skipped chapters. *)
Theorem completed_chapters_skipped (pf : platform) (format : string) (cd : codecs)
  (tp : title_parser) (ex : extractor) (chapters : list chapter)
  (manga_path manga_title : string) (rich_meta : option metadata) (w : world) :
  Forall (fun c => is_completed (db w) manga_title (title c) = true) chapters ->
  let r := download_chapters pf format cd tp ex chapters manga_path manga_title
             rich_meta w in
  ends r = [] /\ final r = w.
Proof.
  intros H. apply skip_completed.
  eapply Forall_impl; [exact H|]. intros c Hc. now apply is_completed_spec.
Qed.

Lemma completed_chapters_skipped_witness :
  Forall (fun c => is_completed (db chapter_5_done) "One Piece" (title c) = true) [chapter_5] /\
  let r := download_chapters obliging "cbz" lenient number_five one_good_page [chapter_5]
             "downloads/One Piece" "One Piece" None chapter_5_done in
  ends r = [] /\ final r = chapter_5_done.
Proof.
  assert (H : Forall (fun c => is_completed (db chapter_5_done) "One Piece" (title c) = true)
                     [chapter_5]) by (repeat constructor).
  split; [exact H|].
  exact (completed_chapters_skipped obliging "cbz" lenient number_five one_good_page
           [chapter_5] "downloads/One Piece" "One Piece" None chapter_5_done H).
Defined.

(** X6. A run that no exception ended and in which every chapter processed
    ended completed is not repeated: the same loop over the same chapters,
    started from the world the first one left, processes nothing and
    changes nothing. *)
Theorem completed_run_idempotent (pf pf' : platform) (format : string) (cd : codecs)
  (tp : title_parser) (ex ex' : extractor) (chapters : list chapter)
  (manga_path manga_title : string) (rich_meta : option metadata) (w : world) :
  let r := download_chapters pf format cd tp ex chapters manga_path manga_title
             rich_meta w in
  crashed r = false ->
  Forall (fun ce => snd ce = Completed) (ends r) ->
  let r' := download_chapters pf' format cd tp ex' chapters manga_path manga_title
              rich_meta (final r) in
  ends r' = [] /\ final r' = final r.
Proof.
  intros r Hrun Hall. apply skip_completed.
  pose proof (download_chapters_covers pf format cd tp ex chapters manga_path manga_title
                rich_meta w) as Hcov. fold r in Hcov.
  eapply Forall_impl; [exact (Hcov Hrun)|]. intros c [Hc | (e & He & Hne)]; [exact Hc|].
  rewrite Forall_forall in Hall. apply list_elem_of_In in He.
  specialize (Hall (c, e) He). simpl in Hall. contradiction.
Qed.

Lemma completed_run_idempotent_witness :
  let r := download_chapters obliging "folder" lenient number_five one_good_page [chapter_5]
             "downloads/One Piece" "One Piece" None fresh in
  ends r = [(chapter_5, Completed)] /\ crashed r = false /\
  let r' := download_chapters obliging "folder" lenient number_five two_dead_pages
              [chapter_5] "downloads/One Piece" "One Piece" None (final r) in
  ends r' = [] /\ final r' = final r.
Proof.
  intros r. split; [vm_compute; reflexivity|]. split; [vm_compute; reflexivity|].
  apply (completed_run_idempotent obliging obliging "folder" lenient number_five
           one_good_page two_dead_pages
           [chapter_5] "downloads/One Piece" "One Piece" None fresh).
  - vm_compute. reflexivity.
  - repeat constructor.
Defined.

(** ** Trimming *)

Lemma lstrip_idem (s : string) : lstrip (lstrip s) = lstrip s.
Proof.
  induction s as [|c s IH]; [reflexivity|]. simpl.
  destruct (isspace c) eqn:Hc; [exact IH|]. simpl. now rewrite Hc.
Qed.

Lemma rstrip_idem (s : string) : rstrip (rstrip s) = rstrip s.
Proof.
  induction s as [|c s IH]; [reflexivity|]. simpl.
  destruct (rstrip s) as [|c' r] eqn:Hr.
  - destruct (isspace c) eqn:Hc; [reflexivity|]. simpl. now rewrite Hc.
  - simpl in *. now rewrite IH.
Qed.

Lemma rstrip_head (c : ascii) (s : string) :
  isspace c = false -> exists r, rstrip (String c s) = String c r.
Proof.
  intros Hc. simpl. destruct (rstrip s); [rewrite Hc|]; eauto.
Qed.

Lemma lstrip_head (s : string) :
  lstrip s = "" \/ exists c r, lstrip s = String c r /\ isspace c = false.
Proof.
  induction s as [|c s IH]; [now left|]. simpl.
  destruct (isspace c) eqn:Hc; [exact IH|]. right. eauto.
Qed.

Lemma strip_idem (s : string) : strip (strip s) = strip s.
Proof.
  unfold strip. destruct (lstrip_head s) as [-> | (c & r & -> & Hc)]; [reflexivity|].
  destruct (rstrip_head c r Hc) as [r' Hr]. rewrite Hr.
  assert (Hl : lstrip (String c r') = String c r') by (simpl; now rewrite Hc).
  rewrite Hl, <- Hr. apply rstrip_idem.
Qed.

Lemma rstrip_last (s : string) :
  rstrip s = "" \/ exists z, last_char (rstrip s) = Some z /\ isspace z = false.
Proof.
  induction s as [|c s IH]; [now left|]. simpl.
  destruct (rstrip s) as [|c' r] eqn:Hr.
  - destruct (isspace c) eqn:Hc; [now left|]. right. exists c. now split.
  - right. destruct IH as [IH | (z & Hz & Hs)]; [discriminate|].
    exists z. split; [|exact Hs]. exact Hz.
Qed.

Lemma strip_trimmed (s : string) : trimmed (strip s).
Proof.
  unfold strip, trimmed.
  destruct (lstrip_head s) as [-> | (c & r & -> & Hc)]; [exact I|].
  destruct (rstrip_head c r Hc) as [r' Hr].
  destruct (rstrip_last (String c r)) as [E | Hlast]; [rewrite Hr in E; discriminate|].
  rewrite Hr in *. split; assumption.
Qed.

Lemma lstrip_chars (f : ascii -> bool) (s : string) :
  all_chars f s = true -> all_chars f (lstrip s) = true.
Proof.
  induction s as [|c s IH]; [reflexivity|]. simpl. intros H.
  apply andb_true_iff in H as [Hc Hs].
  destruct (isspace c); [now apply IH|]. simpl. now rewrite Hc, Hs.
Qed.

Lemma rstrip_chars (f : ascii -> bool) (s : string) :
  all_chars f s = true -> all_chars f (rstrip s) = true.
Proof.
  induction s as [|c s IH]; [reflexivity|]. simpl. intros H.
  apply andb_true_iff in H as [Hc Hs]. specialize (IH Hs).
  destruct (rstrip s) as [|c' r].
  - destruct (isspace c); [reflexivity|]. simpl. now rewrite Hc.
  - simpl in *. now rewrite Hc, IH.
Qed.

Lemma strip_chars (f : ascii -> bool) (s : string) :
  all_chars f s = true -> all_chars f (strip s) = true.
Proof. intros H. unfold strip. now apply rstrip_chars, lstrip_chars. Qed.

Lemma rstrip_of_last (s : string) :
  (exists z, last_char s = Some z /\ isspace z = false) -> rstrip s = s.
Proof.
  induction s as [|c s IH]; intros (z & Hz & Hs); [discriminate|].
  destruct s as [|c' s].
  - simpl in Hz. injection Hz as ->. simpl. now rewrite Hs.
  - change (rstrip (String c (String c' s)))
      with (match rstrip (String c' s) with
            | "" => if isspace c then "" else String c ""
            | r => String c r
            end).
    rewrite IH; [reflexivity|]. exists z. split; [exact Hz | exact Hs].
Qed.

(** A string without white space at either end is left as it is. *)
Lemma strip_of_trimmed (s : string) : trimmed s -> strip s = s.
Proof.
  unfold trimmed, strip. destruct s as [|c s]; [reflexivity|].
  intros (Hc & Hlast). simpl lstrip. rewrite Hc. now apply rstrip_of_last.
Qed.

(** X7. [_sanitize_url] gives a URL without white space at either end, it
    leaves such a URL as it is, and applying it twice is applying it once;
    so [download_image] does the same on a URL and on the URL already
    trimmed. *)
Theorem sanitize_url_normal_form (env : Fetcher.environment) (s : Fetcher.session)
  (url save_path : string) (hint : option string) :
  trimmed (Fetcher._sanitize_url url) /\
  Fetcher._sanitize_url (Fetcher._sanitize_url url) = Fetcher._sanitize_url url /\
  (trimmed url -> Fetcher._sanitize_url url = url) /\
  Fetcher.download_image env s (Fetcher._sanitize_url url) save_path hint
  = Fetcher.download_image env s url save_path hint.
Proof.
  unfold Fetcher._sanitize_url. split; [apply strip_trimmed|].
  split; [apply strip_idem|]. split; [apply strip_of_trimmed|].
  unfold Fetcher.download_image, Fetcher._sanitize_url. now rewrite strip_idem.
Qed.

(** ** The names of folders and files *)

Lemma keep_chars (f : ascii -> bool) (s : string) : all_chars f (keep f s) = true.
Proof.
  induction s as [|c s IH]; [reflexivity|]. simpl.
  destruct (f c) eqn:Hc; [|exact IH]. simpl. now rewrite Hc.
Qed.

Lemma keep_all (f : ascii -> bool) (s : string) : all_chars f s = true -> keep f s = s.
Proof.
  induction s as [|c s IH]; [reflexivity|]. simpl. intros H.
  apply andb_true_iff in H as [-> Hs]. now rewrite (IH Hs).
Qed.

Lemma sanitize_chars (t : string) : all_chars title_char (sanitize t) = true.
Proof. unfold sanitize. apply strip_chars. apply (keep_chars title_char). Qed.

Lemma contains_char_cons (x c : ascii) (s : string) :
  contains (String x "") (String c s) = Ascii.eqb x c || contains (String x "") s.
Proof. simpl. now destruct (Ascii.eqb x c). Qed.

Lemma startswith_char_cons (x c : ascii) (s : string) :
  startswith (String x "") (String c s) = Ascii.eqb x c.
Proof. simpl. now destruct (Ascii.eqb x c). Qed.

(** X8. A sanitized title has only alphanumeric characters, blanks, hyphens
    and underscores, and no white space at either end; sanitizing it again
    changes nothing.  It has no slash, so under a series folder that is not
    empty and does not end with a slash the chapter folder is the series
    folder, a slash, and the sanitized title: a title cannot lead out of
    the series folder. *)
Theorem sanitized_title_safe (parent_path : string) (chap : chapter) :
  all_chars title_char (sanitize (title chap)) = true /\
  trimmed (sanitize (title chap)) /\
  sanitize (sanitize (title chap)) = sanitize (title chap) /\
  contains "/" (sanitize (title chap)) = false /\
  (parent_path <> "" -> endswith "/" parent_path = false ->
   chapter_folder parent_path chap = parent_path +:+ "/" +:+ sanitize (title chap)).
Proof.
  pose proof (sanitize_chars (title chap)) as Hchars.
  split; [exact Hchars|]. split; [apply strip_trimmed|]. split; [|split].
  - unfold sanitize at 1. fold title_char.
    change (keep _ (sanitize (title chap))) with (keep title_char (sanitize (title chap))).
    rewrite (keep_all title_char _ Hchars). unfold sanitize. apply strip_idem.
  - induction (sanitize (title chap)) as [|c s IH]; [reflexivity|].
    simpl in Hchars. apply andb_true_iff in Hchars as [Hc Hs].
    rewrite contains_char_cons, (IH Hs).
    destruct (Ascii.eqb_spec "/" c) as [<-|]; [discriminate Hc | reflexivity].
  - intros Hne Hend. unfold chapter_folder, os_path_join. rewrite Hend.
    destruct (sanitize (title chap)) as [|c s] eqn:Hs.
    + simpl. destruct parent_path; [congruence | reflexivity].
    + simpl in Hchars. apply andb_true_iff in Hchars as [Hc _].
      rewrite startswith_char_cons.
      destruct (Ascii.eqb_spec "/" c) as [<-|]; [discriminate Hc|].
      destruct parent_path; [congruence | reflexivity].
Qed.

Lemma sanitized_title_safe_witness :
  chapter_folder "downloads/One Piece" {| title := "../../etc: Chapter 5?"; url := "" |}
  = "downloads/One Piece/etc Chapter 5".
Proof.
  rewrite (proj2 (proj2 (proj2 (proj2
             (sanitized_title_safe "downloads/One Piece"
                {| title := "../../etc: Chapter 5?"; url := "" |}))))).
  - reflexivity.
  - discriminate.
  - reflexivity.
Defined.

Lemma uint_digits (d : Decimal.uint) :
  all_chars isdigit (NilEmpty.string_of_uint d) = true.
Proof. induction d; simpl; try reflexivity; exact IHd. Qed.

Lemma zeros_digits (k : nat) : all_chars isdigit (zeros k) = true.
Proof. induction k; [reflexivity | exact IHk]. Qed.

Lemma pad3_digits (n : nat) : all_chars isdigit (pad3 n) = true.
Proof.
  unfold pad3. rewrite all_chars_app, zeros_digits. simpl.
  unfold NilZero.string_of_uint. destruct (Nat.to_uint n); try reflexivity; apply uint_digits.
Qed.

Lemma uint_of_zeros (k : nat) (s : string) :
  option_map Nat.of_uint (NilEmpty.uint_of_string (zeros k +:+ s))
  = option_map Nat.of_uint (NilEmpty.uint_of_string s).
Proof.
  induction k as [|k IH]; [reflexivity|].
  change (zeros (S k) +:+ s) with (String "0" (zeros k +:+ s)).
  simpl NilEmpty.uint_of_string. rewrite <- IH.
  now destruct (NilEmpty.uint_of_string (zeros k +:+ s)).
Qed.

(** The number of a page is read back from its three digits or more. *)
Lemma page_number_pad3 (n : nat) : page_number (pad3 n) = Some n.
Proof.
  unfold page_number, pad3. rewrite uint_of_zeros.
  rewrite <- (DecimalNat.Unsigned.of_to n) at 2.
  unfold NilZero.string_of_uint.
  destruct (Nat.to_uint n) eqn:Hn; try reflexivity;
    rewrite <- Hn at 1; rewrite Hn; rewrite NilEmpty.usu; reflexivity.
Qed.

Lemma page_file_inj (i j : nat) (u u' : string) :
  page_file i u = page_file j u' -> i = j.
Proof.
  unfold page_file. intros H.
  assert (Hs : forall n e, span_digits (pad3 n +:+ "." +:+ e) = (pad3 n, "." +:+ e))
    by (intros n e; apply span_digits_app; [apply pad3_digits | reflexivity]).
  pose proof (Hs (i + 1)%nat (page_ext u)) as Hi. rewrite H, Hs in Hi.
  injection Hi as Hp _.
  pose proof (page_number_pad3 (i + 1)) as Ni. rewrite <- Hp, page_number_pad3 in Ni.
  injection Ni as Ni. lia.
Qed.

(** The folder after the downloads of the pages [idx], [idx + 1], ..., each
    run to its end. *)
Lemma downloads_files (ex : extractor) (pages : list string) :
  forall (idx : nat) (files : listing),
  let files' := snd (downloads ex idx pages files) in
  (forall i img_url d,
     pages !! i = Some img_url -> fetch_page ex img_url = PageSaved d ->
     read_file (page_file (idx + i) img_url) files' = Some d) /\
  (forall i img_url,
     pages !! i = Some img_url -> (forall d, fetch_page ex img_url <> PageSaved d) ->
     read_file (page_file (idx + i) img_url) files'
     = read_file (page_file (idx + i) img_url) files) /\
  (forall n,
     (forall i img_url, pages !! i = Some img_url -> n <> page_file (idx + i) img_url) ->
     read_file n files' = read_file n files).
Proof.
  induction pages as [|u pages IH]; intros idx files.
  - simpl. repeat split; intros; try discriminate; reflexivity.
  - simpl downloads. fold (page_file idx u).
    destruct (Core.download_image ex u (page_file idx u) files) as [r files1] eqn:Hd.
    specialize (IH (S idx) files1).
    destruct (downloads ex (S idx) pages files1) as [rs files2]. simpl in IH. simpl.
    destruct IH as (Hsaved & Hfailed & Hother).
    assert (Hfirst : read_file (page_file idx u) files2 = read_file (page_file idx u) files1).
    { apply Hother. intros i v _ E. apply page_file_inj in E. lia. }
    assert (Hwrite : forall n, n <> page_file idx u -> read_file n files1 = read_file n files).
    { intros n Hn. unfold Core.download_image in Hd.
      destruct (fetch_page ex u); injection Hd as _ <-; try reflexivity.
      rewrite read_file_write. destruct (String.eqb_spec (page_file idx u) n);
        [congruence | reflexivity]. }
    split; [|split].
    + intros [|i] v d Hv Hf; simpl in Hv.
      * injection Hv as ->. rewrite Nat.add_0_r, Hfirst.
        unfold Core.download_image in Hd. rewrite Hf in Hd. injection Hd as _ <-.
        rewrite read_file_write. now rewrite String.eqb_refl.
      * rewrite Nat.add_succ_r. now apply (Hsaved i v d).
    + intros [|i] v Hv Hf; simpl in Hv.
      * injection Hv as <-. rewrite Nat.add_0_r, Hfirst.
        unfold Core.download_image in Hd.
        destruct (fetch_page ex u) as [d| |] eqn:E; injection Hd as _ <-;
          try reflexivity. now destruct (Hf d).
      * rewrite Nat.add_succ_r. rewrite (Hfailed i v Hv Hf).
        apply Hwrite. intros E. apply page_file_inj in E. lia.
    + intros n Hn. rewrite Hother.
      * apply Hwrite. specialize (Hn 0%nat u eq_refl). now rewrite Nat.add_0_r in Hn.
      * intros i v Hv. specialize (Hn (S i) v Hv). now rewrite Nat.add_succ_r in Hn.
Qed.

Lemma string_length_app (a b : string) :
  String.length (a +:+ b) = (String.length a + String.length b)%nat.
Proof.
  induction a as [|c a IH]; [reflexivity|].
  rewrite append_cons. simpl. now rewrite IH.
Qed.

Lemma zeros_length (k : nat) : String.length (zeros k) = k.
Proof. induction k; simpl; congruence. Qed.

(** X9. The name of a page file is the page number on three digits at
    least, padded with zeros, and its extension: the number is read back
    from the digits, and two pages of a chapter never have the same file
    name, so no download overwrites the file of another page. *)
Theorem page_files_distinct (n : nat) :
  page_number (pad3 n) = Some n /\
  all_chars isdigit (pad3 n) = true /\
  (3 <= String.length (pad3 n))%nat /\
  forall i j u u', page_file i u = page_file j u' -> i = j.
Proof.
  split; [apply page_number_pad3|]. split; [apply pad3_digits|]. split.
  - unfold pad3. rewrite string_length_app, zeros_length. lia.
  - apply page_file_inj.
Qed.

(** X10. When no download of a chapter raises, [asyncio.gather] returns
    the results of all of them, and then the file of every page that was
    saved holds that page, the file of a page that failed is as it was
    before, and so is every other file of the folder. *)
Theorem gather_saves_pages (pf : platform) (ex : extractor) (pages : list string)
  (files : listing) :
  Forall (fun u => fetch_page ex u <> PageRaised) pages ->
  let files' := snd (gather pf ex pages files) in
  (exists results, fst (gather pf ex pages files) = Returned results) /\
  (forall i img_url d,
     pages !! i = Some img_url -> fetch_page ex img_url = PageSaved d ->
     read_file (page_file i img_url) files' = Some d) /\
  (forall i img_url,
     pages !! i = Some img_url -> (forall d, fetch_page ex img_url <> PageSaved d) ->
     read_file (page_file i img_url) files' = read_file (page_file i img_url) files) /\
  (forall n,
     (forall i img_url, pages !! i = Some img_url -> n <> page_file i img_url) ->
     read_file n files' = read_file n files).
Proof.
  intros Hok. destruct (gather_no_raise pf ex pages files Hok) as [results Hg].
  rewrite Hg. cbn [fst snd]. split; [now exists results|].
  exact (downloads_files ex pages 0 files).
Qed.

Lemma gather_saves_pages_witness :
  let files' := snd (gather obliging one_good_page ["https://cdn.example.org/c5/1.png"] []) in
  read_file "001.png" files' = Some "png 1".
Proof.
  intros files'.
  destruct (gather_saves_pages obliging one_good_page ["https://cdn.example.org/c5/1.png"] [])
    as (_ & Hsaved & _).
  - repeat constructor. discriminate.
  - exact (Hsaved 0%nat "https://cdn.example.org/c5/1.png" "png 1" eq_refl eq_refl).
Defined.

(** The file of a page is no packaged chapter. *)
Lemma page_file_not_packaged (idx : nat) (img_url : string) :
  is_packaged (page_file idx img_url) = false.
Proof.
  unfold is_packaged, page_file, endswith, page_ext. rewrite !rev_string_app.
  destruct (contains ".png" _); [reflexivity|].
  destruct (contains ".webp" _); reflexivity.
Qed.

Lemma write_file_not_packaged (name : string) (d : data) (files : listing) :
  is_packaged name = false ->
  List.filter (fun p => is_packaged (fst p)) (write_file name d files) =
  List.filter (fun p => is_packaged (fst p)) files.
Proof.
  intros Hn. induction files as [|[m d0] files IH]; simpl.
  - now rewrite Hn.
  - destruct (String.eqb_spec m name) as [->|]; simpl.
    + now rewrite Hn.
    + now rewrite IH.
Qed.

Lemma download_image_packaged (ex : extractor) (idx : nat) (img_url : string)
  (files : listing) :
  List.filter (fun p => is_packaged (fst p))
    (snd (Core.download_image ex img_url (page_file idx img_url) files)) =
  List.filter (fun p => is_packaged (fst p)) files.
Proof.
  unfold Core.download_image. destruct (fetch_page ex img_url); try reflexivity.
  apply write_file_not_packaged, page_file_not_packaged.
Qed.

(** The downloads leave the packaged chapters as they were. *)
Lemma gather_packaged (pf : platform) (ex : extractor) (pages : list string)
  (files : listing) :
  List.filter (fun p => is_packaged (fst p)) (snd (gather pf ex pages files)) =
  List.filter (fun p => is_packaged (fst p)) files.
Proof.
  unfold gather. destruct (existsb (raises ex) pages); cbn [snd]; generalize 0%nat;
    revert files; induction pages as [|u pages IH]; intros files idx; try reflexivity.
  - cbn [landed]. fold (page_file idx u). rewrite IH.
    destruct (lands pf idx); [apply download_image_packaged | reflexivity].
  - cbn [downloads]. fold (page_file idx u).
    pose proof (download_image_packaged ex idx u files) as Hd.
    destruct (Core.download_image ex u (page_file idx u) files) as [r files1].
    specialize (IH files1 (S idx)).
    destruct (downloads ex (S idx) pages files1) as [rs files2]. simpl in *.
    now rewrite IH.
Qed.

Lemma folder_at_set_folder (name : string) (t : tree) (w : world) :
  folder_at name (set_folder name t w) = Some t.
Proof.
  unfold folder_at, set_folder. simpl.
  destruct (String.eqb name ""); [reflexivity|]. simpl. apply read_subdir_write.
Qed.

(** The packaged chapters once the files of the downloads are in the
    folder of the chapter. *)
Lemma outputs_after_gather (pf : platform) (ex : extractor) (pages : list string)
  (name : string) (files : listing) (subdirs : list (string * tree)) (w w1 : world) :
  makedirs pf name w = Returned (Dir files subdirs, w1) ->
  outputs (set_folder name (Dir (snd (gather pf ex pages files)) subdirs) w1) = outputs w.
Proof.
  intros Hm. pose proof (makedirs_returned _ _ _ _ _ Hm) as (_ & Hfiles & Hat & _).
  rewrite outputs_set_folder. destruct (String.eqb_spec name "") as [->|_].
  - simpl. rewrite gather_packaged. rewrite folder_at_root in Hat. injection Hat as Hat.
    unfold outputs. now rewrite <- Hfiles, Hat.
  - unfold outputs. now rewrite Hfiles.
Qed.

(** X11. In a format that is neither pdf nor cbz, a chapter whose folder is
    there or can be made, with pages none of whose downloads raises, ends
    completed, whether the downloads succeeded or not; nothing is
    packaged, and its folder stays, with the file of every page that was
    saved. *)
Theorem folder_format_keeps_pages (pf : platform) (format : string) (cd : codecs)
  (tp : title_parser) (ex : extractor) (chap : chapter) (parent_path manga_title : string)
  (rich_meta : option metadata) (w w1 : world) (folder : tree) (pages : list string) :
  format <> "pdf" -> format <> "cbz" ->
  makedirs pf (sanitize (title chap)) w = Returned (folder, w1) ->
  get_pages ex (Core.url chap) = Returned pages -> pages <> [] ->
  Forall (fun u => fetch_page ex u <> PageRaised) pages ->
  let r := _download_single_chapter pf format cd tp ex chap parent_path manga_title
             rich_meta w in
  exists files subdirs,
    ended r = Completed /\
    outputs (after r) = outputs w /\
    is_completed (db (after r)) manga_title (title chap) = true /\
    folder_at (sanitize (title chap)) (after r) = Some (Dir files subdirs) /\
    forall i img_url d,
      pages !! i = Some img_url -> fetch_page ex img_url = PageSaved d ->
      read_file (page_file i img_url) files = Some d.
Proof.
  intros Hpdf Hcbz Hm Hp Hne Hok r. destruct folder as [files subdirs].
  destruct (gather_no_raise pf ex pages files Hok) as [results Hg].
  pose proof (chapter_packaging pf format cd tp ex chap parent_path manga_title rich_meta
                w w1 files _ subdirs pages results Hm Hp Hne Hg) as Hr.
  fold r in Hr. cbv zeta in Hr.
  apply String.eqb_neq in Hpdf, Hcbz. rewrite Hpdf, Hcbz in Hr. rewrite Hr.
  match goal with
  | |- context [finish ?pf ?c ?m ?fm ?w0] =>
      destruct (finish_effect pf c m fm w0) as [-> ->]
  end.
  exists (snd (downloads ex 0 pages files)), subdirs.
  split; [reflexivity|]. split; [|split; [apply marked_is_completed|split]].
  - pose proof (outputs_after_gather pf ex pages _ _ _ _ _ Hm) as Ho.
    rewrite Hg in Ho. exact Ho.
  - apply (folder_at_set_folder (sanitize (title chap)) _ w1).
  - exact (proj1 (downloads_files ex pages 0 files)).
Qed.

Lemma folder_format_keeps_pages_witness :
  let r := _download_single_chapter obliging "folder" lenient number_five one_good_page
             chapter_5 "downloads/One Piece" "One Piece" None fresh in
  exists files subdirs,
    ended r = Completed /\
    folder_at "Chapter 5" (after r) = Some (Dir files subdirs) /\
    read_file "001.png" files = Some "png 1".
Proof.
  intros r.
  destruct (folder_format_keeps_pages obliging "folder" lenient number_five one_good_page
              chapter_5 "downloads/One Piece" "One Piece" None fresh
              (set_folder "Chapter 5" (Dir [] []) fresh) (Dir [] [])
              ["https://cdn.example.org/c5/1.png"])
    as (files & subdirs & Hrun & _ & _ & Hfolder & Hsaved).
  - discriminate.
  - discriminate.
  - reflexivity.
  - reflexivity.
  - discriminate.
  - repeat constructor. discriminate.
  - exists files, subdirs. split; [exact Hrun|]. split; [exact Hfolder|].
    exact (Hsaved 0%nat "https://cdn.example.org/c5/1.png" "png 1" eq_refl eq_refl).
Defined.

(** X12. When the download of a page raises, the chapter is not marked
    completed and nothing is packaged, in every format; when its folder
    was there or could be made, the chapter ends in the [except]
    branch. *)
Theorem raised_download_fails_chapter (pf : platform) (format : string) (cd : codecs)
  (tp : title_parser) (ex : extractor) (chap : chapter) (parent_path manga_title : string)
  (rich_meta : option metadata) (w : world) (pages : list string) (img_url : string) :
  get_pages ex (Core.url chap) = Returned pages ->
  In img_url pages -> fetch_page ex img_url = PageRaised ->
  let r := _download_single_chapter pf format cd tp ex chap parent_path manga_title
             rich_meta w in
  (makedirs pf (sanitize (title chap)) w <> Raised -> ended r = Failed) /\
  db (after r) = db w /\ outputs (after r) = outputs w.
Proof.
  intros Hp Hin Hraise.
  assert (Hg : forall files, fst (gather pf ex pages files) = Raised).
  { intros files. unfold gather.
    assert (Hr : existsb (raises ex) pages = true).
    { apply existsb_exists. exists img_url. split; [exact Hin|].
      unfold raises. now rewrite Hraise. }
    now rewrite Hr. }
  unfold _download_single_chapter.
  destruct (makedirs pf (sanitize (title chap)) w) as [[[files subdirs] w1]|] eqn:Hm;
    [|repeat split; congruence].
  pose proof (makedirs_returned _ _ _ _ _ Hm) as (Hdb & _).
  pose proof (outputs_after_gather pf ex pages _ _ _ _ _ Hm) as Ho.
  rewrite Hp. destruct pages as [|p pages]; [destruct Hin|].
  specialize (Hg files).
  destruct (gather pf ex (p :: pages) files) as [results files']. simpl in Hg, Ho.
  subst results. repeat split; assumption.
Qed.

Lemma raised_download_fails_chapter_witness :
  let ex := {| get_pages := fun _ => Returned ["https://cdn.example.org/c5/1.png"];
               fetch_page := fun _ => PageRaised |} in
  ended (_download_single_chapter obliging "folder" lenient number_five ex chapter_5
           "downloads/One Piece" "One Piece" None fresh) = Failed.
Proof.
  intros ex.
  exact (proj1 (raised_download_fails_chapter obliging "folder" lenient number_five ex
                  chapter_5 "downloads/One Piece" "One Piece" None fresh
                  ["https://cdn.example.org/c5/1.png"] "https://cdn.example.org/c5/1.png"
                  eq_refl (or_introl eq_refl) eq_refl)
               ltac:(discriminate)).
Defined.

(** ** More on the resolver *)

Section ResolverMore.

Import Resolver.

Lemma fuzzy_scan_never (bad : forall X, request X -> bool) (clean : string)
  (items : sites_config) (matches : list (float * string * string)) :
  (forall a b, bad _ (Ratio a b) = false) ->
  never bad (fuzzy_scan clean items matches).
Proof.
  intros Hbad. revert matches. induction items as [|[key data] items IH]; intros matches.
  - exact I.
  - simpl. split; [apply Hbad|]. intros rk. split; [apply Hbad|]. intros rn.
    destruct (flt _ _); [|apply IH].
    destruct (name data); [apply IH | exact I].
Qed.

(** X13. The resolver prompts with one to five candidates, never with none
    and never with more, whatever the input, the table and the answers to
    its requests. *)
Theorem prompt_offers_one_to_five (unquote : string -> string) (mirror_hunter : bool)
  (config : sites_config) (input : string) :
  never (@bad_prompt) (_resolve_target unquote mirror_hunter config input).
Proof.
  unfold _resolve_target. destruct (startswith "http" input); [exact I|].
  destruct (has_key config _); [apply finalize_quiet; reflexivity|].
  apply never_bind; [apply fuzzy_scan_never; reflexivity|].
  intros [found|]; [|exact I].
  destruct (sort_matches found) as [|[[top_score top_key] top_name] others] eqn:Hs; [exact I|].
  destruct (fle (of_Z 80) top_score); [apply finalize_quiet; reflexivity|].
  simpl. split.
  - destruct others as [|? [|? [|? [|? others]]]]; reflexivity.
  - intros [|i]; [exact I|].
    destruct (_ !! i) as [[[? key] ?]|]; [apply finalize_quiet; reflexivity | exact I].
Qed.

Lemma never_calls {A : Type} (bad : forall X, request X -> bool) (P : call -> Prop)
  (o : oracle) (p : prog A) :
  (forall X (e : request X), bad X e = false -> P (call_of e)) ->
  never bad p -> Forall P (snd (run o p)).
Proof.
  intros HP. induction p as [a|X e k IH]; simpl; intros Hn.
  - constructor.
  - destruct Hn as [He Hk]. specialize (IH (answer o e) (Hk _)).
    destruct (run o (k (answer o e))) as [a calls]. simpl in *.
    constructor; [now apply HP | assumption].
Qed.

Lemma fuzzy_scan_calls (o : oracle) (clean : string) (items : sites_config)
  (matches : list (float * string * string)) :
  Forall (fun c => ~ is_ask_call c) (snd (run o (fuzzy_scan clean items matches))).
Proof.
  apply (never_calls (@is_ask)).
  - intros X [a b|d p|n]; simpl; intros H; try discriminate; tauto.
  - now apply fuzzy_scan_never.
Qed.

Lemma finalize_calls (o : oracle) (mirror_hunter : bool) (config : sites_config)
  (key : string) :
  Forall (fun c => ~ is_ask_call c) (snd (run o (_finalize_target mirror_hunter config key))).
Proof.
  apply (never_calls (@is_ask)).
  - intros X [a b|d p|n]; simpl; intros H; try discriminate; tauto.
  - now apply finalize_quiet.
Qed.

(** X14. When the user answers the prompt with 0, the resolver returns
    [None] and the prompt is its last request: nothing is finalized, no
    mirror is looked for. *)
Theorem cancelled_prompt_resolves_to_none (o : oracle) (unquote : string -> string)
  (mirror_hunter : bool) (config : sites_config) (input : string) (n : nat) :
  In (CAsk n) (snd (run o (_resolve_target unquote mirror_hunter config input))) ->
  prompt o n = 0%nat ->
  fst (run o (_resolve_target unquote mirror_hunter config input)) = Returned None /\
  last (snd (run o (_resolve_target unquote mirror_hunter config input))) = Some (CAsk n).
Proof.
  unfold _resolve_target. destruct (startswith "http" input); [intros []|].
  destruct (has_key config _).
  { intros Hin _. exfalso.
    pose proof (finalize_calls o mirror_hunter config
                  (lower (strip (unquote input)))) as Hf.
    rewrite List.Forall_forall in Hf. now apply (Hf _ Hin). }
  rewrite run_bind. pose proof (fuzzy_scan_calls o (lower (strip (unquote input))) config [])
    as Hscan.
  destruct (run o (fuzzy_scan _ config [])) as [scanned calls1]. simpl in Hscan.
  assert (Hnot : ~ In (CAsk n) calls1).
  { intros Hin. rewrite List.Forall_forall in Hscan. now apply (Hscan _ Hin). }
  destruct scanned as [found|]; [|simpl; rewrite app_nil_r; intros Hin; now destruct Hnot].
  destruct (sort_matches found) as [|[[top_score top_key] top_name] others];
    [simpl; rewrite app_nil_r; intros Hin; now destruct Hnot|].
  destruct (fle (of_Z 80) top_score).
  { pose proof (finalize_calls o mirror_hunter config top_key) as Hf.
    destruct (run o (_finalize_target mirror_hunter config top_key)) as [r calls2].
    simpl in *. intros Hin _. exfalso. apply in_app_or in Hin as [Hin|Hin]; [tauto|].
    rewrite List.Forall_forall in Hf. now apply (Hf _ Hin). }
  set (options := take 5 ((top_score, top_key, top_name) :: others)).
  cbn [mbind prog_mbind prog_bind ask run answer call_of].
  change (prog_bind (Ret (prompt o (length options))) ?f) with (f (prompt o (length options))).
  destruct (prompt o (length options)) as [|i] eqn:Hans.
  - simpl. intros Hin Hzero. split; [reflexivity|]. 
    apply in_app_or in Hin as [Hin|[Hin|[]]]; [tauto|]. injection Hin as <-.
    apply last_snoc.
  - assert (Hf : Forall (fun c => ~ is_ask_call c) (snd (run o
               (match options !! i with
                | Some (_, selected_key, _) =>
                    _finalize_target mirror_hunter config selected_key
                | None => mret Raised
                end : prog (outcome (option string)))))).
    { destruct (options !! i) as [[[? k] ?]|]; [apply finalize_calls | constructor]. }
    destruct (run o _) as [r calls2]. simpl in *. intros Hin Hzero. exfalso.
    apply in_app_or in Hin as [Hin|[Hin|Hin]]; [tauto| |].
    + injection Hin as <-. congruence.
    + rewrite List.Forall_forall in Hf. now apply (Hf _ Hin).
Qed.

Lemma cancelled_prompt_resolves_to_none_witness :
  fst (run half_alike (_resolve_target unquote_plain false one_site "one piec"))
  = Returned None.
Proof.
  refine (proj1 (cancelled_prompt_resolves_to_none half_alike unquote_plain false one_site
                   "one piec" 1 _ _)).
  - vm_compute. right. right. left. reflexivity.
  - reflexivity.
Defined.

(** X15. A site without a ['name'] that scores above 40 makes the fuzzy
    search raise ([data['name']] is a [KeyError]), wherever it stands in
    the table and whatever the other sites are. *)
Theorem nameless_candidate_raises (o : oracle) (unquote : string -> string)
  (mirror_hunter : bool) (config : sites_config) (input : string)
  (key : string) (data : site) :
  startswith "http" input = false ->
  has_key config (lower (strip (unquote input))) = false ->
  In (key, data) config -> name data = None ->
  flt (of_Z 40) (candidate_score o (lower (strip (unquote input))) (key, data)) = true ->
  fst (run o (_resolve_target unquote mirror_hunter config input)) = Raised.
Proof.
  intros Hhttp Hkey Hin Hname Hscore. unfold _resolve_target. rewrite Hhttp, Hkey.
  rewrite run_bind.
  assert (Hscan : forall matches,
            fst (run o (fuzzy_scan (lower (strip (unquote input))) config matches)) = Raised).
  { clear Hkey. induction config as [|[k d] items IH]; intros matches; [destruct Hin|].
    cbn [fuzzy_scan mbind prog_mbind prog_bind ask run answer call_of].
    match goal with
    | |- context [run o ?p] =>
        assert (Hp : fst (run o p) = Raised); [|now destruct (run o p)]
    end.
    cbn [prog_bind].
    match goal with
    | |- context [run o ?p] =>
        assert (Hp : fst (run o p) = Raised); [|now destruct (run o p)]
    end.
    cbn [prog_bind].
    destruct Hin as [Heq|Hin].
    - injection Heq as -> ->. unfold candidate_score in Hscore. cbn [fst snd] in Hscore.
      cbv zeta. rewrite Hscore, Hname. reflexivity.
    - cbv zeta. destruct (flt _ (score_of (ratio o _ k) _)); [|now apply IH].
      destruct (name d); [now apply IH | reflexivity]. }
  specialize (Hscan []).
  destruct (run o (fuzzy_scan _ config [])) as [scanned calls1]. simpl in Hscan.
  subst scanned. reflexivity.
Qed.

Lemma nameless_candidate_raises_witness :
  fst (run half_alike (_resolve_target unquote_plain false nameless "one piec")) = Raised.
Proof.
  apply (nameless_candidate_raises half_alike unquote_plain false nameless "one piec"
           "one-piece" (snd (hd ("", one_piece) nameless)));
    [reflexivity | reflexivity | left; reflexivity | reflexivity | vm_compute; reflexivity].
Defined.

End ResolverMore.

(** ** The order of scores *)





Section SortOn.

Context {A : Type}.
Variable le : A -> A -> bool.
Variable P : A -> Prop.

Hypothesis le_total : forall x y, le x y = true \/ le y x = true.
Hypothesis le_trans : forall x y z, P x -> P y -> P z ->
  le x y = true -> le y z = true -> le x z = true.

Lemma insert_by_Forall (Q : A -> Prop) (x : A) (l : list A) :
  Q x -> Forall Q l -> Forall Q (insert_by le x l).
Proof. intros Hx Hl. rewrite (insert_by_perm le x l). now constructor. Qed.



End SortOn.


Section ResolverRanking.

Import Resolver.




End ResolverRanking.

(** ** Replacement *)

Lemma drop_prefix_app (p s : string) : drop_prefix p (p +:+ s) = Some s.
Proof.
  induction p as [|c p IH]; [reflexivity|].
  rewrite append_cons. simpl. now rewrite Ascii.eqb_refl.
Qed.

Lemma replace_fuel_absent (fuel : nat) (c : ascii) (old' new s : string) :
  Spec.all_chars (fun x => negb (Ascii.eqb c x)) s = true ->
  replace_fuel fuel (String c old') new s = s.
Proof.
  revert fuel. induction s as [|b s IH]; intros [|fuel] Hs; try reflexivity.
  simpl in Hs. apply andb_true_iff in Hs as [Hb Hs]. apply negb_true_iff in Hb.
  simpl. rewrite Hb. now rewrite IH.
Qed.

Lemma replace_fuel_first (fuel : nat) (c : ascii) (old' new pre post : string) :
  Spec.all_chars (fun x => negb (Ascii.eqb c x)) pre = true ->
  (String.length pre < fuel)%nat ->
  replace_fuel fuel (String c old') new (pre +:+ String c old' +:+ post) =
  pre +:+ new +:+ replace_fuel (fuel - String.length pre - 1) (String c old') new post.
Proof.
  revert fuel. induction pre as [|b pre IH]; intros [|fuel] Hpre Hfuel;
    try (simpl in Hfuel; lia).
  - rewrite !append_empty_l. cbn [replace_fuel]. rewrite drop_prefix_app.
    now replace (S fuel - String.length "" - 1)%nat with fuel by (simpl; lia).
  - simpl in Hpre. apply andb_true_iff in Hpre as [Hb Hpre]. apply negb_true_iff in Hb.
    rewrite !append_cons. cbn [replace_fuel drop_prefix]. rewrite Hb.
    rewrite IH; [|assumption | simpl in Hfuel; lia].
    now replace (S fuel - String.length (String b pre) - 1)%nat
      with (fuel - String.length pre - 1)%nat by (simpl; lia).
Qed.

(** One occurrence of the placeholder is replaced in place. *)
Lemma replace_placeholder (c : ascii) (old' new pre post : string) :
  Spec.all_chars (fun x => negb (Ascii.eqb c x)) pre = true ->
  Spec.all_chars (fun x => negb (Ascii.eqb c x)) post = true ->
  replace (String c old') new (pre +:+ String c old' +:+ post) = pre +:+ new +:+ post.
Proof.
  intros Hpre Hpost. unfold replace.
  rewrite replace_fuel_first; [|assumption|].
  - now rewrite replace_fuel_absent.
  - rewrite string_length_app. lia.
Qed.

Section ResolverMirror.

Import Resolver.

(** X17. For a dynamic site, with mirror discovery available and a mirror
    found, the resolver returns the site's pattern with the placeholder
    replaced by the mirror, after one mirror lookup for the site's domain
    and test path (["/"] when the site gives none). *)
Theorem mirror_fills_pattern (o : oracle) (config : sites_config) (key : string)
  (site_data : site) (domain pre post mirror : string) :
  lookup_site config key = Some site_data ->
  type site_data = Some "dynamic" ->
  base_domain site_data = Some domain ->
  url_pattern site_data = Some (pre +:+ "{mirror}" +:+ post) ->
  no_brace pre -> no_brace post ->
  find_active_mirror o domain (default "/" (test_path site_data)) = Some mirror ->
  mirror <> "" ->
  run o (_finalize_target true config key) =
  (Returned (Some (pre +:+ mirror +:+ post)),
   [CFindMirror domain (default "/" (test_path site_data))]).
Proof.
  intros Hsite Htype Hdomain Hpattern Hpre Hpost Hfound Hmirror.
  unfold _finalize_target. rewrite Hsite, Htype, Hdomain. simpl default at 1.
  cbn [String.eqb Ascii.eqb Bool.eqb andb].
  cbn [mbind prog_mbind prog_bind ask run answer call_of]. rewrite Hfound.
  destruct mirror as [|c m]; [congruence|]. rewrite Hpattern.
  cbn [prog_bind mret prog_ret run]. now rewrite replace_placeholder.
Qed.

Lemma mirror_fills_pattern_witness :
  run mirror_found (_finalize_target true mirrored "asura") =
  (Returned (Some ("" +:+ "https://asura3.example.org" +:+ "/series/")),
   [CFindMirror "asura" "/"]).
Proof.
  apply (mirror_fills_pattern mirror_found mirrored "asura"
           (snd (hd ("", one_piece) mirrored)) "asura" "" "/series/"
           "https://asura3.example.org");
    try reflexivity; discriminate.
Defined.

End ResolverMirror.

(** ** The session of the fetcher *)

Section FetcherSession.

Import Fetcher.

Lemma last_cons_default {A : Type} (a d : A) (l : list A) :
  List.last (a :: l) d = List.last l a.
Proof.
  revert a d. induction l as [|b l IH]; intros a d; [reflexivity|].
  change (List.last (a :: b :: l) d) with (List.last (b :: l) d).
  rewrite IH. symmetry. apply IH.
Qed.

Lemma try_strategies_headers (env : environment) (url path : string)
  (r0 : string) (refs : list string) (n : nat) (s : session) :
  exists b s' ref,
    try_strategies env url path (map strategy_of (r0 :: refs)) n s = (b, s') /\
    headers s' = <[ "Referer" := ref ]> (headers s) /\
    head (sent s') = Some (url, Some ref) /\
    (b = false -> ref = List.last refs r0).
Proof.
  revert r0 n s. induction refs as [|r1 refs IH]; intros r0 n s.
  - cbn [map try_strategies].
    set (s1 := record_get url (headers_update (strategy_of r0) s)).
    assert (Hh : headers s1 = <[ "Referer" := r0 ]> (headers s))
      by (subst s1; unfold strategy_of; simpl; now rewrite insert_union_singleton_l).
    assert (Hs : head (sent s1) = Some (url, Some r0)).
    { subst s1. unfold strategy_of. simpl. rewrite <- insert_union_singleton_l.
      now rewrite lookup_insert_eq. }
    destruct (attempt env n url path (headers s1)).
    + now exists true, s1, r0.
    + now exists false, s1, r0.
  - change (try_strategies env url path (map strategy_of (r0 :: r1 :: refs)) n s)
      with (let s1 := record_get url (headers_update (strategy_of r0) s) in
            if attempt env n url path (headers s1) then (true, s1)
            else try_strategies env url path (map strategy_of (r1 :: refs)) (S n) s1).
    set (s1 := record_get url (headers_update (strategy_of r0) s)). cbv zeta.
    assert (Hh : headers s1 = <[ "Referer" := r0 ]> (headers s))
      by (subst s1; unfold strategy_of; simpl; now rewrite insert_union_singleton_l).
    assert (Hs : head (sent s1) = Some (url, Some r0)).
    { subst s1. unfold strategy_of. simpl. rewrite <- insert_union_singleton_l.
      now rewrite lookup_insert_eq. }
    destruct (attempt env n url path (headers s1)).
    + exists true, s1, r0. repeat split; try assumption. discriminate.
    + destruct (IH r1 (S n) s1) as (b & s' & ref & -> & Hh' & Hs' & Hb).
      exists b, s', ref. split; [reflexivity|]. split; [|split; [assumption|]].
      * rewrite Hh', Hh. apply insert_insert_eq.
      * intros Hfalse. rewrite (Hb Hfalse). symmetry. apply last_cons_default.
Qed.

(** X18. A call of [download_image] that gets past [urlparse] leaves its
    mark on the session: the Referer of the last request it sent stays in
    the session's headers, no other header changes, and after a failure
    that Referer is scheme://netloc/ of the asset. *)
Theorem referer_stays_in_session (env : environment) (s : session)
  (url save_path scheme netloc : string) (hint : option string) :
  urlparse env (_sanitize_url url) = Some (scheme, netloc) ->
  exists b s' ref,
    download_image env s url save_path hint = (Returned b, s') /\
    headers s' = <[ "Referer" := ref ]> (headers s) /\
    head (sent s') = Some (_sanitize_url url, Some ref) /\
    (b = false -> ref = scheme +:+ "://" +:+ netloc +:+ "/").
Proof.
  intros Hparse. unfold download_image. rewrite Hparse. cbv zeta.
  rewrite strategies_referers. unfold referers.
  destruct (try_strategies_headers env (_sanitize_url url) save_path (default "" hint)
              [""; scheme +:+ "://" +:+ netloc +:+ "/"] 0 s)
    as (b & s' & ref & -> & Hh & Hs & Hb).
  now exists b, s', ref.
Qed.

Lemma referer_stays_in_session_witness :
  exists b s' ref,
    download_image offline new_session "https://img.example.org/p/1.jpg" "001.jpg" None
    = (Returned b, s') /\
    headers s' = <[ "Referer" := ref ]> (headers new_session) /\
    head (sent s') = Some (_sanitize_url "https://img.example.org/p/1.jpg", Some ref) /\
    (b = false -> ref = "https" +:+ "://" +:+ "img.example.org" +:+ "/").
Proof.
  apply (referer_stays_in_session offline new_session "https://img.example.org/p/1.jpg"
           "001.jpg" "https" "img.example.org" None).
  reflexivity.
Defined.

End FetcherSession.

(** ** The content of the archive *)

Section ArchiveContent.

Import Archive.

Lemma read_file_unique (n : string) (d : data) (files : listing) :
  NoDup (map fst files) -> In (n, d) files -> read_file n files = Some d.
Proof.
  unfold read_file. induction files as [|[m d0] files IH]; simpl; [easy|].
  intros Hnd Hin. apply NoDup_cons in Hnd as [Hm Hnd].
  destruct Hin as [Heq|Hin].
  - injection Heq as -> ->. now rewrite String.eqb_refl.
  - destruct (String.eqb_spec m n) as [->|]; [|now apply IH].
    exfalso. apply Hm. apply list_elem_of_In. apply in_map_iff. now exists (n, d).
Qed.

Lemma cbz_write_files_content (z : zipper) (rel : string) (files : listing)
  (names : list string) (written : archive) :
  NoDup (map fst files) ->
  (forall n, In n names -> In n (map fst files)) ->
  exists out, cbz_write_files z rel files None names written = (true, out) /\
    (forall e, In e written -> In e out) /\
    forall n d, In n names -> In (n, d) files -> In (rel_join rel n, d) out.
Proof.
  intros Hnd. revert written.
  induction names as [|n names IH]; intros written Hin; cbn [cbz_write_files].
  - exists written. repeat split; [auto|]. intros n d [].
  - destruct (read_file_listed n files) as [d Hd]; [apply Hin; now left|].
    rewrite bool_decide_eq_false_2 by discriminate. rewrite Hd.
    destruct (IH (written ++ [(rel_join rel n, d)])) as (out & -> & Hw & Hc);
      [intros; apply Hin; now right|].
    exists out. split; [reflexivity|]. split.
    + intros e He. apply Hw. apply in_or_app. now left.
    + intros m dm [<-|Hm] Hfile.
      * apply Hw. apply in_or_app. right. left.
        rewrite (read_file_unique n dm files Hnd Hfile) in Hd. now injection Hd as ->.
      * now apply Hc.
Qed.

Lemma cbz_write_dirs_content (z : zipper) (dirs : list (string * listing * option string))
  (written : archive) :
  Forall (fun d => snd d = None /\ NoDup (map fst (snd (fst d)))) dirs ->
  exists out, cbz_write_dirs z dirs written = (true, out) /\
    (forall e, In e written -> In e out) /\
    forall rel files self n d, In (rel, files, self) dirs -> In (n, d) files ->
                               In (rel_join rel n, d) out.
Proof.
  intros H. revert written.
  induction H as [|[[rel files] self] dirs [Hs Hnd] _ IH]; intros written; simpl.
  - exists written. repeat split; [auto|]. intros ? ? ? ? ? [].
  - simpl in Hs, Hnd. subst self.
    destruct (cbz_write_files_content z rel files (sorted (map fst files)) written Hnd)
      as (here & -> & Hw & Hch).
    { intros n Hn'. eapply Permutation_in; [apply sorted_perm | exact Hn']. }
    destruct (IH here) as (out & -> & Hw' & Hc).
    exists out. split; [reflexivity|]. split; [auto|].
    intros rel' files' self' n d [Heq|Hin] Hfile.
    + injection Heq as <- <- <-. apply Hw'. apply Hch; [|assumption].
      apply (Permutation_in _ (Permutation_sym (sorted_perm _))).
      apply in_map_iff. now exists (n, d).
    + now apply (Hc rel' files' self').
Qed.

(** A file of the folder is a file of a directory of the walk, under the
    path that leads to it. *)
Lemma file_at_walk (dirs : list string) (n : string) (d : data) (t : tree) :
  Spec.file_at dirs n d t ->
  forall rel ds, Spec.named t = true -> leads rel ds ->
  exists rel' files,
    In (rel', files, None) (cbz_walk rel None t) /\ In (n, d) files /\
    rel_join rel' n = Spec.path_from (ds ++ dirs) n.
Proof.
  induction 1 as [n d files subdirs Hin | dir dirs n d files subdirs t Hsub Hfile IH];
    intros rel ds Hnamed Hrel.
  - exists rel, files. split; [now left|]. split; [exact Hin|].
    rewrite app_nil_r. now apply leads_join.
  - simpl in Hnamed. rewrite forallb_forall in Hnamed.
    specialize (Hnamed (dir, t) Hsub). simpl in Hnamed.
    apply andb_prop in Hnamed as [Hdir Ht].
    destruct (IH (rel_join rel dir) (ds ++ [dir]) Ht) as (rel' & files' & Hw & Hf & Hp).
    { apply leads_snoc; [exact Hrel|]. intros ->. discriminate. }
    exists rel', files'. split; [|split; [exact Hf|]].
    + simpl. right. apply in_flat_map. exists (dir, t). split; [exact Hsub | exact Hw].
    + rewrite Hp. now rewrite <- List.app_assoc.
Qed.

(** The file of an archive that was written under the folder is among the
    files of the folder. *)
Lemma put_file_path (dirs : list string) (name : string) (d : data) (t t' : tree) :
  put_file dirs name d t = Some t' ->
  forall ds, In (Spec.path_from (ds ++ dirs) name) (Spec.paths_of ds t').
Proof.
  revert t t'. induction dirs as [|dir dirs IH]; intros [files subdirs] t'; simpl.
  - destruct (has_name name subdirs); [discriminate|]. intros [= <-] ds. simpl.
    rewrite app_nil_r. apply in_or_app. left. apply in_map.
    apply (Permutation_in _ (Permutation_sym (sorted_perm _))).
    rewrite write_file_names. destruct (has_name name files) eqn:E.
    + unfold has_name in E. apply existsb_exists in E as ([m d0] & Hin & Hm).
      apply String.eqb_eq in Hm. simpl in Hm. subst m.
      apply in_map_iff. now exists (name, d0).
    + apply in_or_app. right. now left.
  - destruct (update_subdir dir _ subdirs) as [subdirs'|] eqn:Hu; [|discriminate].
    simpl. intros [= <-] ds. simpl. apply in_or_app. right.
    assert (H : exists t0 t1, In (dir, t1) subdirs' /\ put_file dirs name d t0 = Some t1).
    { clear IH. revert subdirs' Hu.
      induction subdirs as [|[m t0] subdirs IHs]; intros subdirs'; simpl; [discriminate|].
      destruct (String.eqb_spec m dir) as [->|].
      - destruct (put_file dirs name d t0) as [t1|] eqn:Ht; [|discriminate].
        simpl. intros [= <-]. exists t0, t1. split; [now left | exact Ht].
      - destruct (update_subdir dir _ subdirs) as [rest'|]; [|discriminate].
        simpl. intros [= <-]. destruct (IHs _ eq_refl) as (t0' & t1 & Hin & Ht).
        exists t0', t1. split; [now right | exact Ht]. }
    destruct H as (t0 & t1 & Hin & Ht).
    apply in_flat_map. exists (dir, t1). split; [exact Hin|]. simpl.
    replace (ds ++ dir :: dirs) with ((ds ++ [dir]) ++ dirs)
      by now rewrite <- List.app_assoc.
    now apply (IH t0).
Qed.

(** X19. For a folder of a file system, whose directories have names and
    distinct file names, [create_cbz_archive] succeeds at a path outside
    the folder that can be written, with an archive that holds every file
    of the folder under its path relative to the folder, with the bytes of
    the file, and nothing else but the descriptor: it has as many entries
    as the folder has files, plus one when there are metadata, and then
    the descriptor generated from them is the last entry.  An archive
    made at a path under the folder has an entry for its own file. *)
Theorem cbz_holds_every_file (z : zipper) (source : tree) (meta : option metadata) :
  Spec.named source = true -> distinct_names source ->
  (exists a, create_cbz_archive z source (Outside true) meta = (true, source, a) /\
     (forall dirs n d, Spec.file_at dirs n d source -> In (Spec.path_from dirs n, d) a) /\
     length a = (length (entry_names source) + length (descriptor_name meta))%nat /\
     (forall m, meta = Some m -> m <> ∅ ->
                last a = Some ("ComicInfo.xml", generate_comic_info_xml m))) /\
  (forall dirs name source' a,
     create_cbz_archive z source (Inside dirs name) meta = (true, source', a) ->
     In (Spec.path_from dirs name) (map fst a)).
Proof.
  intros Hnamed Hnd. split.
  - destruct (create_cbz_archive_names z source meta Hnamed) as (a & Ha & Hnames).
    exists a. split; [exact Ha|].
    assert (Hlen : length a = (length (entry_names source) + length (descriptor_name meta))%nat).
    { rewrite <- length_app, <- Hnames. now rewrite length_map. }
    split; [|split; [exact Hlen|]].
    + unfold create_cbz_archive, cbz_body in Ha.
      destruct (cbz_write_dirs_content z (cbz_walk "" None source) []) as (images & Hw & _ & Hc).
      { pose proof (cbz_walk_unmarked source "") as Hu.
        pose proof (cbz_walk_walk source "" None) as Hww.
        unfold distinct_names in Hnd. rewrite <- Hww in Hnd.
        rewrite List.Forall_map in Hnd.
        rewrite List.Forall_forall in Hu, Hnd. apply List.Forall_forall.
        intros x Hx. split; [now apply Hu | now apply Hnd]. }
      rewrite Hw in Ha.
      intros dirs n d Hfile.
      destruct (file_at_walk dirs n d source Hfile "" [] Hnamed leads_nil)
        as (rel' & files & Hin & Hf & Hp).
      simpl in Hp. rewrite <- Hp.
      assert (Himg : In (rel_join rel' n, d) images) by now apply (Hc rel' files None).
      destruct meta as [m|]; [destruct (decide (m = ∅))|]; injection Ha as <-;
        try exact Himg.
      apply in_or_app. now left.
    + intros m -> Hm. unfold create_cbz_archive, cbz_body in Ha.
      destruct (cbz_write_dirs z _ []) as [[] images]; [|discriminate].
      destruct (decide (m = ∅)); [contradiction|]. injection Ha as <-. apply last_snoc.
  - intros dirs name source' a Ha.
    rewrite (create_cbz_archive_listed z source source' _ meta a Hnamed Ha).
    apply in_or_app. left. unfold create_cbz_archive in Ha.
    destruct (put_file dirs name "" source) as [listed|] eqn:Hl; [|discriminate].
    destruct (cbz_body z listed _ meta) as [ok a'] eqn:Hb.
    destruct (put_file_again dirs name "" (cbz_file z ok a') _ _ Hl) as (t2 & Ht2 & _).
    rewrite Ht2 in Ha. simpl in Ha. injection Ha as _ <- _.
    exact (put_file_path dirs name _ listed t2 Ht2 []).
Qed.

Lemma cbz_holds_every_file_witness :
  exists a, create_cbz_archive stored five_and_two (Outside true) None
              = (true, five_and_two, a) /\
            length a = 7%nat /\
            In ("003.jpg", "jpeg 3") a.
Proof.
  assert (H : distinct_names five_and_two).
  { constructor; [|constructor]. apply (bool_decide_unpack _). vm_compute. exact I. }
  destruct (cbz_holds_every_file stored five_and_two None eq_refl H)
    as ((a & Ha & Hc & Hl & _) & _).
  exists a. split; [exact Ha|]. split; [exact Hl|].
  apply (Hc [] "003.jpg" "jpeg 3"). constructor. simpl. tauto.
Defined.

End ArchiveContent.

(** ** Escaping in the descriptor *)

Lemma replace_char_nil (c : ascii) (new : string) : replace (String c "") new "" = "".
Proof. reflexivity. Qed.

Lemma replace_char_cons (c b : ascii) (new s : string) :
  replace (String c "") new (String b s) =
  (if Ascii.eqb c b then new else String b "") +:+ replace (String c "") new s.
Proof.
  unfold replace. cbn [String.length replace_fuel drop_prefix].
  destruct (Ascii.eqb c b); [reflexivity|].
  now rewrite append_cons, append_empty_l.
Qed.

Lemma replace_char_app (c : ascii) (new a b : string) :
  replace (String c "") new (a +:+ b) =
  replace (String c "") new a +:+ replace (String c "") new b.
Proof.
  induction a as [|x a IH].
  - now rewrite replace_char_nil, !append_empty_l.
  - rewrite append_cons, !replace_char_cons, IH. now rewrite append_assoc.
Qed.

Lemma clean_cons (c : ascii) (s : string) :
  Archive.clean (String c s) = escape_char c +:+ Archive.clean s.
Proof.
  unfold Archive.clean, escape_char.
  rewrite (replace_char_cons "&" c). rewrite !replace_char_app.
  destruct (Ascii.eqb_spec "&" c) as [<-|Hamp]; [reflexivity|].
  rewrite (replace_char_cons "<" c), replace_char_nil, append_empty_r.
  destruct (Ascii.eqb_spec "<" c) as [<-|Hlt]; [reflexivity|].
  rewrite (replace_char_cons ">" c), replace_char_nil, append_empty_r.
  destruct (Ascii.eqb_spec ">" c) as [<-|Hgt]; [reflexivity|].
  reflexivity.
Qed.

Lemma clean_escape (s : string) : Archive.clean s = escape s.
Proof.
  induction s as [|c s IH]; [reflexivity|]. now rewrite clean_cons, IH.
Qed.

Lemma escape_no_angle (s : string) : Spec.all_chars no_angle (escape s) = true.
Proof.
  induction s as [|c s IH]; [reflexivity|].
  cbn [escape]. rewrite all_chars_app, IH, andb_true_r. unfold escape_char.
  destruct (Ascii.eqb_spec "&" c) as [<-|Hamp]; [reflexivity|].
  destruct (Ascii.eqb_spec "<" c) as [<-|Hlt]; [reflexivity|].
  destruct (Ascii.eqb_spec ">" c) as [<-|Hgt]; [reflexivity|].
  cbn [Spec.all_chars]. unfold no_angle.
  destruct (Ascii.eqb_spec "<" c); [congruence|].
  destruct (Ascii.eqb_spec ">" c); [congruence|]. reflexivity.
Qed.

Lemma escape_inj (a b : string) : escape a = escape b -> a = b.
Proof.
  revert b. induction a as [|c a IH]; intros [|d b]; cbn [escape]; unfold escape_char.
  - reflexivity.
  - destruct (Ascii.eqb "&" d), (Ascii.eqb "<" d), (Ascii.eqb ">" d);
      rewrite ?append_cons; discriminate.
  - destruct (Ascii.eqb "&" c), (Ascii.eqb "<" c), (Ascii.eqb ">" c);
      rewrite ?append_cons; discriminate.
  - destruct (Ascii.eqb_spec "&" c) as [<-|Hc1], (Ascii.eqb_spec "&" d) as [<-|Hd1];
      [| destruct (Ascii.eqb_spec "<" d) as [<-|Hd2];
         [|destruct (Ascii.eqb_spec ">" d) as [<-|Hd3]]
       | destruct (Ascii.eqb_spec "<" c) as [<-|Hc2];
         [|destruct (Ascii.eqb_spec ">" c) as [<-|Hc3]]
       | destruct (Ascii.eqb_spec "<" c) as [<-|Hc2], (Ascii.eqb_spec "<" d) as [<-|Hd2];
         [| destruct (Ascii.eqb_spec ">" d) as [<-|Hd3]
          | destruct (Ascii.eqb_spec ">" c) as [<-|Hc3]
          | destruct (Ascii.eqb_spec ">" c) as [<-|Hc3],
                     (Ascii.eqb_spec ">" d) as [<-|Hd3]]];
      rewrite ?append_cons, ?append_empty_l; intros H;
      try discriminate H;
      try (injection H as H; f_equal; now apply IH);
      try (injection H as -> H; f_equal; now apply IH);
      try (injection H as E _; congruence).
Qed.

(** X20. [clean] of the descriptor escapes a value character by character:
    an ampersand, a less-than and a greater-than sign become their
    entities and every other character stays (quotes too).  So the result
    has no angle bracket, and two different values never give the same
    result. *)
Theorem clean_escapes (val : string) :
  Archive.clean val = escape val /\
  Spec.all_chars no_angle (Archive.clean val) = true /\
  (forall other, Archive.clean other = Archive.clean val -> other = val).
Proof.
  split; [apply clean_escape|]. split.
  - rewrite clean_escape. apply escape_no_angle.
  - intros other H. rewrite !clean_escape in H. now apply escape_inj.
Qed.

(** ** A chapter in cbz format *)

Lemma create_cbz_descriptor_last (z : Archive.zipper) (source : Archive.tree)
  (m : Archive.metadata) :
  named source = true -> m <> ∅ ->
  exists images,
    Archive.create_cbz_archive z source (Archive.Outside true) (Some m) =
    (true, source, images ++ [("ComicInfo.xml", Archive.generate_comic_info_xml m)]) /\
    map fst images = entry_names source.
Proof.
  intros Hnamed Hm.
  destruct (create_cbz_archive_names z source (Some m) Hnamed) as (a & Ha & Hnames).
  unfold Archive.create_cbz_archive, Archive.cbz_body in Ha.
  destruct (Archive.cbz_write_dirs z _ []) as [[] images] eqn:Hw; [|discriminate].
  destruct (decide (m = ∅)) as [|Hne] eqn:Hd; [contradiction|]. injection Ha as <-.
  exists images. split.
  - unfold Archive.create_cbz_archive, Archive.cbz_body. rewrite Hw, Hd. reflexivity.
  - unfold descriptor_name in Hnames. rewrite Hd in Hnames.
    rewrite List.map_app in Hnames. now apply app_inv_tail in Hnames.
Qed.

(** X21. In cbz format, a chapter whose folder is there or can be made,
    with pages none of whose downloads raises: when its sanitized title
    is not empty and no directory has the name of the archive, it ends
    completed, the archive is written beside the chapter folder, under
    the sanitized title with the extension cbz, its entries are the files
    of the folder followed by the descriptor generated from the metadata
    of the chapter (the rich metadata over those parsed from the title),
    the chapter folder is removed and the chapter is marked completed.
    When its sanitized title is empty, the folder of the chapter is the
    folder of the series, and a chapter that ends completed leaves it
    empty: the archive went with it. *)
Theorem cbz_chapter_packaged (pf : platform) (cd : Archive.codecs) (tp : title_parser)
  (ex : extractor) (chap : chapter) (parent_path manga_title : string)
  (rich_meta : option Archive.metadata) (w w1 : world) (files : Archive.listing)
  (subdirs : list (string * Archive.tree)) (pages : list string) :
  get_pages ex (Core.url chap) = Returned pages -> pages <> [] ->
  Forall (fun u => fetch_page ex u <> PageRaised) pages ->
  makedirs pf (sanitize (title chap)) w = Returned (Archive.Dir files subdirs, w1) ->
  let r := _download_single_chapter pf "cbz" cd tp ex chap parent_path manga_title
             rich_meta w in
  (sanitize (title chap) <> "" ->
   named (Archive.Dir files subdirs) = true ->
   blocked (sanitize (title chap) +:+ ".cbz") w = false ->
   exists images,
     ended r = Completed /\
     files_of (series (after r)) =
       Archive.write_file (sanitize (title chap) +:+ ".cbz")
         (Archive.zip_bytes (zipfile pf)
            (images ++
             [("ComicInfo.xml",
               Archive.generate_comic_info_xml
                 (merge_metadata
                    (parse_chapter_metadata tp (title chap) manga_title (Core.url chap))
                    rich_meta))]))
         (files_of (series w)) /\
     map fst images =
       entry_names (Archive.Dir (snd (gather pf ex pages files)) subdirs) /\
     folder_at (sanitize (title chap)) (after r) = None /\
     is_completed (db (after r)) manga_title (title chap) = true) /\
  (sanitize (title chap) = "" -> ended r = Completed ->
   series (after r) = Archive.Dir [] []).
Proof.
  intros Hp Hne Hok Hm r.
  destruct (gather_no_raise pf ex pages files Hok) as [results Hg].
  pose proof (chapter_packaging pf "cbz" cd tp ex chap parent_path manga_title rich_meta
                w w1 files _ subdirs pages results Hm Hp Hne Hg) as Hr.
  fold r in Hr. cbv zeta in Hr.
  change (String.eqb "cbz" "pdf") with false in Hr.
  change (String.eqb "cbz" "cbz") with true in Hr. cbv iota in Hr.
  rewrite Hg. cbn [snd]. set (files' := snd (downloads ex 0 pages files)) in *.
  pose proof (makedirs_returned _ _ _ _ _ Hm) as (Hdb & Hfiles & Hat & Hblocked).
  split.
  - intros Hclean Hnamed Hfree.
    assert (Hname : String.eqb (sanitize (title chap)) "" = false)
      by now apply String.eqb_neq.
    rewrite Hname in Hr.
    assert (Hb : blocked (sanitize (title chap) +:+ ".cbz")
                   (set_folder (sanitize (title chap)) (Archive.Dir files' subdirs) w1)
                 = false).
    { unfold blocked, set_folder. rewrite Hname. simpl. rewrite has_name_write_subdir.
      fold (blocked (sanitize (title chap) +:+ ".cbz") w1).
      rewrite Hblocked, Hfree.
      - simpl. apply String.eqb_neq. intros E. symmetry in E.
        apply append_longer in E. discriminate.
      - intros E. apply append_longer in E. discriminate. }
    rewrite Hb in Hr. simpl negb in Hr.
    destruct (create_cbz_descriptor_last (zipfile pf) (Archive.Dir files' subdirs)
                (merge_metadata
                   (parse_chapter_metadata tp (title chap) manga_title (Core.url chap))
                   rich_meta))
      as (images & Hc & Hnames); [exact Hnamed | apply full_meta_not_empty|].
    rewrite Hc in Hr. cbv iota in Hr. exists images. rewrite Hr.
    match goal with
    | |- context [finish ?pf ?c ?m ?fm ?w0] =>
        destruct (finish_effect pf c m fm w0) as [-> ->]
    end.
    split; [reflexivity|]. split; [|split; [exact Hnames|split]].
    + unfold mark, rmtree, write_packaged, set_folder. simpl. rewrite Hname. simpl.
      now rewrite Hfiles.
    + unfold folder_at, mark, rmtree. simpl. rewrite Hname. simpl.
      apply read_subdir_removed.
    + apply marked_is_completed.
  - intros Hclean. rewrite Hclean in Hr. change (String.eqb "" "") with true in Hr.
    cbv iota in Hr.
    destruct (Archive.create_cbz_archive _ _ _ _) as [[ok folder'] a].
    rewrite Hr. destruct ok; [|discriminate]. intros _.
    match goal with
    | |- context [finish ?pf ?c ?m ?fm ?w0] =>
        destruct (finish_effect pf c m fm w0) as [_ ->]
    end.
    reflexivity.
Qed.

Lemma cbz_chapter_packaged_witness :
  let r := _download_single_chapter obliging "cbz" lenient number_five one_good_page
             chapter_5 "downloads/One Piece" "One Piece" None fresh in
  exists images : list (string * string),
    ended r = Completed /\
    map fst images = ["001.png"] /\
    folder_at "Chapter 5" (after r) = None.
Proof.
  intros r.
  destruct (cbz_chapter_packaged obliging lenient number_five one_good_page chapter_5
              "downloads/One Piece" "One Piece" None fresh
              (set_folder "Chapter 5" (Archive.Dir [] []) fresh) [] []
              ["https://cdn.example.org/c5/1.png"])
    as [Hcase _].
  - reflexivity.
  - discriminate.
  - repeat constructor. discriminate.
  - reflexivity.
  - destruct Hcase as (images & Hrun & _ & Hnames & Hfolder & _).
    + discriminate.
    + reflexivity.
    + reflexivity.
    + exists images. split; [exact Hrun|]. split; [exact Hnames | exact Hfolder].
Defined.

(** ** The regular expressions *)

Section RegexFacts.

Import Regex.

Lemma star_inv {A : Type} (p : ascii -> bool) (s : string) (k : string -> option A) (a : A) :
  star p s k = Some a ->
  exists pre rest, s = pre +:+ rest /\ all_chars p pre = true /\ k rest = Some a.
Proof.
  induction s as [|c s IH]; simpl.
  - intros H. now exists "", "".
  - destruct (p c) eqn:Hc.
    + destruct (star p s k) as [a'|] eqn:Hs.
      * intros [= ->]. destruct (IH eq_refl) as (pre & rest & -> & Hpre & Hk).
        exists (String c pre), rest. rewrite append_cons. simpl. now rewrite Hc, Hpre.
      * intros H. now exists "", (String c s).
    + intros H. now exists "", (String c s).
Qed.

(** The greedy repetition stops where the class stops, when what follows
    succeeds there. *)
Lemma star_greedy {A : Type} (p : ascii -> bool) (pre rest : string)
  (k : string -> option A) (a : A) :
  all_chars p pre = true ->
  match rest with String c _ => p c = false | "" => True end ->
  k rest = Some a ->
  star p (pre +:+ rest) k = Some a.
Proof.
  intros Hpre Hrest Hk. induction pre as [|c pre IH].
  - rewrite append_empty_l. destruct rest as [|c r]; simpl; [assumption|].
    now rewrite Hrest.
  - simpl in Hpre. apply andb_true_iff in Hpre as [Hc Hpre].
    rewrite append_cons. simpl. now rewrite Hc, (IH Hpre).
Qed.

(** A success of the matcher is a success of what follows it. *)
Lemma run_continues {A : Type} (r : regex) :
  forall (s : string) (g : option string) (k : string -> option string -> option A) (a : A),
  run r s g k = Some a -> exists s' g', k s' g' = Some a.
Proof.
  induction r as [p|r1 IH1 r2 IH2|r1 IH1 r2 IH2|r1 IH1|p|p|r1 IH1| |];
    intros s g k a; simpl.
  - destruct s as [|c s]; [discriminate|]. destruct (p c); [eauto | discriminate].
  - intros H. apply IH1 in H as (s1 & g1 & H). now apply IH2 in H.
  - destruct (run r1 s g k) as [a'|] eqn:H1.
    + intros [= ->]. now apply IH1 in H1.
    + apply IH2.
  - destruct (run r1 s g k) as [a'|] eqn:H1.
    + intros [= ->]. now apply IH1 in H1.
    + eauto.
  - intros H. apply star_inv in H as (pre & rest & _ & _ & H). eauto.
  - destruct s as [|c s]; [discriminate|]. destruct (p c); [|discriminate].
    intros H. apply star_inv in H as (pre & rest & _ & _ & H). eauto.
  - intros H. apply IH1 in H as (s1 & g1 & H). eauto.
  - eauto.
  - destruct s as [|c [|c' s]]; [eauto | | discriminate].
    destruct (Ascii.eqb c newline_char); [eauto | discriminate].
Qed.

Lemma consumed_app (a b : string) : consumed (a +:+ b) b = a.
Proof.
  unfold consumed. rewrite string_length_app.
  replace (String.length a + String.length b - String.length b)%nat
    with (String.length a) by lia.
  induction a as [|c a IH].
  - rewrite append_empty_l. now destruct b.
  - rewrite append_cons. simpl. now rewrite IH.
Qed.

Lemma run_seq {A : Type} (r1 r2 : regex) (s : string) (g : option string)
  (k : string -> option string -> option A) :
  run (Seq r1 r2) s g k = run r1 s g (fun s' g' => run r2 s' g' k).
Proof. reflexivity. Qed.

Lemma run_group1 {A : Type} (r : regex) (s : string) (g : option string)
  (k : string -> option string -> option A) :
  run (Group1 r) s g k = run r s g (fun s' _ => k s' (Some (consumed s s'))).
Proof. reflexivity. Qed.

Lemma run_opt_inv {A : Type} (r : regex) (s : string) (g : option string)
  (k : string -> option string -> option A) (a : A) :
  run (Opt r) s g k = Some a -> run r s g k = Some a \/ k s g = Some a.
Proof. simpl. destruct (run r s g k); [intros [= ->]; now left | now right]. Qed.

Lemma run_plus_inv {A : Type} (p : ascii -> bool) (s : string) (g : option string)
  (k : string -> option string -> option A) (a : A) :
  run (Plus p) s g k = Some a ->
  exists c pre rest, s = String c pre +:+ rest /\ p c = true /\
                     all_chars p pre = true /\ k rest g = Some a.
Proof.
  simpl. destruct s as [|c s]; [discriminate|]. destruct (p c) eqn:Hc; [|discriminate].
  intros H. apply star_inv in H as (pre & rest & -> & Hpre & H).
  exists c, pre, rest. now rewrite append_cons.
Qed.

Lemma run_lit_inv {A : Type} (c : ascii) (s : string) (g : option string)
  (k : string -> option string -> option A) (a : A) :
  run (lit c) s g k = Some a -> exists s', s = String c s' /\ k s' g = Some a.
Proof.
  simpl. destruct s as [|x s]; [discriminate|].
  destruct (Ascii.eqb_spec c x) as [<-|]; [|discriminate]. eauto.
Qed.

Lemma run_alt_inv {A : Type} (r1 r2 : regex) (s : string) (g : option string)
  (k : string -> option string -> option A) (a : A) :
  run (Alt r1 r2) s g k = Some a -> run r1 s g k = Some a \/ run r2 s g k = Some a.
Proof. simpl. destruct (run r1 s g k); [intros [= ->]; now left | now right]. Qed.

Lemma run_dollar_inv {A : Type} (s : string) (g : option string)
  (k : string -> option string -> option A) (a : A) :
  run Dollar s g k = Some a -> k s g = Some a.
Proof.
  simpl. destruct s as [|c [|c' s]]; [easy | | discriminate].
  destruct (Ascii.eqb c newline_char); [easy | discriminate].
Qed.

(** A success of [number] has read a numeral, which is the first group of
    what follows. *)
Lemma run_number_inv {A : Type} (s : string) (g : option string)
  (k : string -> option string -> option A) (a : A) :
  run number s g k = Some a ->
  exists n rest, numeral n /\ s = n +:+ rest /\ k rest (Some n) = Some a.
Proof.
  unfold number. rewrite run_group1, run_seq. intros H.
  apply run_plus_inv in H as (c & d1 & s2 & -> & Hc & Hd1 & H).
  assert (Hdig1 : digits (String c d1)).
  { split; [discriminate|]. simpl. now rewrite Hc, Hd1. }
  apply run_opt_inv in H as [H|H].
  - rewrite run_seq in H. apply run_lit_inv in H as (s3 & -> & H).
    apply run_plus_inv in H as (c3 & d2 & rest & -> & Hc3 & Hd2 & H).
    assert (Hdig2 : digits (String c3 d2)).
    { split; [discriminate|]. simpl. now rewrite Hc3, Hd2. }
    assert (Heq : String c d1 +:+ String "." (String c3 d2 +:+ rest)
                  = (String c d1 +:+ "." +:+ String c3 d2) +:+ rest).
    { now rewrite !append_assoc, !append_cons, append_empty_l. }
    rewrite Heq in H |- *. rewrite consumed_app in H.
    exists (String c d1 +:+ "." +:+ String c3 d2), rest. split; [|split].
    + exists (String c d1). split; [assumption|]. right. now exists (String c3 d2).
    + reflexivity.
    + exact H.
  - rewrite consumed_app in H.
    exists (String c d1), s2. split; [|split].
    + exists (String c d1). split; [assumption | now left].
    + reflexivity.
    + exact H.
Qed.

Lemma search_inv (r : regex) (s : string) (m : string * option string) :
  search r s = Some m -> exists s', match_at r s' = Some m.
Proof.
  induction s as [|c s IH]; simpl.
  - destruct (match_at r "") eqn:H; [intros [= ->]; eauto | discriminate].
  - destruct (match_at r (String c s)) eqn:H; [intros [= ->]; eauto | exact IH].
Qed.

Lemma title_match_numeral (s : string) (m : string * option string) :
  match_at title_pattern s = Some m -> numeral (Metadata.group1 m).
Proof.
  unfold match_at, title_pattern. rewrite run_seq. intros H.
  apply run_continues in H as (s1 & g1 & H). rewrite run_seq in H.
  apply run_continues in H as (s2 & g2 & H).
  apply run_number_inv in H as (n & rest & Hn & _ & H). cbv beta in H.
  injection H as <-. exact Hn.
Qed.

Lemma url_match_numeral (s : string) (m : string * option string) :
  match_at url_pattern s = Some m -> numeral (Metadata.group1 m).
Proof.
  unfold match_at, url_pattern. rewrite run_seq. intros H.
  apply run_continues in H as (s1 & g1 & H). rewrite run_seq in H.
  apply run_continues in H as (s2 & g2 & H). rewrite run_seq in H.
  apply run_continues in H as (s3 & g3 & H). rewrite run_seq in H.
  apply run_number_inv in H as (n & rest & Hn & _ & H).
  assert (Hg : snd m = Some n).
  { apply run_alt_inv in H as [H|H].
    - apply run_lit_inv in H as (s' & _ & H). now injection H as <-.
    - apply run_dollar_inv in H. now injection H as <-. }
  unfold Metadata.group1. now rewrite Hg.
Qed.

Lemma numeral_float (n : string) : numeral n -> exists x, float_of_string n = Some x.
Proof.
  intros (d1 & H1 & [->|(d2 & H2 & ->)]).
  - rewrite (float_of_integer d1 H1). eauto.
  - rewrite (float_of_fraction d1 d2 H1 H2). eauto.
Qed.

Lemma numeral_not_empty (n : string) : numeral n -> n <> "".
Proof.
  intros (d1 & [H1 _] & [->|(d2 & _ & ->)]); [assumption|].
  destruct d1; [congruence | discriminate].
Qed.

(** X22. The number that [parse_chapter_metadata] gives is always a decimal
    numeral, a run of digits or two runs around a dot, whatever the title
    and the URL: it is what the title pattern or the URL pattern captured,
    or 0.  So [float] reads it. *)
Theorem meta_number_numeral (unquote : string -> string) (chapter_title url : string) :
  numeral (meta_number (Metadata.parser unquote) chapter_title url) /\
  exists x, float_of_string (meta_number (Metadata.parser unquote) chapter_title url)
            = Some x.
Proof.
  assert (H : numeral (meta_number (Metadata.parser unquote) chapter_title url)).
  { simpl. unfold Metadata.meta_number.
    destruct (search title_pattern (strip chapter_title)) as [m|] eqn:Ht.
    - apply search_inv in Ht as (s' & Ht). apply title_match_numeral in Ht.
      pose proof (numeral_not_empty _ Ht).
      destruct (Metadata.group1 m); [congruence | assumption].
    - destruct (search url_pattern _) as [m|] eqn:Hu.
      + apply search_inv in Hu as (s' & Hu). now apply url_match_numeral in Hu.
      + exists "0". split; [split; [discriminate | reflexivity] | now left]. }
  split; [exact H | now apply numeral_float].
Qed.

(** *** Titles without a keyword *)

Lemma run_word_i_fail {A : Type} (w s : string) (g : option string)
  (k : string -> option string -> option A) :
  startswith w (lower s) = false -> run (word_i w) s g k = None.
Proof.
  revert s. induction w as [|c w IH]; intros s; [discriminate|].
  destruct s as [|x s]; [reflexivity|]. simpl.
  destruct (Ascii.eqb c (lower_char x)); [apply IH | reflexivity].
Qed.

Lemma lower_char_backslash (x : ascii) :
  Ascii.eqb backslash (lower_char x) = Ascii.eqb backslash x.
Proof. destruct x as [[] [] [] [] [] [] [] []]; reflexivity. Qed.

Lemma run_word_backslash_fail {A : Type} (w : string) (r : regex) (s : string)
  (g : option string) (k : string -> option string -> option A) :
  no_backslash s -> run (Seq (word_i w) (Seq (lit_i backslash) r)) s g k = None.
Proof.
  unfold no_backslash. revert s. induction w as [|c w IH]; intros s Hs.
  - destruct s as [|x s]; [reflexivity|]. cbn [all_chars] in Hs.
    apply andb_true_iff in Hs as [Hx _]. apply negb_true_iff in Hx.
    change (run (Seq (word_i "") (Seq (lit_i backslash) r)) (String x s) g k)
      with (if Ascii.eqb backslash (lower_char x) then run r s g k else None).
    now rewrite lower_char_backslash, Hx.
  - destruct s as [|x s]; [reflexivity|]. cbn [all_chars] in Hs.
    apply andb_true_iff in Hs as [_ Hs].
    change (run (Seq (word_i (String c w)) (Seq (lit_i backslash) r)) (String x s) g k)
      with (if Ascii.eqb c (lower_char x)
            then run (Seq (word_i w) (Seq (lit_i backslash) r)) s g k else None).
    destruct (Ascii.eqb c (lower_char x)); [now apply IH | reflexivity].
Qed.

Lemma title_no_match_here (s : string) :
  no_backslash s ->
  startswith "chapter" (lower s) = false -> startswith "episode" (lower s) = false ->
  match_at title_pattern s = None.
Proof.
  intros Hs Hc He. unfold match_at, title_pattern. rewrite run_seq.
  change (run (Alt ?a (Alt ?b (Alt ?c ?d))) s None ?k)
    with (match run a s None k with
          | Some x => Some x
          | None => match run b s None k with
                    | Some x => Some x
                    | None => match run c s None k with
                              | Some x => Some x
                              | None => run d s None k
                              end
                    end
          end).
  rewrite (run_word_i_fail "chapter" s None _ Hc).
  rewrite (run_word_backslash_fail "ch" _ s None _ Hs).
  rewrite (run_word_backslash_fail "no" _ s None _ Hs).
  now rewrite (run_word_i_fail "episode" s None _ He).
Qed.

Lemma title_search_none (s : string) :
  no_backslash s ->
  contains "chapter" (lower s) = false -> contains "episode" (lower s) = false ->
  search title_pattern s = None.
Proof.
  induction s as [|c s IH]; intros Hs Hc He; [reflexivity|].
  change (lower (String c s)) with (String (lower_char c) (lower s)) in Hc, He.
  cbn [contains] in Hc, He.
  apply orb_false_iff in Hc as [Hc1 Hc2]. apply orb_false_iff in He as [He1 He2].
  cbn [search]. rewrite (title_no_match_here (String c s) Hs Hc1 He1).
  apply IH; [|assumption|assumption].
  unfold no_backslash in *. cbn [all_chars] in Hs. now apply andb_true_iff in Hs as [_ Hs].
Qed.

Lemma startswith_app (w a b : string) :
  startswith w a = true -> startswith w (a +:+ b) = true.
Proof.
  revert a. induction w as [|c w IH]; intros a; [reflexivity|].
  destruct a as [|x a]; [discriminate|]. rewrite append_cons. simpl.
  destruct (Ascii.eqb c x); [apply IH | discriminate].
Qed.

Lemma contains_app_l (w a b : string) :
  contains w a = true -> contains w (a +:+ b) = true.
Proof.
  induction a as [|x a IH].
  - simpl. rewrite orb_false_r. intros H. destruct w; [|discriminate].
    rewrite append_empty_l. now destruct b.
  - rewrite append_cons. cbn [contains]. intros H.
    apply orb_true_iff in H as [H|H]; apply orb_true_iff.
    + left. rewrite <- append_cons. now apply startswith_app.
    + right. now apply IH.
Qed.

Lemma contains_app_r (w a b : string) :
  contains w b = true -> contains w (a +:+ b) = true.
Proof.
  intros H. induction a as [|x a IH]; [now rewrite append_empty_l|].
  rewrite append_cons. cbn [contains]. rewrite IH. apply orb_true_r.
Qed.

Lemma lstrip_suffix (s : string) : exists a, s = a +:+ lstrip s.
Proof.
  induction s as [|c s (a & IH)]; [now exists ""|]. simpl.
  destruct (isspace c); [|now exists ""].
  exists (String c a). rewrite append_cons. now rewrite <- IH.
Qed.

Lemma rstrip_prefix (s : string) : exists b, s = rstrip s +:+ b.
Proof.
  induction s as [|c s (b & IH)]; [now exists ""|]. simpl.
  destruct (rstrip s) as [|c' r] eqn:Hr.
  - destruct (isspace c); [now exists (String c s)|].
    exists s. now rewrite append_cons, append_empty_l.
  - exists b. rewrite append_cons. now rewrite <- IH.
Qed.

Lemma contains_strip (w s : string) :
  contains w (lower s) = false -> contains w (lower (strip s)) = false.
Proof.
  intros H. destruct (contains w (lower (strip s))) eqn:Hc; [|reflexivity].
  rewrite <- H. symmetry. unfold strip in Hc.
  destruct (lstrip_suffix s) as [a Ha]. destruct (rstrip_prefix (lstrip s)) as [b Hb].
  rewrite Ha, Hb, !lower_app. apply contains_app_r. now apply contains_app_l.
Qed.

(** X23. A title that has no backslash and neither the word chapter nor
    the word episode, in any case, is not recognized: the number is the one
    of the URL, or 0, as for an empty title, and the subtitle is the title
    trimmed.  So it is for the abbreviations Ch. and No., which the pattern
    writes with a doubled backslash in a raw string. *)
Theorem keywordless_title_unrecognized (unquote : string -> string)
  (chapter_title url : string) :
  no_backslash chapter_title ->
  contains "chapter" (lower chapter_title) = false ->
  contains "episode" (lower chapter_title) = false ->
  meta_number (Metadata.parser unquote) chapter_title url
  = meta_number (Metadata.parser unquote) "" url /\
  meta_subtitle (Metadata.parser unquote) chapter_title = strip chapter_title.
Proof.
  intros Hb Hc He.
  assert (Hnone : search title_pattern (strip chapter_title) = None).
  { apply title_search_none; [now apply strip_chars | |]; now apply contains_strip. }
  simpl. unfold Metadata.meta_number, Metadata.meta_subtitle. rewrite Hnone.
  split; reflexivity.
Qed.

Lemma keywordless_title_unrecognized_witness :
  meta_number (Metadata.parser unquote_plain) "Ch. 5" "https://example.org/one-piece"
  = meta_number (Metadata.parser unquote_plain) "" "https://example.org/one-piece" /\
  meta_subtitle (Metadata.parser unquote_plain) "Ch. 5" = strip "Ch. 5".
Proof.
  apply (keywordless_title_unrecognized unquote_plain "Ch. 5"
           "https://example.org/one-piece"); reflexivity.
Defined.

(** *** Titles with a keyword *)

Lemma run_word_i_ok {A : Type} (kw x : string) (g : option string)
  (k : string -> option string -> option A) :
  run (word_i (lower kw)) (kw +:+ x) g k = k x g.
Proof.
  induction kw as [|c kw IH]; [now rewrite append_empty_l|].
  rewrite append_cons.
  change (run (word_i (lower (String c kw))) (String c (kw +:+ x)) g k)
    with (if Ascii.eqb (lower_char c) (lower_char c)
          then run (word_i (lower kw)) (kw +:+ x) g k else None).
  now rewrite Ascii.eqb_refl.
Qed.

Lemma digit_not_space (c : ascii) : isdigit c = true -> isspace c = false.
Proof. destruct c as [[] [] [] [] [] [] [] []]; vm_compute; congruence. Qed.

Lemma run_number_ok {A : Type} (d rest : string) (g : option string)
  (k : string -> option string -> option A) (a : A) :
  digits d -> ends_number rest = true -> k rest (Some d) = Some a ->
  run number (d +:+ rest) g k = Some a.
Proof.
  intros Hd Hrest Hk. destruct (digits_cons d Hd) as (c & d' & -> & Hc & Hd').
  unfold number. rewrite run_group1, run_seq. rewrite append_cons.
  change (run (Plus isdigit) (String c (d' +:+ rest)) g ?K)
    with (if isdigit c then star isdigit (d' +:+ rest) (fun s'' => K s'' g) else None).
  rewrite Hc. apply star_greedy; [assumption | |].
  - destruct rest as [|x r]; [exact I|]. simpl in Hrest.
    apply andb_true_iff in Hrest as [Hx _]. now apply negb_true_iff in Hx.
  - assert (Hnone : forall K : string -> option string -> option A,
              run (Seq (lit ".") (Plus isdigit)) rest g K = None).
    { intros K. destruct rest as [|x r]; [reflexivity|]. cbn [ends_number] in Hrest.
      apply andb_true_iff in Hrest as [_ Hx]. apply negb_true_iff in Hx.
      change (run (Seq (lit ".") (Plus isdigit)) (String x r) g K)
        with (if Ascii.eqb "." x then run (Plus isdigit) r g K else None).
      destruct (Ascii.eqb "." x); [|reflexivity]. simpl in Hx.
      destruct r as [|y r]; [reflexivity|]. simpl in Hx |- *. now rewrite Hx. }
    change (run (Opt ?r) rest g ?K)
      with (match run r rest g K with Some x => Some x | None => K rest g end).
    rewrite Hnone. rewrite <- append_cons, consumed_app. exact Hk.
Qed.

Lemma title_match_ok {A : Type} (kw sp d rest : string)
  (k : string -> option string -> option A) (a : A) :
  keyword kw -> all_chars isspace sp = true -> digits d -> ends_number rest = true ->
  k rest (Some d) = Some a ->
  run title_pattern (kw +:+ sp +:+ d +:+ rest) None k = Some a.
Proof.
  intros Hkw Hsp Hd Hrest Hk.
  assert (Htail : run (Seq (Star isspace) number) (sp +:+ d +:+ rest) None k = Some a).
  { rewrite run_seq.
    change (run (Star isspace) ?s None ?K) with (star isspace s (fun s' => K s' None)).
    apply star_greedy; [assumption | |].
    - destruct (digits_cons d Hd) as (c & d' & -> & Hc & _). rewrite append_cons.
      now apply digit_not_space.
    - now apply run_number_ok. }
  unfold title_pattern. rewrite run_seq.
  change (run (Alt ?a1 (Alt ?a2 (Alt ?a3 ?a4))) ?s None ?K)
    with (match run a1 s None K with
          | Some x => Some x
          | None => match run a2 s None K with
                    | Some x => Some x
                    | None => match run a3 s None K with
                              | Some x => Some x
                              | None => run a4 s None K
                              end
                    end
          end).
  destruct Hkw as [Hkw|Hkw].
  - rewrite <- Hkw at 1. rewrite run_word_i_ok. now rewrite Htail.
  - assert (Hlow : forall x, lower (kw +:+ x) = "episode" +:+ lower x)
      by (intros x; now rewrite lower_app, Hkw).
    rewrite run_word_i_fail by (now rewrite Hlow).
    rewrite !run_seq.
    rewrite (run_word_i_fail "ch") by (now rewrite Hlow).
    rewrite (run_word_i_fail "no") by (now rewrite Hlow).
    rewrite <- Hkw at 1. now rewrite run_word_i_ok.
Qed.

Lemma search_here (r : regex) (s : string) (m : string * option string) :
  match_at r s = Some m -> search r s = Some m.
Proof. intros H. destruct s; simpl; now rewrite H. Qed.

(** X24. A trimmed title that begins with the word chapter or episode, in
    any case, then white space if any, then a run of digits that ends
    there, has those digits as its number, whatever the URL; and when the
    title ends with them, it is its own subtitle. *)
Theorem keyword_number_extracted (unquote : string -> string)
  (kw sp d rest url : string) :
  keyword kw -> all_chars isspace sp = true -> digits d -> ends_number rest = true ->
  trimmed (kw +:+ sp +:+ d +:+ rest) ->
  meta_number (Metadata.parser unquote) (kw +:+ sp +:+ d +:+ rest) url = d /\
  (rest = "" ->
   meta_subtitle (Metadata.parser unquote) (kw +:+ sp +:+ d +:+ rest) = kw +:+ sp +:+ d).
Proof.
  intros Hkw Hsp Hd Hrest Htrim.
  assert (Hm : match_at title_pattern (kw +:+ sp +:+ d +:+ rest) = Some (rest, Some d))
    by (now apply title_match_ok).
  apply search_here in Hm. simpl.
  unfold Metadata.meta_number, Metadata.meta_subtitle.
  rewrite (strip_of_trimmed _ Htrim), Hm. split.
  - unfold Metadata.group1. simpl. destruct Hd as [Hne _]. now destruct d.
  - intros ->. rewrite append_empty_r in *.
    assert (Hsub : sub subtitle_pattern (kw +:+ sp +:+ d) = "").
    { unfold sub. cbn [sub_fuel].
      assert (Hs : match_at subtitle_pattern (kw +:+ sp +:+ d +:+ "") = Some ("", Some d)).
      { unfold match_at, subtitle_pattern. rewrite run_seq.
        now apply title_match_ok. }
      rewrite append_empty_r in Hs. rewrite Hs.
      now destruct (String.length (kw +:+ sp +:+ d)). }
    now rewrite Hsub.
Qed.

Lemma keyword_number_extracted_witness :
  meta_number (Metadata.parser unquote_plain) ("Chapter" +:+ " " +:+ "12" +:+ ": The End")
    "https://example.org/one-piece/c-3" = "12".
Proof.
  refine (proj1 (keyword_number_extracted unquote_plain "Chapter" " " "12" ": The End"
                   "https://example.org/one-piece/c-3" _ _ _ _ _)).
  - left. reflexivity.
  - reflexivity.
  - split; [discriminate | reflexivity].
  - reflexivity.
  - split; [reflexivity|]. exists "d"%char. split; reflexivity.
Defined.

End RegexFacts.

(** ** The metadata provider *)

Section AniListFacts.

Import AniList.

(** A step through a sequence of calls that did not raise. *)
Ltac bind_step H :=
  match type of H with
  | mbind _ ?m = _ =>
      destruct m eqn:?; [|discriminate H]; cbn [mbind outcome_bind] in H
  end.

Lemma fetch_body_result (env : environment) (manga_name : string)
  (cache : gmap string (gmap string json)) (r : option (gmap string json))
  (cache' : gmap string (gmap string json)) :
  fetch_body env manga_name cache = Returned (r, cache') ->
  (r = None /\ cache' = cache) \/
  (exists m, r = Some m /\ cache' = <[manga_name := m]> cache).
Proof.
  unfold fetch_body. intros H.
  bind_step H. destruct a as [status body].
  destruct (status =? 200)%Z; [|left; now injection H as <- <-].
  repeat bind_step H.
  match type of H with
  | (if ?c then _ else _) = _ => destruct c; [left; now injection H as <- <-|]
  end.
  repeat bind_step H.
  match type of H with
  | (if ?c then _ else _) = _ => destruct c; [|left; now injection H as <- <-]
  end.
  bind_step H. right. injection H as <- <-. now eexists.
Qed.

(** X25. After [fetch_metadata] the cache holds for the name exactly what
    the call returned, and what it held for the other names; so nothing is
    cached for a name that gave no metadata, and metadata once returned are
    returned again for the name whatever the service does then. *)
Theorem fetch_metadata_cached (env : environment) (manga_name : string)
  (cache : gmap string (gmap string json)) :
  let r := fst (fetch_metadata env manga_name cache) in
  let cache' := snd (fetch_metadata env manga_name cache) in
  cache' !! manga_name = r /\
  (forall other, other <> manga_name -> cache' !! other = cache !! other) /\
  (forall env', r <> None -> fetch_metadata env' manga_name cache' = (r, cache')).
Proof.
  assert (H : snd (fetch_metadata env manga_name cache) !! manga_name
              = fst (fetch_metadata env manga_name cache) /\
              forall other, other <> manga_name ->
                snd (fetch_metadata env manga_name cache) !! other = cache !! other).
  { unfold fetch_metadata. destruct (cache !! manga_name) as [m|] eqn:Hc; [now split|].
    destruct (fetch_body env manga_name cache) as [[r cache']|] eqn:Hb; [|now split].
    apply fetch_body_result in Hb as [[-> ->]|(m & -> & ->)]; simpl.
    - now split.
    - split; [apply lookup_insert_eq|]. intros other Ho. now apply lookup_insert_ne. }
  destruct H as [Hname Hother]. cbv zeta. split; [exact Hname|]. split; [exact Hother|].
  intros env' Hr. unfold fetch_metadata at 1. rewrite Hname.
  destruct (fst (fetch_metadata env manga_name cache)); [reflexivity | congruence].
Qed.

Lemma fetch_metadata_cached_witness :
  fetch_metadata silent_provider "One Piece"
    (snd (fetch_metadata one_piece_provider "One Piece" ∅))
  = (fst (fetch_metadata one_piece_provider "One Piece" ∅),
     snd (fetch_metadata one_piece_provider "One Piece" ∅)).
Proof.
  apply (proj2 (proj2 (fetch_metadata_cached one_piece_provider "One Piece" ∅))).
  vm_compute. discriminate.
Defined.

Tactic Notation "bind_as" hyp(H) ident(x) ident(Hx) :=
  match type of H with
  | mbind _ ?m = _ =>
      destruct m as [x|] eqn:Hx; [|discriminate H]; cbn [mbind outcome_bind] in H
  end.

Lemma fold_fmax_in (rest : list float) (x : float) :
  In (fold_left fmax rest x) (x :: rest).
Proof.
  revert x. induction rest as [|y rest IH]; intros x; [now left|].
  cbn [fold_left]. destruct (IH (fmax x y)) as [H|H].
  - rewrite <- H. unfold fmax. destruct (flt x y); [right; now left | now left].
  - right. now right.
Qed.

Lemma py_max_in (sims : list float) (best : float) :
  py_max sims = Returned best -> In best sims.
Proof.
  destruct sims as [|x rest]; [discriminate|]. intros [= <-]. apply fold_fmax_in.
Qed.

Lemma similarities_in (env : environment) (a : string) (titles : list json)
  (sims : list float) (x : float) :
  similarities env a titles = Returned sims -> In x sims ->
  exists s, In (JStr s) titles /\ x = ratio env (lower a) (lower s).
Proof.
  revert sims. induction titles as [|t titles IH]; intros sims H Hx.
  - injection H as <-. destruct Hx.
  - cbn [similarities] in H. unfold calculate_similarity in H.
    destruct t as [| | | |s| |]; try discriminate H.
    cbn [as_str mbind outcome_bind mret outcome_ret] in H.
    destruct (similarities env a titles) as [xs|] eqn:Hs; [|discriminate H].
    cbn [mbind outcome_bind] in H. injection H as <-.
    destruct Hx as [<-|Hx].
    + exists s. split; [now left | reflexivity].
    + destruct (IH xs eq_refl Hx) as (s' & Hin & ->). exists s'. split; [now right | reflexivity].
Qed.

(** X26. Metadata that [fetch_metadata] returns for a name that was not
    cached are those of the media of a response with status 200, formatted
    by [_format_meta], and one of the two titles of the media, in lower
    case, is more than 0.6 similar to the name in lower case. *)
Theorem fresh_metadata_similar (env : environment) (manga_name : string)
  (cache cache' : gmap string (gmap string json)) (m : gmap string json) :
  cache !! manga_name = None ->
  fetch_metadata env manga_name cache = (Some m, cache') ->
  exists data d media title romaji english s,
    post env manga_name = Some (200%Z, Some data) /\
    get data "data" (JDict []) = Returned d /\
    get d "Media" JNull = Returned media /\
    subscript media "title" = Returned title /\
    subscript title "romaji" = Returned romaji /\
    subscript title "english" = Returned english /\
    (romaji = JStr s \/ english = JStr s) /\
    flt threshold (ratio env (lower manga_name) (lower s)) = true /\
    _format_meta media = Returned m.
Proof.
  intros Hc. unfold fetch_metadata. rewrite Hc.
  destruct (fetch_body env manga_name cache) as [[r c]|] eqn:H; [|discriminate].
  intros [= -> ->]. unfold fetch_body in H.
  destruct (post env manga_name) as [[status body]|] eqn:Hpost; [|discriminate H].
  cbn [or_raise mbind outcome_bind] in H.
  destruct (Z.eqb_spec status 200) as [->|]; [|discriminate H].
  destruct body as [data|]; [|discriminate H]. cbn [or_raise mbind outcome_bind] in H.
  bind_as H d Hd. bind_as H media Hmedia.
  destruct (negb (truthy media)); [discriminate H|].
  bind_as H title' Htitle. bind_as H romaji Hromaji.
  bind_as H english Henglish. bind_as H sims Hsims. bind_as H best Hbest.
  destruct (flt threshold best) eqn:Hflt; [|discriminate H].
  bind_as H m' Hm. injection H as -> _.
  destruct (similarities_in env manga_name _ sims best Hsims (py_max_in _ _ Hbest))
    as (s & Hin & ->).
  apply filter_In in Hin as [Hin _].
  exists data, d, media, title', romaji, english, s.
  repeat (split; [first [assumption | reflexivity]|]).
  split; [|split; assumption].
  destruct Hin as [Hin|[Hin|[]]]; [now left | now right].
Qed.

Lemma fresh_metadata_similar_witness :
  exists s, flt threshold (ratio one_piece_provider (lower "One Piece") (lower s)) = true.
Proof.
  destruct (fetch_metadata one_piece_provider "One Piece" ∅) as [[m|] c] eqn:H;
    [|vm_compute in H; discriminate H].
  destruct (fresh_metadata_similar one_piece_provider "One Piece" ∅ c m (lookup_empty _) H)
    as (data & d & media & t & romaji & english & s & _ & _ & _ & _ & _ & _ & _ & Hs & _).
  exists s. exact Hs.
Defined.

Lemma py_or_truthy (a b : json) : truthy (py_or a b) = truthy (py_or b a).
Proof.
  unfold py_or. destruct (truthy a) eqn:Ha, (truthy b) eqn:Hb; congruence.
Qed.

(** X27. The metadata that [_format_meta] returns have the five fields
    writer, artist, year, genres and summary and no other; the writer and
    the artist are credited together or not at all, the one standing for
    the other when a single one was found; the genres are a string; and a
    summary that is a string is trimmed. *)
Theorem format_meta_fields (media : json) (m : gmap string json) :
  _format_meta media = Returned m ->
  dom m = ({[ "writer"; "artist"; "year"; "genres"; "summary" ]} : gset string) /\
  (exists writer artist,
     m !! "writer" = Some writer /\ m !! "artist" = Some artist /\
     truthy writer = truthy artist) /\
  (exists genres, m !! "genres" = Some (JStr genres)) /\
  (forall summary, m !! "summary" = Some (JStr summary) -> trimmed summary).
Proof.
  unfold _format_meta. intros H.
  bind_as H staffed Hstaffed. bind_as H edged Hedged. bind_as H wa Hwa.
  destruct wa as [writer artist].
  bind_as H desc0 Hdesc0. bind_as H desc Hdesc. bind_as H start_date Hstart.
  bind_as H year Hyear. bind_as H genres Hgenres. bind_as H items Hitems.
  bind_as H parts Hparts. injection H as <-.
  split; [|split; [|split]].
  - rewrite !dom_insert_L, dom_empty_L. set_solver.
  - exists (py_or writer artist), (py_or artist writer).
    split; [|split; [|apply py_or_truthy]]; now simplify_map_eq.
  - eexists. now simplify_map_eq.
  - intros summary Hs. simplify_map_eq.
    destruct (truthy desc0) eqn:Ht.
    + bind_as Hdesc s0 Hs0. injection Hdesc as <-. apply strip_trimmed.
    + injection Hdesc as ->. destruct summary; [exact I | discriminate Ht].
Qed.

Lemma format_meta_fields_witness :
  exists m, _format_meta one_piece_media = Returned m /\
            exists genres, m !! "genres" = Some (JStr genres).
Proof.
  destruct (_format_meta one_piece_media) as [m|] eqn:H; [|vm_compute in H; discriminate H].
  exists m. split; [reflexivity|].
  exact (proj1 (proj2 (proj2 (format_meta_fields one_piece_media m H)))).
Defined.

End AniListFacts.

(** ** The library command *)

Section CliFacts.

Import Resolver Cli.





Lemma has_key_in (sites : sites_config) (k : string) :
  has_key sites k = true <-> In k (map fst sites).
Proof.
  unfold has_key, lookup_site. rewrite bool_decide_eq_true.
  induction sites as [|[key d] sites IH]; simpl.
  - split; [intros [? H]; discriminate | easy].
  - destruct (String.eqb_spec key k) as [->|Hne]; simpl.
    + split; [now left | eauto].
    + rewrite IH. split; [now right | intros [?|?]; [congruence | assumption]].
Qed.

Lemma filter_nodup {A : Type} (f : A -> bool) (l : list A) :
  NoDup l -> NoDup (List.filter f l).
Proof.
  induction 1 as [|x l Hx Hl IH]; simpl; [constructor|].
  destruct (f x); [|assumption]. constructor; [|assumption].
  rewrite list_elem_of_In, filter_In. rewrite list_elem_of_In in Hx. tauto.
Qed.

Lemma filter_split_length {A : Type} (f : A -> bool) (l : list A) :
  (length (List.filter f l) + length (List.filter (fun x => negb (f x)) l) = length l)%nat.
Proof.
  induction l as [|x l IH]; simpl; [reflexivity|]. destruct (f x); simpl; lia.
Qed.

(** The keys of the table that are not among [chosen] are as many as the
    table has keys beyond them. *)
Lemma others_length (keys chosen : list string) :
  NoDup keys -> NoDup chosen -> (forall k, In k chosen -> In k keys) ->
  length (List.filter (fun k => negb (bool_decide (k ∈ chosen))) keys)
  = (length keys - length chosen)%nat.
Proof.
  intros Hk Hc Hsub.
  pose proof (filter_split_length (fun k => bool_decide (k ∈ chosen)) keys) as Hsplit.
  assert (Hperm : Permutation (List.filter (fun k => bool_decide (k ∈ chosen)) keys) chosen).
  { apply NoDup_Permutation; [now apply filter_nodup | assumption|].
    intros k. rewrite list_elem_of_In, filter_In, bool_decide_eq_true, !list_elem_of_In.
    split; [tauto | intros H; split; [now apply Hsub | assumption]]. }
  apply Permutation_length in Hperm. lia.
Qed.

Lemma in_take {A : Type} (x : A) (n : nat) (l : list A) : In x (take n l) -> In x l.
Proof.
  revert n. induction l as [|y l IH]; intros [|n]; simpl; try easy.
  intros [?|?]; [now left | right; now apply (IH n)].
Qed.

Lemma featured_distinct : NoDup FEATURED_MANGAS.
Proof. apply (bool_decide_unpack _). vm_compute. exact I. Qed.

(** X29. Without [--all], the grid shows keys of the table, none twice, in
    the order of the strings: the featured series that the table has,
    filled up with other keys of the table to 24 when the table has that
    many, so that a table of 24 keys or more gives 24 cards, and the others
    are counted as hidden; and the keys shown do not depend on the order in
    which the set of the featured series is iterated. *)
Theorem trending_grid (sites : sites_config) (featured : list string) :
  Permutation featured FEATURED_MANGAS ->
  NoDup (map fst sites) ->
  let keys := display_keys sites false featured in
  keys = display_keys sites false FEATURED_MANGAS /\
  NoDup keys /\
  (forall k, In k keys -> has_key sites k = true) /\
  (forall k, In k FEATURED_MANGAS -> has_key sites k = true -> In k keys) /\
  ((24 <= length sites)%nat -> length keys = 24%nat) /\
  StronglySorted String.le keys /\
  ((24 < length sites)%nat ->
   hidden sites false featured = Some (length sites - 24)%nat).
Proof.
  intros Hperm Hnd keys.
  assert (Hgen : forall order, Permutation order FEATURED_MANGAS ->
    let chosen := List.filter (has_key sites) order in
    let shown :=
      if (length chosen <? 24)%nat && (24 <=? length sites)%nat
      then chosen ++ take (24 - length chosen)
                       (List.filter (fun k => negb (bool_decide (k ∈ chosen))) (map fst sites))
      else chosen in
    display_keys sites false order = sorted shown /\
    NoDup shown /\
    (forall k, In k shown -> has_key sites k = true) /\
    (forall k, In k FEATURED_MANGAS -> has_key sites k = true -> In k shown) /\
    ((24 <= length sites)%nat -> length shown = 24%nat)).
  { intros order Ho chosen shown.
    assert (Hcn : NoDup chosen).
    { apply filter_nodup. rewrite Ho. apply featured_distinct. }
    assert (Hcs : forall k, In k chosen -> In k (map fst sites)).
    { intros k Hk. apply filter_In in Hk as [_ Hk]. now apply has_key_in. }
    assert (Hcl : (length chosen <= 24)%nat).
    { transitivity (length order); [apply filter_length_le|]. 
      now rewrite (Permutation_length Ho). }
    pose proof (others_length (map fst sites) chosen Hnd Hcn Hcs) as Hothers.
    split; [reflexivity|]. subst shown.
    destruct ((length chosen <? 24)%nat && (24 <=? length sites)%nat) eqn:Hfill.
    - apply andb_true_iff in Hfill as [Hlt Hge].
      apply Nat.ltb_lt in Hlt. apply Nat.leb_le in Hge.
      split; [|split; [|split]].
      + apply NoDup_app. split; [assumption|]. split.
        * intros k Hk Hk'. apply list_elem_of_In, in_take in Hk'.
          apply filter_In in Hk' as [_ Hk']. apply negb_true_iff, bool_decide_eq_false in Hk'.
          contradiction.
        * apply (sublist_NoDup _ (List.filter (fun k => negb (bool_decide (k ∈ chosen)))
                                               (map fst sites))).
          -- now apply filter_nodup.
          -- apply sublist_take.
      + intros k Hk. apply in_app_or in Hk as [Hk|Hk].
        * now apply filter_In in Hk as [_ Hk].
        * apply in_take, filter_In in Hk as [Hk _]. now apply has_key_in.
      + intros k Hk Hhas. apply in_or_app. left. apply filter_In. split; [|assumption].
        now apply (Permutation_in _ (Permutation_sym Ho)).
      + intros _. rewrite length_app, length_take, Hothers, length_map. lia.
    - split; [assumption|]. split; [|split].
      + intros k Hk. now apply filter_In in Hk as [_ Hk].
      + intros k Hk Hhas. apply filter_In. split; [|assumption].
        now apply (Permutation_in _ (Permutation_sym Ho)).
      + intros Hge. apply andb_false_iff in Hfill as [Hlt|Hlt].
        * apply Nat.ltb_ge in Hlt. lia.
        * apply Nat.leb_gt in Hlt. rewrite length_map in *. lia. }
  destruct (Hgen featured Hperm) as (Heq & Hnodup & Hsites & Hfeat & Hlen).
  destruct (Hgen FEATURED_MANGAS (Permutation_refl _)) as (Heq0 & _).
  assert (Hsame : keys = display_keys sites false FEATURED_MANGAS).
  { subst keys. rewrite Heq, Heq0. apply sorted_of_perm.
    assert (Hc : Permutation (List.filter (has_key sites) featured)
                             (List.filter (has_key sites) FEATURED_MANGAS)).
    { clear -Hperm. induction Hperm; simpl.
      - constructor.
      - destruct (has_key sites x); [now constructor | assumption].
      - destruct (has_key sites x), (has_key sites y); try reflexivity. apply perm_swap.
      - etransitivity; eassumption. }
    rewrite (Permutation_length Hc).
    destruct ((length (List.filter (has_key sites) FEATURED_MANGAS) <? 24)%nat
              && (24 <=? length sites)%nat); [|exact Hc].
    apply Permutation_app; [exact Hc|].
    assert (Hf : List.filter (fun k => negb (bool_decide
                    (k ∈ List.filter (has_key sites) featured))) (map fst sites)
                 = List.filter (fun k => negb (bool_decide
                    (k ∈ List.filter (has_key sites) FEATURED_MANGAS))) (map fst sites)).
    { apply filter_ext. intros k. f_equal. apply bool_decide_ext. now rewrite Hc. }
    now rewrite Hf. }
  split; [exact Hsame|].
  assert (Hkeys : (24 <= length sites)%nat -> length keys = 24%nat).
  { intros Hge. subst keys. rewrite Heq, (Permutation_length (sorted_perm _)).
    now apply Hlen. }
  assert (Hhidden : (24 < length sites)%nat ->
                    hidden sites false featured = Some (length sites - 24)%nat).
  { intros Hgt. unfold hidden. fold keys. rewrite Hkeys by lia. simpl.
    destruct (Nat.ltb_spec 24 (length sites)); [reflexivity | lia]. }
  subst keys. rewrite Heq.
  split; [|split; [|split; [|split; [|split]]]].
  - rewrite (sorted_perm _). exact Hnodup.
  - intros k Hk. apply Hsites. now apply (Permutation_in _ (sorted_perm _)).
  - intros k Hk Hhas. apply (Permutation_in _ (Permutation_sym (sorted_perm _))).
    now apply Hfeat.
  - rewrite <- Heq. exact Hkeys.
  - apply sorted_sorted.
  - exact Hhidden.
Qed.

Lemma trending_grid_witness :
  display_keys one_site false (rev FEATURED_MANGAS)
  = display_keys one_site false FEATURED_MANGAS.
Proof.
  refine (proj1 (trending_grid one_site (rev FEATURED_MANGAS)
                   (Permutation_sym (Permutation_rev _)) _)).
  apply (bool_decide_unpack _). vm_compute. exact I.
Defined.

Lemma substring_length (n : nat) (s : string) :
  String.length (String.substring 0 n s) = Nat.min n (String.length s).
Proof.
  revert n. induction s as [|c s IH]; intros [|n]; simpl; try reflexivity.
  now rewrite IH.
Qed.

(** X30. The text of a card never takes more than [safe_len] characters,
    and [safe_len] is 15 at least: a text that fits is shown as it is, a
    longer one as its first [safe_len - 3] characters and three dots. *)
Theorem card_text_fits (raw : Z) (text : string) :
  let n := safe_len raw in
  (15 <= n)%Z /\
  (Z.of_nat (String.length (shorten n text)) <= n)%Z /\
  ((Z.of_nat (String.length text) <= n)%Z -> shorten n text = text) /\
  ((n < Z.of_nat (String.length text))%Z ->
   String.length (shorten n text) = Z.to_nat n /\
   exists pre rest,
     text = pre +:+ rest /\ String.length pre = Z.to_nat (n - 3) /\
     shorten n text = pre +:+ "...").
Proof.
  intros n.
  assert (Hn : (15 <= n)%Z).
  { subst n. unfold safe_len. destruct (Z.ltb_spec raw 15); lia. }
  split; [exact Hn|]. unfold shorten.
  destruct (Z.ltb_spec n (Z.of_nat (String.length text))) as [Hlong|Hfits].
  - assert (Hlen : String.length (String.substring 0 (Z.to_nat (n - 3)) text +:+ "...")
                   = Z.to_nat n).
    { rewrite string_length_app, substring_length. simpl. lia. }
    split; [rewrite Hlen; lia|]. split; [lia|]. intros _. split; [exact Hlen|].
    exists (String.substring 0 (Z.to_nat (n - 3)) text).
    assert (Hpre : exists rest,
               text = String.substring 0 (Z.to_nat (n - 3)) text +:+ rest).
    { clear. generalize (Z.to_nat (n - 3)). intros k. revert k.
      induction text as [|c text IH]; intros [|k]; simpl.
      + now exists "".
      + now exists "".
      + now exists (String c text).
      + destruct (IH k) as [rest Hrest]. exists rest. rewrite append_cons. now f_equal. }
    destruct Hpre as [rest Hrest]. exists rest.
    split; [exact Hrest|]. split; [|reflexivity].
    rewrite substring_length. lia.
  - split; [lia|]. split; [reflexivity | lia].
Qed.

End CliFacts.
